(** * BZI.symmetry: lattice symmetry and k-point grid reduction

    A shallow embedding of the routines of [BZI/symmetry.py] that build the
    Hermite normal form, index and fold k-points, reduce grids into
    symmetry orbits, search point and space groups and reduce lattice
    bases, together with the properties stated about them.

    Conventions.  numpy integer arrays are modelled over [Z] and numpy
    float arrays over [Q]: arithmetic is exact, so every statement is about
    the algorithm in exact arithmetic, not about rounding in binary64.
    A 3-element array is a triple, a 3x3 array a triple of rows. Python
    exceptions are the [Raise] outcome; a [while] loop with no bound of its
    own takes a fuel argument and answers [OutOfFuel] when it is used up. *)

From Stdlib Require Import ZArith QArith Qround Qabs Qpower Lia Lqa List String Bool.
From stdpp Require Import gmap list.
Import ListNotations.

Local Open Scope Z_scope.

(** ** Exceptions and outcomes *)

Inductive exn : Type :=
| ValueError (msg : string)
| IndexError
| KeyError
| OverflowError
| LinAlgError.

Inductive outcome (A : Type) : Type :=
| Ok (a : A)
| Raise (e : exn)
| OutOfFuel.

Arguments Ok {A} a.
Arguments Raise {A} e.
Arguments OutOfFuel {A}.
Arguments ValueError msg%_string.

#[global] Instance outcome_ret : MRet outcome := fun A a => Ok a.
#[global] Instance outcome_bind : MBind outcome := fun A B k m =>
  match m with
  | Ok a => k a
  | Raise e => Raise e
  | OutOfFuel => OutOfFuel
  end.

(** ** Three-element arrays and 3x3 arrays *)

Definition vec3 (A : Type) : Type := (A * A * A)%type.
Definition mat3 (A : Type) : Type := vec3 (vec3 A).

(** [v[i]] *)
Definition get {A : Type} (v : vec3 A) (i : nat) : A :=
  let '(x, y, z) := v in
  match i with O => x | 1%nat => y | _ => z end.

(** [v[i] = a] *)
Definition set {A : Type} (v : vec3 A) (i : nat) (a : A) : vec3 A :=
  let '(x, y, z) := v in
  match i with O => (a, y, z) | 1%nat => (x, a, z) | _ => (x, y, a) end.

Definition to_list {A : Type} (v : vec3 A) : list A :=
  let '(x, y, z) := v in [x; y; z].

(** [M[i,j]], [M[i,:]], [M[:,j]] *)
Definition mget {A : Type} (M : mat3 A) (i j : nat) : A := get (get M i) j.
Definition row {A : Type} (M : mat3 A) (i : nat) : vec3 A := get M i.
Definition col {A : Type} (M : mat3 A) (j : nat) : vec3 A :=
  (mget M 0 j, mget M 1 j, mget M 2 j).

(** [M[:,j] = c] *)
Definition set_col {A : Type} (M : mat3 A) (j : nat) (c : vec3 A) : mat3 A :=
  let '(r0, r1, r2) := M in
  let '(c0, c1, c2) := c in
  (set r0 j c0, set r1 j c1, set r2 j c2).

(** [tmp = M[:,i]; M[:,i] = M[:,j]; M[:,j] = tmp] *)
Definition swap_cols {A : Type} (M : mat3 A) (i j : nat) : mat3 A :=
  let tmp := col M i in
  set_col (set_col M i (col M j)) j tmp.

Definition transpose {A : Type} (M : mat3 A) : mat3 A := (col M 0, col M 1, col M 2).

Definition vmap {A B : Type} (f : A -> B) (v : vec3 A) : vec3 B :=
  let '(x, y, z) := v in (f x, f y, f z).


(** ** Integer matrices *)

Module ZM.

Definition vec := vec3 Z.
Definition mat := mat3 Z.

Definition vsub (u v : vec) : vec :=
let '(a, b, c) := u in let '(x, y, z) := v in (a - x, b - y, c - z).
Definition vscale (k : Z) (v : vec) : vec := vmap (Z.mul k) v.
Definition vneg (v : vec) : vec := vmap Z.opp v.
Definition dot (u v : vec) : Z :=
let '(a, b, c) := u in let '(x, y, z) := v in a * x + b * y + c * z.

(** [np.dot(M, v)] and [np.dot(M, N)] *)
Definition mvmul (M : mat) (v : vec) : vec :=
let '(r0, r1, r2) := M in (dot r0 v, dot r1 v, dot r2 v).
Definition mmul (M N : mat) : mat :=
let '(r0, r1, r2) := M in
let row_times r := (dot r (col N 0), dot r (col N 1), dot r (col N 2)) in
(row_times r0, row_times r1, row_times r2).

Definition identity : mat := ((1, 0, 0), (0, 1, 0), (0, 0, 1)).

Definition det (M : mat) : Z :=
let '((a, b, c), (d, e, f), (g, h, i)) := M in
a * (e * i - f * h) - b * (d * i - f * g) + c * (d * h - e * g).

Definition mat_to_list (M : mat) : list Z :=
let '(r0, r1, r2) := M in to_list r0 ++ to_list r1 ++ to_list r2.

(** [np.allclose(a, b)] at the default [rtol=1e-5], [atol=1e-8] on integer
arrays: [|a - b| <= atol + rtol*|b|] entrywise, scaled by [10^8]. *)
Definition isclose (a b : Z) : bool :=
100000000 * Z.abs (a - b) <=? 1 + 1000 * Z.abs b.
Definition allclose (M N : mat) : bool :=
forallb (fun p => isclose (fst p) (snd p))
    (combine (mat_to_list M) (mat_to_list N)).

(** [np.count_nonzero] *)
Definition count_nonzero (l : list Z) : nat :=
List.length (List.filter (fun x => negb (x =? 0)) l).

(** [np.argmax]: the first index of the largest entry. *)
Fixpoint argmax_from (i best_i : nat) (best : Z) (l : list Z) : nat :=
match l with
| [] => best_i
| x :: l' =>
if best <? x then argmax_from (S i) i x l'
else argmax_from (S i) best_i best l'
end.
Definition argmax (l : list Z) : nat :=
match l with
| [] => O
| x :: l' => argmax_from 1 O x l'
end.

(** [int(a/b)] on numpy integers: true division, then truncation toward
zero; a zero divisor gives inf or nan, which [int] refuses. *)
Definition int_div (a b : Z) : outcome Z :=
if b =? 0 then
(if a =? 0 then Raise (ValueError "cannot convert float NaN to integer")
 else Raise OverflowError)
else Ok (Z.quot a b).

End ZM.

(** ** Hermite normal form ([get_minmax_indices], [swap_column],
       [HermiteNormalForm]) *)

(** The [while min == 0] scan of [get_minmax_indices]: the first non-zero
    entry and the value of [i] after the loop; running off the end of the
    array is an [IndexError]. *)
Fixpoint first_nonzero (i : nat) (l : list Z) : outcome (Z * nat) :=
  match l with
  | [] => Raise IndexError
  | x :: l' => if x =? 0 then first_nonzero (S i) l' else Ok (x, S i)
  end.

(** The [for i, ai in enumerate(a)] scan that keeps the smallest positive
    entry and its index. *)
Fixpoint min_scan (i : nat) (l : list Z) (min : Z) (mini : nat) : Z * nat :=
  match l with
  | [] => (min, mini)
  | ai :: l' =>
      if (0 <? ai) && (ai <? min) then min_scan (S i) l' ai i
      else min_scan (S i) l' min mini
  end.

Definition get_minmax_indices (a : ZM.vec) : outcome (nat * nat) :=
  let a := to_list (vmap Z.abs a) in
  let maxi := (2 - ZM.argmax (rev a))%nat in
  '(min, i) ← first_nonzero 0 a;
  let mini := (i - 1)%nat in
  let '(_, mini) := min_scan 0 a min mini in
  Ok (mini, maxi).

(** [M[:, maxidx] = M[:, maxidx] - multiple*M[:, minidx]] *)
Definition col_sub (M : ZM.mat) (maxidx minidx : nat) (multiple : Z) : ZM.mat :=
  set_col M maxidx (ZM.vsub (col M maxidx) (ZM.vscale multiple (col M minidx))).

(** [M[:, j] = -M[:, j]] *)
Definition col_neg (M : ZM.mat) (j : nat) : ZM.mat :=
  set_col M j (ZM.vneg (col M j)).

Definition swap_column (M B : ZM.mat) (k : nat) : ZM.mat * ZM.mat :=
  let maxidx := (ZM.argmax (skipn k (to_list (vmap Z.abs (row M k)))) + k)%nat in
  let Bs := swap_cols B k maxidx in
  let Ms := swap_cols M k maxidx in
  (Ms, Bs).

(** First loop: column operations until row 0 has one non-zero entry. *)
Fixpoint hnf_row0 (fuel : nat) (S H B : ZM.mat) : outcome (ZM.mat * ZM.mat) :=
  if (1 <? ZM.count_nonzero (to_list (row H 0)))%nat then
    match fuel with
    | O => OutOfFuel
    | Datatypes.S fuel' =>
        '(minidx, maxidx) ← get_minmax_indices (row H 0);
        let minm := mget H 0 minidx in
        multiple ← ZM.int_div (mget H 0 maxidx) minm;
        let H := col_sub H maxidx minidx multiple in
        let B := col_sub B maxidx minidx multiple in
        if negb (ZM.allclose (ZM.mmul S B) H) then
          Raise (ValueError "COLS: Transformation matrices didn't work.")
        else hnf_row0 fuel' S H B
    end
  else Ok (H, B).

(** Second loop: work on element [H[1,2]]. *)
Fixpoint hnf_h12 (fuel : nat) (S H B : ZM.mat) : outcome (ZM.mat * ZM.mat) :=
  if negb (mget H 1 2 =? 0) then
    match fuel with
    | O => OutOfFuel
    | Datatypes.S fuel' =>
        let '(H, B, break) :=
          if mget H 1 1 =? 0 then
            let H' := swap_cols H 1 2 in
            let B' := swap_cols B 1 2 in
            (H', B', mget H' 1 2 =? 0)
          else (H, B, false) in
        if break then Ok (H, B)
        else
          let '(maxidx, minidx) :=
            if Z.abs (mget H 1 2) <? Z.abs (mget H 1 1) then (1%nat, 2%nat)
            else (2%nat, 1%nat) in
          multiple ← ZM.int_div (mget H 1 maxidx) (mget H 1 minidx);
          let H := col_sub H maxidx minidx multiple in
          let B := col_sub B maxidx minidx multiple in
          if negb (ZM.allclose (ZM.mmul S B) H) then
            Raise (ValueError "COLS: Transformation matrices didn't work.")
          else hnf_h12 fuel' S H B
    end
  else Ok (H, B).

(** The loops of the last part: bring [H[i,j]] into [0 <= H[i,j] < H[i,i]]
    by adding or subtracting column [i] to column [j]
    ([while H[i,i] <= H[i,j] or H[i,j] < 0]). *)
Fixpoint hnf_below (fuel : nat) (i j : nat) (H B : ZM.mat) : outcome (ZM.mat * ZM.mat) :=
  if (mget H i i <=? mget H i j) || (mget H i j <? 0) then
    match fuel with
    | O => OutOfFuel
    | Datatypes.S fuel' =>
        let multiple := if mget H i i <=? mget H i j then 1 else -1 in
        hnf_below fuel' i j (col_sub H j i multiple) (col_sub B j i multiple)
    end
  else Ok (H, B).

(** [H[check1]] and [H[check2]] *)
Definition check1 (H : ZM.mat) : list Z := [mget H 0 1; mget H 0 2; mget H 1 2].
Definition check2 (H : ZM.mat) : list Z :=
  [mget H 0 0; mget H 1 0; mget H 1 1; mget H 2 0; mget H 2 1; mget H 2 2].

Definition HermiteNormalForm (fuel : nat) (S : ZM.mat) : outcome (ZM.mat * ZM.mat) :=
  if ZM.det S =? 0 then Raise (ValueError "Singular matrix passed to HNF routine")
  else
    let B := ZM.identity in
    let H := S in
    '(H, B) ← hnf_row0 fuel S H B;
    let '(H, B) := if mget H 0 0 =? 0 then swap_column H B 0 else (H, B) in
    let '(H, B) := if mget H 0 0 <? 0 then (col_neg H 0, col_neg B 0) else (H, B) in
    if (1 <? ZM.count_nonzero (to_list (row H 0)))%nat then
      Raise (ValueError "Didn't zero out the rest of the row.")
    else if negb (ZM.allclose (ZM.mmul S B) H) then
      Raise (ValueError "COLSWAP: Transformation matrices didn't work.")
    else
    '(H, B) ← hnf_h12 fuel S H B;
    (* here the source swaps the columns of H only *)
    let H := if mget H 1 1 =? 0 then swap_cols H 1 2 else H in
    let '(H, B) := if mget H 1 1 <? 0 then (col_neg H 1, col_neg B 1) else (H, B) in
    if negb (mget H 1 2 =? 0) then
      Raise (ValueError "Didn't zero out last element.")
    else if negb (ZM.allclose (ZM.mmul S B) H) then
      Raise (ValueError "COLSWAP: Transformation matrices didn't work.")
    else
    let '(H, B) := if mget H 2 2 <? 0 then (col_neg H 2, col_neg B 2) else (H, B) in
    if negb (ZM.count_nonzero (check1 H) =? 0)%nat then
      Raise (ValueError "Not lower triangular")
    else if negb (ZM.allclose (ZM.mmul S B) H) then
      Raise (ValueError "End Part1: Transformation matrices didn't work.")
    else
    '(H, B) ← hnf_below fuel 1 0 H B;
    '(H, B) ← hnf_below fuel 2 0 H B;
    '(H, B) ← hnf_below fuel 2 1 H B;
    if negb (ZM.allclose (ZM.mmul S B) H) then
      Raise (ValueError "End Part1: Transformation matrices didn't work.")
    else if negb (ZM.count_nonzero (check1 H) =? 0)%nat then
      Raise (ValueError "Not lower triangular")
    else if existsb (fun h => h <? 0) (check2 H) then
      Raise (ValueError "Negative elements in lower triangle.")
    else if (mget H 1 1 <? mget H 1 0) || (mget H 2 2 <? mget H 2 0)
            || (mget H 2 2 <? mget H 2 1) then
      Raise (ValueError "Lower triangular elements bigger than diagonal.")
    else Ok (H, B).

Example HermiteNormalForm_ex1 :
  HermiteNormalForm 20 ((2, 0, 0), (0, 2, 0), (0, 0, 2))
  = Ok (((2, 0, 0), (0, 2, 0), (0, 0, 2)), ZM.identity).
Proof. reflexivity. Qed.


(** ** Column operations and the determinant *)

Ltac split_mat M :=
  let r0 := fresh "r" in let r1 := fresh "r" in let r2 := fresh "r" in
  destruct M as [[r0 r1] r2];
  destruct r0 as [[? ?] ?]; destruct r1 as [[? ?] ?]; destruct r2 as [[? ?] ?].

Ltac split_idx i := destruct i as [|[|[|i]]].

Ltac mat_ring := cbn; repeat (f_equal; try ring).

Ltac case_cmp :=
  match goal with
  | |- context [Z.eqb ?a ?b] => destruct (Z.eqb_spec a b)
  | |- context [Z.ltb ?a ?b] => destruct (Z.ltb_spec a b)
  | |- context [Z.leb ?a ?b] => destruct (Z.leb_spec a b)
  end.

Section ColumnAlgebra.
Local Open Scope Z_scope.

Lemma mmul_col_sub (S B : ZM.mat) (j i : nat) (m : Z) :
ZM.mmul S (col_sub B j i m) = col_sub (ZM.mmul S B) j i m.
Proof. split_mat S; split_mat B; split_idx i; split_idx j; mat_ring. Qed.

Lemma mmul_col_neg (S B : ZM.mat) (j : nat) :
ZM.mmul S (col_neg B j) = col_neg (ZM.mmul S B) j.
Proof. split_mat S; split_mat B; split_idx j; mat_ring. Qed.

Lemma mmul_swap_cols (S B : ZM.mat) (i j : nat) :
ZM.mmul S (swap_cols B i j) = swap_cols (ZM.mmul S B) i j.
Proof. split_mat S; split_mat B; split_idx i; split_idx j; mat_ring. Qed.

Lemma det_mmul (M N : ZM.mat) : ZM.det (ZM.mmul M N) = ZM.det M * ZM.det N.
Proof. split_mat M; split_mat N; cbn; ring. Qed.

Lemma det_col_sub (M : ZM.mat) (j i : nat) (m : Z) :
(i < 3)%nat -> (j < 3)%nat -> i <> j ->
ZM.det (col_sub M j i m) = ZM.det M.
Proof.
intros Hi Hj Hij. split_mat M; split_idx i; split_idx j;
try lia; cbn; ring.
Qed.

Lemma det_col_neg (M : ZM.mat) (j : nat) :
ZM.det (col_neg M j) = - ZM.det M.
Proof. split_mat M; split_idx j; cbn; ring. Qed.

Lemma det_swap_cols (M : ZM.mat) (i j : nat) :
ZM.det (swap_cols M i j) = ZM.det M \/ ZM.det (swap_cols M i j) = - ZM.det M.
Proof.
split_mat M; split_idx i; split_idx j; cbn;
first [left; ring | right; ring].
Qed.

Lemma mmul_identity_r (S : ZM.mat) : ZM.mmul S ZM.identity = S.
Proof. split_mat S; mat_ring. Qed.

Lemma isclose_refl (a : Z) : ZM.isclose a a = true.
Proof. unfold ZM.isclose. apply Z.leb_le. rewrite Z.sub_diag. simpl Z.abs. lia. Qed.

Lemma allclose_refl (M : ZM.mat) : ZM.allclose M M = true.
Proof.
split_mat M. unfold ZM.allclose. cbn [ZM.mat_to_list to_list app combine forallb fst snd].
rewrite !isclose_refl. reflexivity.
Qed.
End ColumnAlgebra.

(** ** The invariant of [HermiteNormalForm]: [S.B = H] with [B] unimodular *)

Definition unimodular (B : ZM.mat) : Prop := ZM.det B = 1 \/ ZM.det B = -1.

Definition hnf_inv (S H B : ZM.mat) : Prop := ZM.mmul S B = H /\ unimodular B.

Lemma hnf_inv_init (S : ZM.mat) : hnf_inv S S ZM.identity.
Proof. split; [apply mmul_identity_r | left; reflexivity]. Qed.

Lemma hnf_inv_col_sub (S H B : ZM.mat) (j i : nat) (m : Z) :
  (i < 3)%nat -> (j < 3)%nat -> i <> j ->
  hnf_inv S H B -> hnf_inv S (col_sub H j i m) (col_sub B j i m).
Proof.
  intros Hi Hj Hij [E U]. split.
  - rewrite mmul_col_sub, E. reflexivity.
  - unfold unimodular. rewrite det_col_sub by assumption. exact U.
Qed.

Lemma hnf_inv_col_neg (S H B : ZM.mat) (j : nat) :
  hnf_inv S H B -> hnf_inv S (col_neg H j) (col_neg B j).
Proof.
  intros [E U]. split.
  - rewrite mmul_col_neg, E. reflexivity.
  - unfold unimodular in *. rewrite det_col_neg. lia.
Qed.

Lemma hnf_inv_swap_cols (S H B : ZM.mat) (i j : nat) :
  hnf_inv S H B -> hnf_inv S (swap_cols H i j) (swap_cols B i j).
Proof.
  intros [E U]. split.
  - rewrite mmul_swap_cols, E. reflexivity.
  - unfold unimodular in *. destruct (det_swap_cols B i j) as [D | D]; rewrite D; lia.
Qed.

Lemma hnf_inv_det (S H B : ZM.mat) :
  hnf_inv S H B -> ZM.det S <> 0 -> ZM.det H <> 0.
Proof.
  intros [E U] HS. rewrite <- E, det_mmul. unfold unimodular in U. nia.
Qed.

Lemma hnf_inv_allclose (S H B : ZM.mat) :
  hnf_inv S H B -> ZM.allclose (ZM.mmul S B) H = true.
Proof. intros [E _]. rewrite E. apply allclose_refl. Qed.

(** ** First loop *)

Definition row_measure (r : ZM.vec) : Z :=
  let '(x, y, z) := r in Z.abs x + Z.abs y + Z.abs z.

Lemma get_minmax_indices_spec (r : ZM.vec) :
  (1 < ZM.count_nonzero (to_list r))%nat ->
  exists mini maxi,
    get_minmax_indices r = Ok (mini, maxi) /\
    (mini < 3)%nat /\ (maxi < 3)%nat /\ mini <> maxi /\
    get r mini <> 0 /\ Z.abs (get r mini) <= Z.abs (get r maxi).
Proof.
  destruct r as [[x y] z]. unfold ZM.count_nonzero, get_minmax_indices.
  cbn [to_list vmap List.filter rev app ZM.argmax ZM.argmax_from first_nonzero min_scan].
  intros Hc.
  assert (Hx : Z.abs x = 0 <-> x = 0) by lia.
  assert (Hy : Z.abs y = 0 <-> y = 0) by lia.
  assert (Hz : Z.abs z = 0 <-> z = 0) by lia.
  revert Hc.
  destruct (Z.eqb_spec x 0), (Z.eqb_spec y 0), (Z.eqb_spec z 0);
    cbn [negb List.length]; intros Hc; try lia; subst; cbn [Z.abs Z.ltb Z.compare];
    repeat (case_cmp; try lia;
            cbn [andb mbind outcome_bind first_nonzero min_scan Nat.sub Nat.add]);
    (eexists _, _; split; [reflexivity | cbn [get]; repeat split; lia]).
Qed.

Lemma row_col_sub (H : ZM.mat) (k j i : nat) (m : Z) :
  row (col_sub H j i m) k
  = set (row H k) j (get (row H k) j - m * get (row H k) i).
Proof. split_mat H; split_idx k; split_idx i; split_idx j; reflexivity. Qed.

Lemma row_measure_set (r : ZM.vec) (j : nat) (v : Z) :
  row_measure (set r j v) = row_measure r - Z.abs (get r j) + Z.abs v.
Proof. destruct r as [[x y] z]; split_idx j; cbn; lia. Qed.

Lemma row_measure_ge (r : ZM.vec) (j : nat) : Z.abs (get r j) <= row_measure r.
Proof. destruct r as [[x y] z]; split_idx j; cbn; lia. Qed.

Lemma quot_step_abs (a b : Z) : b <> 0 -> Z.abs (a - (a ÷ b) * b) < Z.abs b.
Proof.
  intros Hb. replace (a - (a ÷ b) * b) with (Z.rem a b).
  - apply Z.rem_bound_abs; assumption.
  - pose proof (Z.quot_rem' a b). lia.
Qed.

Lemma int_div_ok (a b : Z) : b <> 0 -> ZM.int_div a b = Ok (a ÷ b).
Proof. intros Hb. unfold ZM.int_div. destruct (Z.eqb_spec b 0); [contradiction | reflexivity]. Qed.

Lemma fuel_mono {A : Type} (f : nat -> outcome A) :
  (forall n r, f n = Ok r -> f (Datatypes.S n) = Ok r) ->
  forall n m r, (n <= m)%nat -> f n = Ok r -> f m = Ok r.
Proof.
  intros Hstep n m r Hle Hn. induction Hle; [assumption | apply Hstep; assumption].
Qed.

Lemma hnf_row0_spec (fuel : nat) (S H B : ZM.mat) :
  hnf_inv S H B ->
  row_measure (row H 0) < Z.of_nat fuel ->
  exists H' B',
    hnf_row0 fuel S H B = Ok (H', B') /\ hnf_inv S H' B' /\
    (ZM.count_nonzero (to_list (row H' 0)) <= 1)%nat.
Proof.
  revert H B. induction fuel as [|fuel IH]; intros H B Hinv Hm.
  - pose proof (row_measure_ge (row H 0) 0). lia.
  - cbn [hnf_row0].
    destruct (1 <? ZM.count_nonzero (to_list (row H 0)))%nat eqn:Hc.
    + apply Nat.ltb_lt in Hc.
      destruct (get_minmax_indices_spec _ Hc)
        as (mini & maxi & -> & Hmini & Hmaxi & Hne & Hnz & Hle).
      cbn [mbind outcome_bind]. unfold mget. fold (row H 0).
      rewrite int_div_ok by exact Hnz. cbn [mbind outcome_bind].
      set (q := get (row H 0) maxi ÷ get (row H 0) mini).
      assert (Hinv' : hnf_inv S (col_sub H maxi mini q) (col_sub B maxi mini q))
        by (apply hnf_inv_col_sub; auto).
      rewrite (hnf_inv_allclose _ _ _ Hinv'). cbn [negb].
      apply IH; [exact Hinv' |].
      rewrite row_col_sub, row_measure_set.
      pose proof (quot_step_abs (get (row H 0) maxi) (get (row H 0) mini) Hnz).
      fold q in H0. lia.
    + apply Nat.ltb_ge in Hc. eauto.
Qed.

Lemma hnf_row0_mono (S : ZM.mat) (n m : nat) (H B : ZM.mat) r :
  (n <= m)%nat -> hnf_row0 n S H B = Ok r -> hnf_row0 m S H B = Ok r.
Proof.
  revert n m r. apply (fuel_mono (fun n => hnf_row0 n S H B)).
  intros n. revert H B. induction n as [|n IH]; intros H B r.
  - cbn [hnf_row0].
    destruct (1 <? ZM.count_nonzero (to_list (row H 0)))%nat; [discriminate | auto].
  - intros E. cbn [hnf_row0] in E |- *.
    destruct (1 <? ZM.count_nonzero (to_list (row H 0)))%nat; [| exact E].
    destruct (get_minmax_indices (row H 0)) as [[mini maxi] | |]; try discriminate.
    cbn [mbind outcome_bind] in E |- *.
    destruct (ZM.int_div _ _) as [q | |]; try discriminate.
    cbn [mbind outcome_bind] in E |- *.
    destruct (negb _); [discriminate |].
    apply IH. exact E.
Qed.

(** ** Second loop *)

Lemma hnf_h12_spec (fuel : nat) (S H B : ZM.mat) :
  hnf_inv S H B -> mget H 0 1 = 0 -> mget H 0 2 = 0 ->
  Z.abs (mget H 1 1) + Z.abs (mget H 1 2) < Z.of_nat fuel ->
  exists H' B',
    hnf_h12 fuel S H B = Ok (H', B') /\ hnf_inv S H' B' /\
    mget H' 0 0 = mget H 0 0 /\ mget H' 0 1 = 0 /\ mget H' 0 2 = 0 /\
    mget H' 1 2 = 0.
Proof.
  revert H B. induction fuel as [|fuel IH]; intros H B Hinv H01 H02 Hm; [lia |].
  cbn [hnf_h12].
  destruct (Z.eqb_spec (mget H 1 2) 0) as [E12 | N12]; cbn [negb].
  { eauto 10. }
  destruct (Z.eqb_spec (mget H 1 1) 0) as [E11 | N11].
  - assert (Hsw : mget (swap_cols H 1 2) 1 2 = 0) by (split_mat H; exact E11).
    rewrite Hsw, Z.eqb_refl.
    eexists _, _. split; [reflexivity |]. split; [apply hnf_inv_swap_cols; exact Hinv |].
    split_mat H. cbn in *. auto.
  - destruct (Z.ltb_spec (Z.abs (mget H 1 2)) (Z.abs (mget H 1 1))) as [Hlt | Hge].
    + rewrite int_div_ok by exact N12. cbn [mbind outcome_bind].
      set (q := mget H 1 1 ÷ mget H 1 2).
      assert (Hinv' : hnf_inv S (col_sub H 1 2 q) (col_sub B 1 2 q))
        by (apply hnf_inv_col_sub; auto).
      rewrite (hnf_inv_allclose _ _ _ Hinv'). cbn [negb].
      pose proof (quot_step_abs (mget H 1 1) (mget H 1 2) N12) as Hq. fold q in Hq.
      destruct (IH (col_sub H 1 2 q) (col_sub B 1 2 q) Hinv')
        as (H' & B' & -> & Hi & E00 & E01 & E02 & E12).
      * split_mat H. cbn in *. lia.
      * split_mat H. cbn in *. lia.
      * split_mat H. cbn in *. lia.
      * exists H', B'. split; [reflexivity |]. split; [exact Hi |].
        split; [| auto]. rewrite E00. split_mat H. reflexivity.
    + rewrite int_div_ok by exact N11. cbn [mbind outcome_bind].
      set (q := mget H 1 2 ÷ mget H 1 1).
      assert (Hinv' : hnf_inv S (col_sub H 2 1 q) (col_sub B 2 1 q))
        by (apply hnf_inv_col_sub; auto).
      rewrite (hnf_inv_allclose _ _ _ Hinv'). cbn [negb].
      pose proof (quot_step_abs (mget H 1 2) (mget H 1 1) N11) as Hq. fold q in Hq.
      destruct (IH (col_sub H 2 1 q) (col_sub B 2 1 q) Hinv')
        as (H' & B' & -> & Hi & E00 & E01 & E02 & E12).
      * split_mat H. cbn in *. lia.
      * split_mat H. cbn in *. lia.
      * split_mat H. cbn in *. lia.
      * exists H', B'. split; [reflexivity |]. split; [exact Hi |].
        split; [| auto]. rewrite E00. split_mat H. reflexivity.
Qed.

Lemma hnf_h12_mono (S : ZM.mat) (n m : nat) (H B : ZM.mat) r :
  (n <= m)%nat -> hnf_h12 n S H B = Ok r -> hnf_h12 m S H B = Ok r.
Proof.
  revert n m r. apply (fuel_mono (fun n => hnf_h12 n S H B)).
  intros n. revert H B. induction n as [|n IH]; intros H B r.
  - cbn [hnf_h12]. destruct (negb (mget H 1 2 =? 0)); [discriminate | auto].
  - intros E. cbn [hnf_h12] in E |- *.
    destruct (negb (mget H 1 2 =? 0)); [| exact E].
    destruct (mget H 1 1 =? 0).
    + destruct (mget (swap_cols H 1 2) 1 2 =? 0); [exact E |].
      destruct (Z.abs _ <? Z.abs _);
        (destruct (ZM.int_div _ _) as [q | |]; try discriminate;
         cbn [mbind outcome_bind] in E |- *;
         destruct (negb _); [discriminate | apply IH; exact E]).
    + destruct (Z.abs _ <? Z.abs _);
        (destruct (ZM.int_div _ _) as [q | |]; try discriminate;
         cbn [mbind outcome_bind] in E |- *;
         destruct (negb _); [discriminate | apply IH; exact E]).
Qed.

(** ** Last part: the entries below the diagonal *)

Definition lower_pos (H : ZM.mat) : Prop :=
  mget H 0 1 = 0 /\ mget H 0 2 = 0 /\ mget H 1 2 = 0 /\
  0 < mget H 0 0 /\ 0 < mget H 1 1 /\ 0 < mget H 2 2.

Definition below_measure (H : ZM.mat) (i j : nat) : Z :=
  if (0 <=? mget H i j) && (mget H i j <? mget H i i) then 0
  else Z.abs (mget H i j).

Definition below_pair (i j : nat) : Prop :=
  (i = 1%nat /\ j = 0%nat) \/ (i = 2%nat /\ j = 0%nat) \/ (i = 2%nat /\ j = 1%nat).

Lemma below_step (i j : nat) (H : ZM.mat) (m : Z) :
  below_pair i j -> lower_pos H ->
  (m = 1 /\ mget H i i <= mget H i j) \/ (m = -1 /\ mget H i j < 0) ->
  lower_pos (col_sub H j i m) /\
  below_measure (col_sub H j i m) i j < below_measure H i j /\
  (forall k, (k < i)%nat -> row (col_sub H j i m) k = row H k) /\
  (forall c, (c < 3)%nat -> c <> j -> mget (col_sub H j i m) i c = mget H i c).
Proof.
  intros Hij Hlow Hm. unfold lower_pos, below_measure in *.
  destruct Hij as [[-> ->] | [[-> ->] | [-> ->]]]; split_mat H;
    cbn in Hlow, Hm; destruct Hlow as (-> & -> & -> & ? & ? & ?);
    destruct Hm as [[-> ?] | [-> ?]];
    (split; [cbn; lia |]);
    (split; [cbn; repeat (case_cmp; cbn); lia |]);
    (split; [intros [|[|k]] Hk; try lia; cbn; repeat f_equal; lia |]);
    intros [|[|[|c]]] Hc Hne; try lia; reflexivity.
Qed.

Lemma hnf_below_spec (fuel : nat) (i j : nat) (S H B : ZM.mat) :
  below_pair i j ->
  hnf_inv S H B -> lower_pos H ->
  below_measure H i j < Z.of_nat fuel ->
  exists H' B',
    hnf_below fuel i j H B = Ok (H', B') /\ hnf_inv S H' B' /\ lower_pos H' /\
    0 <= mget H' i j < mget H' i i /\
    (forall k, (k < i)%nat -> row H' k = row H k) /\
    (forall c, (c < 3)%nat -> c <> j -> mget H' i c = mget H i c).
Proof.
  intros Hij. revert H B.
  induction fuel as [|fuel IH]; intros H B Hinv Hlow Hm.
  { unfold below_measure in Hm. destruct (_ && _); lia. }
  cbn [hnf_below].
  destruct ((mget H i i <=? mget H i j) || (mget H i j <? 0)) eqn:Hc.
  - set (m := if mget H i i <=? mget H i j then 1 else -1).
    assert (Hcase : (m = 1 /\ mget H i i <= mget H i j) \/ (m = -1 /\ mget H i j < 0)).
    { subst m. destruct (Z.leb_spec (mget H i i) (mget H i j)); [left; auto |].
      right. cbn [orb] in Hc. apply Z.ltb_lt in Hc. auto. }
    destruct (below_step i j H m Hij Hlow Hcase) as (Hl1 & Hm1 & Hr1 & Hc1).
    assert (Hinv' : hnf_inv S (col_sub H j i m) (col_sub B j i m)).
    { apply hnf_inv_col_sub; [| | | exact Hinv];
        destruct Hij as [[-> ->] | [[-> ->] | [-> ->]]]; lia. }
    destruct (IH (col_sub H j i m) (col_sub B j i m) Hinv' Hl1)
      as (H' & B' & -> & Hi & Hl & Hb & Hrows & Hcols); [lia |].
    exists H', B'. split; [reflexivity |]. split; [exact Hi |]. split; [exact Hl |].
    split; [exact Hb |]. split.
    + intros k Hk. rewrite Hrows, Hr1 by exact Hk. reflexivity.
    + intros c Hc3 Hcj. rewrite Hcols, Hc1 by assumption. reflexivity.
  - apply orb_false_iff in Hc. destruct Hc as [Hc1 Hc2].
    apply Z.leb_gt in Hc1. apply Z.ltb_ge in Hc2.
    exists H, B. split; [reflexivity |]. split; [exact Hinv |]. split; [exact Hlow |].
    split; [lia |]. split; reflexivity.
Qed.

Lemma hnf_below_mono (i j : nat) (n m : nat) (H B : ZM.mat) r :
  (n <= m)%nat -> hnf_below n i j H B = Ok r -> hnf_below m i j H B = Ok r.
Proof.
  revert n m r. apply (fuel_mono (fun n => hnf_below n i j H B)).
  intros n. revert H B. induction n as [|n IH]; intros H B r.
  - cbn [hnf_below]. destruct (_ || _); [discriminate | auto].
  - intros E. cbn [hnf_below] in E |- *.
    destruct (_ || _); [| exact E]. apply IH. exact E.
Qed.

(** ** The steps between the loops *)

Lemma hnf_col0_fix (S H B H2 B2 : ZM.mat) :
  hnf_inv S H B -> ZM.det H <> 0 ->
  (ZM.count_nonzero (to_list (row H 0)) <= 1)%nat ->
  (if mget H 0 0 =? 0 then swap_column H B 0 else (H, B)) = (H2, B2) ->
  hnf_inv S H2 B2 /\ mget H2 0 0 <> 0 /\ mget H2 0 1 = 0 /\ mget H2 0 2 = 0.
Proof.
  intros Hinv Hdet Hcount E.
  destruct (Z.eqb_spec (mget H 0 0) 0) as [E00 | N00].
  - unfold swap_column in E. injection E as <- <-.
    split; [apply hnf_inv_swap_cols; exact Hinv |].
    split_mat H. cbn in E00. subst.
    unfold ZM.count_nonzero in Hcount. cbn in Hcount, Hdet.
    cbn [row get vmap to_list skipn ZM.argmax ZM.argmax_from].
    revert Hcount. destruct (Z.eqb_spec z0 0), (Z.eqb_spec z1 0); cbn; intros Hcount;
      subst; try lia; repeat (case_cmp; cbn); lia.
  - injection E as <- <-. split; [exact Hinv |]. split; [exact N00 |].
    split_mat H. unfold ZM.count_nonzero in Hcount. cbn in *.
    revert Hcount.
    destruct (Z.eqb_spec z 0), (Z.eqb_spec z0 0), (Z.eqb_spec z1 0); cbn; lia.
Qed.

Lemma hnf_sign_fix (S H B H' B' : ZM.mat) (j : nat) :
  hnf_inv S H B ->
  (if mget H j j <? 0 then (col_neg H j, col_neg B j) else (H, B)) = (H', B') ->
  hnf_inv S H' B' /\ H' = (if mget H j j <? 0 then col_neg H j else H).
Proof.
  intros Hinv E. destruct (mget H j j <? 0); injection E as <- <-.
  - split; [apply hnf_inv_col_neg; exact Hinv | reflexivity].
  - split; [exact Hinv | reflexivity].
Qed.

Lemma count_nonzero_row0 (H : ZM.mat) :
  mget H 0 1 = 0 -> mget H 0 2 = 0 ->
  (1 <? ZM.count_nonzero (to_list (row H 0)))%nat = false.
Proof.
  intros E1 E2. split_mat H. cbn in E1, E2. subst. unfold ZM.count_nonzero. cbn.
  destruct (Z.eqb_spec z 0); reflexivity.
Qed.

Lemma count_nonzero_check1 (H : ZM.mat) :
  mget H 0 1 = 0 -> mget H 0 2 = 0 -> mget H 1 2 = 0 ->
  ZM.count_nonzero (check1 H) = 0%nat.
Proof. intros E1 E2 E3. unfold check1. rewrite E1, E2, E3. reflexivity. Qed.

Lemma det_lower (H : ZM.mat) :
  mget H 0 1 = 0 -> mget H 0 2 = 0 -> mget H 1 2 = 0 ->
  ZM.det H = mget H 0 0 * mget H 1 1 * mget H 2 2.
Proof. intros E1 E2 E3. split_mat H. cbn in *. subst. ring. Qed.

(** ** Correctness of [HermiteNormalForm] *)

Definition is_hnf (H : ZM.mat) : Prop :=
  mget H 0 1 = 0 /\ mget H 0 2 = 0 /\ mget H 1 2 = 0 /\
  0 < mget H 0 0 /\ 0 < mget H 1 1 /\ 0 < mget H 2 2 /\
  0 <= mget H 1 0 < mget H 1 1 /\
  0 <= mget H 2 0 < mget H 2 2 /\
  0 <= mget H 2 1 < mget H 2 2.

Lemma HermiteNormalForm_mono (S : ZM.mat) (n m : nat) r :
  (n <= m)%nat -> HermiteNormalForm n S = Ok r -> HermiteNormalForm m S = Ok r.
Proof.
  intros Hle. unfold HermiteNormalForm.
  destruct (ZM.det S =? 0); [discriminate |].
  destruct (hnf_row0 n S S ZM.identity) as [[H1 B1] | |] eqn:E1; try discriminate.
  rewrite (hnf_row0_mono _ _ _ _ _ _ Hle E1). cbn [mbind outcome_bind].
  destruct (if mget H1 0 0 =? 0 then _ else _) as [H2 B2].
  destruct (if mget H2 0 0 <? 0 then _ else _) as [H3 B3].
  destruct (1 <? _)%nat; [discriminate |].
  destruct (negb _); [discriminate |].
  destruct (hnf_h12 n S H3 B3) as [[H4 B4] | |] eqn:E4; try discriminate.
  rewrite (hnf_h12_mono _ _ _ _ _ _ Hle E4). cbn [mbind outcome_bind].
  destruct (if mget (if mget H4 1 1 =? 0 then _ else _) 1 1 <? 0 then _ else _) as [H5 B5].
  destruct (negb _); [discriminate |].
  destruct (negb _); [discriminate |].
  destruct (if mget H5 2 2 <? 0 then _ else _) as [H6 B6].
  destruct (negb _); [discriminate |].
  destruct (negb _); [discriminate |].
  destruct (hnf_below n 1 0 H6 B6) as [[H7 B7] | |] eqn:E7; try discriminate.
  rewrite (hnf_below_mono _ _ _ _ _ _ _ Hle E7). cbn [mbind outcome_bind].
  destruct (hnf_below n 2 0 H7 B7) as [[H8 B8] | |] eqn:E8; try discriminate.
  rewrite (hnf_below_mono _ _ _ _ _ _ _ Hle E8). cbn [mbind outcome_bind].
  destruct (hnf_below n 2 1 H8 B8) as [[H9 B9] | |] eqn:E9; try discriminate.
  rewrite (hnf_below_mono _ _ _ _ _ _ _ Hle E9). cbn [mbind outcome_bind].
  auto.
Qed.

(** Replace the conditional step that the equation [E] evaluates. *)
Ltac step_if E :=
  match type of E with
  | (if ?c then _ else _) = ?r =>
      match goal with
      | |- context [if c then ?a else ?b] =>
          replace (if c then a else b) with r by (symmetry; exact E)
      end
  end.

Lemma measure_fuel (z : Z) : z < Z.of_nat (Datatypes.S (Z.to_nat z)).
Proof. lia. Qed.

Lemma HermiteNormalForm_nonsingular (S : ZM.mat) :
  ZM.det S <> 0 ->
  exists n H B,
    HermiteNormalForm n S = Ok (H, B) /\ hnf_inv S H B /\ is_hnf H.
Proof.
  intros Hdet.
  (* first loop *)
  set (n1 := Datatypes.S (Z.to_nat (row_measure (row S 0)))).
  destruct (hnf_row0_spec n1 S S ZM.identity (hnf_inv_init S))
    as (H1 & B1 & E1 & I1 & C1).
  { apply measure_fuel. }
  pose proof (hnf_inv_det _ _ _ I1 Hdet) as D1.
  destruct (if mget H1 0 0 =? 0 then swap_column H1 B1 0 else (H1, B1))
    as [H2 B2] eqn:E2.
  destruct (hnf_col0_fix _ _ _ _ _ I1 D1 C1 E2) as (I2 & N2 & Z2a & Z2b).
  destruct (if mget H2 0 0 <? 0 then (col_neg H2 0, col_neg B2 0) else (H2, B2))
    as [H3 B3] eqn:E3.
  destruct (hnf_sign_fix _ _ _ _ _ _ I2 E3) as (I3 & EH3).
  assert (F3 : 0 < mget H3 0 0 /\ mget H3 0 1 = 0 /\ mget H3 0 2 = 0).
  { subst H3. split_mat H2. cbn in N2, Z2a, Z2b |- *. subst.
    destruct (Z.ltb_spec z 0); cbn; lia. }
  destruct F3 as (P3 & Z3a & Z3b).
  (* second loop *)
  set (n2 := Datatypes.S (Z.to_nat (Z.abs (mget H3 1 1) + Z.abs (mget H3 1 2)))).
  destruct (hnf_h12_spec n2 S H3 B3 I3 Z3a Z3b)
    as (H4 & B4 & E4 & I4 & E400 & Z4a & Z4b & Z4c); [apply measure_fuel |].
  pose proof (hnf_inv_det _ _ _ I4 Hdet) as D4.
  rewrite (det_lower _ Z4a Z4b Z4c) in D4.
  assert (N411 : mget H4 1 1 <> 0) by (intros E; rewrite E in D4; lia).
  assert (N422 : mget H4 2 2 <> 0) by (intros E; rewrite E in D4; lia).
  destruct (if mget H4 1 1 <? 0 then (col_neg H4 1, col_neg B4 1) else (H4, B4))
    as [H5 B5] eqn:E5.
  destruct (hnf_sign_fix _ _ _ _ _ _ I4 E5) as (I5 & EH5).
  assert (F5 : mget H5 0 1 = 0 /\ mget H5 0 2 = 0 /\ mget H5 1 2 = 0 /\
               0 < mget H5 0 0 /\ 0 < mget H5 1 1 /\ mget H5 2 2 <> 0).
  { subst H5. rewrite <- E400 in P3. split_mat H4.
    cbn in N411, N422, Z4a, Z4b, Z4c, P3 |- *. subst.
    destruct (Z.ltb_spec z3 0); cbn; lia. }
  destruct F5 as (Z5a & Z5b & Z5c & P500 & P511 & N522).
  destruct (if mget H5 2 2 <? 0 then (col_neg H5 2, col_neg B5 2) else (H5, B5))
    as [H6 B6] eqn:E6.
  destruct (hnf_sign_fix _ _ _ _ _ _ I5 E6) as (I6 & EH6).
  assert (L6 : lower_pos H6).
  { subst H6. unfold lower_pos. split_mat H5.
    cbn in Z5a, Z5b, Z5c, P500, P511, N522 |- *. subst.
    destruct (Z.ltb_spec z7 0); cbn; lia. }
  (* last part *)
  set (n3 := Datatypes.S (Z.to_nat (below_measure H6 1 0))).
  destruct (hnf_below_spec n3 1 0 S H6 B6) as (H7 & B7 & E7 & I7 & L7 & R7 & K7 & C7);
    [left; auto | exact I6 | exact L6 | apply measure_fuel |].
  set (n4 := Datatypes.S (Z.to_nat (below_measure H7 2 0))).
  destruct (hnf_below_spec n4 2 0 S H7 B7) as (H8 & B8 & E8 & I8 & L8 & R8 & K8 & C8);
    [right; left; auto | exact I7 | exact L7 | apply measure_fuel |].
  set (n5 := Datatypes.S (Z.to_nat (below_measure H8 2 1))).
  destruct (hnf_below_spec n5 2 1 S H8 B8) as (H9 & B9 & E9 & I9 & L9 & R9 & K9 & C9);
    [right; right; auto | exact I8 | exact L8 | apply measure_fuel |].
  assert (F9 : is_hnf H9).
  { destruct L9 as (? & ? & ? & ? & ? & ?).
    pose proof (K9 1%nat ltac:(lia)) as K91.
    pose proof (K8 1%nat ltac:(lia)) as K81.
    pose proof (C9 0%nat ltac:(lia) ltac:(lia)) as C90.
    pose proof (C9 2%nat ltac:(lia) ltac:(lia)) as C92.
    unfold is_hnf. repeat (split; [assumption |]).
    unfold mget in *. fold (row H9 1) (row H8 1) (row H7 1) (row H9 2) (row H8 2) in *.
    rewrite K91, K81. rewrite C90. split; [assumption |]. split; [| assumption].
    rewrite <- C92 in R8. rewrite K91, K81 in *. lia. }
  clearbody n1 n2 n3 n4 n5.
  set (n := (n1 + n2 + n3 + n4 + n5)%nat).
  assert (Hn : (n1 <= n /\ n2 <= n /\ n3 <= n /\ n4 <= n /\ n5 <= n)%nat)
    by (unfold n; clear; lia).
  destruct Hn as (Hn1 & Hn2 & Hn3 & Hn4 & Hn5).
  exists n, H9, B9. split; [| split; [exact I9 | exact F9]].
  unfold HermiteNormalForm.
  destruct (Z.eqb_spec (ZM.det S) 0) as [E | _]; [contradiction |].
  rewrite (hnf_row0_mono S n1 n _ _ _ Hn1 E1). cbn [mbind outcome_bind].
  step_if E2. step_if E3.
  rewrite (count_nonzero_row0 _ Z3a Z3b).
  rewrite (hnf_inv_allclose _ _ _ I3). cbn [negb].
  rewrite (hnf_h12_mono S n2 n _ _ _ Hn2 E4). cbn [mbind outcome_bind].
  destruct (Z.eqb_spec (mget H4 1 1) 0) as [E | _]; [contradiction |].
  step_if E5.
  destruct (Z.eqb_spec (mget H5 1 2) 0) as [_ | N]; [| contradiction]. cbn [negb].
  rewrite (hnf_inv_allclose _ _ _ I5). cbn [negb].
  step_if E6.
  destruct L6 as (Z6a & Z6b & Z6c & ? & ? & ?).
  rewrite (count_nonzero_check1 _ Z6a Z6b Z6c). cbn [Nat.eqb negb].
  rewrite (hnf_inv_allclose _ _ _ I6). cbn [negb].
  rewrite (hnf_below_mono 1 0 n3 n _ _ _ Hn3 E7). cbn [mbind outcome_bind].
  rewrite (hnf_below_mono 2 0 n4 n _ _ _ Hn4 E8). cbn [mbind outcome_bind].
  rewrite (hnf_below_mono 2 1 n5 n _ _ _ Hn5 E9). cbn [mbind outcome_bind].
  rewrite (hnf_inv_allclose _ _ _ I9). cbn [negb].
  destruct F9 as (Z9a & Z9b & Z9c & ? & ? & ? & ? & ? & ?).
  rewrite (count_nonzero_check1 _ Z9a Z9b Z9c). cbn [Nat.eqb negb].
  unfold check2. cbn [existsb].
  repeat match goal with
         | |- context [?a <? ?b] => destruct (Z.ltb_spec a b); [lia |]
         end.
  reflexivity.
Qed.



(** ** Rational vectors and matrices (numpy float arrays, exact) *)

Module QM.
Local Open Scope Q_scope.

Definition vec := vec3 Q.
Definition mat := mat3 Q.

Definition vadd (u v : vec) : vec :=
let '(a, b, c) := u in let '(x, y, z) := v in (a + x, b + y, c + z).
Definition vsub (u v : vec) : vec :=
let '(a, b, c) := u in let '(x, y, z) := v in (a - x, b - y, c - z).
Definition vscale (k : Q) (v : vec) : vec := vmap (Qmult k) v.
Definition dot (u v : vec) : Q :=
let '(a, b, c) := u in let '(x, y, z) := v in a * x + b * y + c * z.
Definition cross (u v : vec) : vec :=
let '(a, b, c) := u in let '(x, y, z) := v in
(b * z - c * y, c * x - a * z, a * y - b * x).

(** [np.dot(M, v)] and [np.dot(M, N)] *)
Definition mvmul (M : mat) (v : vec) : vec :=
let '(r0, r1, r2) := M in (dot r0 v, dot r1 v, dot r2 v).
Definition mmul (M N : mat) : mat :=
let '(r0, r1, r2) := M in
let row_times r := (dot r (col N 0), dot r (col N 1), dot r (col N 2)) in
(row_times r0, row_times r1, row_times r2).

Definition eye : mat := ((1, 0, 0), (0, 1, 0), (0, 0, 1)).

Definition det (M : mat) : Q :=
let '((a, b, c), (d, e, f), (g, h, i)) := M in
a * (e * i - f * h) - b * (d * i - f * g) + c * (d * h - e * g).

(** [numpy.linalg.inv]: the adjugate over the determinant; a singular
matrix raises [LinAlgError]. *)
Definition inv (M : mat) : outcome mat :=
let '((a, b, c), (d, e, f), (g, h, i)) := M in
let dt := det M in
if Qeq_bool dt 0 then Raise LinAlgError
else Ok (((e * i - f * h) / dt, (c * h - b * i) / dt, (b * f - c * e) / dt),
     ((f * g - d * i) / dt, (a * i - c * g) / dt, (c * d - a * f) / dt),
     ((d * h - e * g) / dt, (b * g - a * h) / dt, (a * e - b * d) / dt)).

Definition of_Z (v : ZM.vec) : vec := vmap inject_Z v.
Definition of_Zmat (M : ZM.mat) : mat := vmap of_Z M.

(** Entrywise equality of values *)
Definition veq (u v : vec) : Prop :=
let '(a, b, c) := u in let '(x, y, z) := v in a == x /\ b == y /\ c == z.

Definition Qlt_bool (x y : Q) : bool := negb (Qle_bool y x).

(** [np.round(x)]: to the nearest integer, halves to the even one. *)
Definition rint (x : Q) : Z :=
let f := Qfloor x in
let d := x - inject_Z f in
if Qlt_bool d (1 # 2) then f
else if Qlt_bool (1 # 2) d then (f + 1)%Z
else if Z.even f then f else (f + 1)%Z.

(** [np.round(x, decimals)] *)
Definition round_dec (x : Q) (decimals : Z) : Q :=
inject_Z (rint (x * Qpower 10 decimals)) / Qpower 10 decimals.

(** [x.astype(int)]: truncation toward zero. *)
Definition trunc (x : Q) : Z :=
if Qle_bool 0 x then Qfloor x else Qceiling x.

(** [x % 1] *)
Definition mod1 (x : Q) : Q := x - inject_Z (Qfloor x).

(** [np.isclose(a, b, rtol, atol)]: [|a - b| <= atol + rtol*|b|] *)
Definition isclose (a b rtol atol : Q) : bool :=
Qle_bool (Qabs (a - b)) (atol + rtol * Qabs b).

(** [np.allclose] on 3-element and on 3x3 arrays *)
Definition allclose (u v : vec) (rtol atol : Q) : bool :=
let '(a, b, c) := u in let '(x, y, z) := v in
isclose a x rtol atol && isclose b y rtol atol && isclose c z rtol atol.
Definition mallclose (M N : mat) (rtol atol : Q) : bool :=
let '(a, b, c) := M in let '(x, y, z) := N in
allclose a x rtol atol && allclose b y rtol atol && allclose c z rtol atol.

(** [np.sqrt]: exact on the squares of rationals, rounded down to
[2^-53] of the denominator's unit elsewhere; fractions are kept in
lowest terms. *)
Definition sqrt (x : Q) : Q :=
let x := Qred x in
let n := Qnum x in let d := Zpos (Qden x) in
Qred (Z.sqrt (n * d * 4 ^ 53) # (Qden x * 2 ^ 53)).

(** [numpy.linalg.norm] of a vector *)
Definition norm (v : vec) : Q := sqrt (dot v v).

(** numpy's default tolerances *)
Definition rtol_default : Q := 1 # 100000.
Definition atol_default : Q := 1 # 100000000.
End QM.

(** ** Folding points into the unit cell ([bring_into_cell]) *)

(** What [bring_into_cell] does to one lattice coordinate. *)
Definition fold_coord (rtol atol : Q) (centered : bool) (x : Q) : Q :=
  let x := QM.mod1 x in
  (* special care for points near 1 *)
  let x := if QM.isclose x 1 rtol atol then 0%Q else x in
  if centered then
    let x := if QM.Qlt_bool (1 # 2) x then (x - 1)%Q else x in
    if QM.isclose x (1 # 2) rtol atol then (- (1 # 2))%Q else x
  else x.

Definition bring_into_cell (points : QM.vec) (rlat_vecs : QM.mat)
    (rtol atol : Q) (coords : string) (centered : bool) : outcome QM.vec :=
  inv_rlat ← QM.inv rlat_vecs;
  let lat_points := vmap (fold_coord rtol atol centered) (QM.mvmul inv_rlat points) in
  if String.eqb coords "Cart" then Ok (QM.mvmul rlat_vecs lat_points)
  else if String.eqb coords "lat" then Ok lat_points
  else Raise (ValueError "Coordinate options include 'Cart' and 'lat'.").


(** ** The k-point index ([find_kpt_index]) *)

(** [a % d] on numpy integers: the sign of the divisor, and 0 for [d = 0]. *)
Definition np_mod (a d : Z) : Z := if (d =? 0)%Z then 0%Z else (a mod d)%Z.

Definition find_kpt_index (kpt : QM.vec) (invK : QM.mat) (L : ZM.mat) (D : ZM.vec)
    (eps : Z) : Z :=
  (* the k-point in grid coordinates *)
  let gpt := vmap (fun x => QM.round_dec x eps) (QM.mvmul invK kpt) in
  let '(g0, g1, g2) := vmap QM.trunc (QM.mvmul (QM.of_Zmat L) gpt) in
  let gpt := (np_mod g0 (get D 0), np_mod g1 (get D 1), np_mod g2 (get D 2)) in
  (get gpt 0 * get D 1 * get D 2 + get gpt 1 * get D 2 + get gpt 2)%Z.

(** ** Point-group search ([search_sphere], [get_point_group]) *)

(** [range(lo, hi)] *)
Definition range (lo hi : Z) : list Z :=
  List.map (fun i => (lo + Z.of_nat i)%Z) (seq 0 (Z.to_nat (hi - lo))).

(** [int(np.ceil(a/b + eps))]: a zero [b] makes the quotient inf or nan,
    which [int] refuses. *)
Definition int_ceil_quot (a b eps : Q) : outcome Z :=
  if Qeq_bool b 0 then
    (if Qeq_bool a 0 then Raise (ValueError "cannot convert float NaN to integer")
     else Raise OverflowError)
  else Ok (Qceiling (a / b + eps)).

Definition Qmax (x y : Q) : Q := if Qle_bool x y then y else x.

Definition search_sphere (lat_vecs : QM.mat) (eps : Q) : outcome (list QM.vec) :=
  let a0 := col lat_vecs 0 in
  let a1 := col lat_vecs 1 in
  let a2 := col lat_vecs 2 in
  (* orthogonalize the lattice vectors *)
  let a0_hat := QM.vscale (/ QM.norm a0) a0 in
  let a1p := QM.vsub a1 (QM.vscale (QM.dot a1 a0_hat) a0_hat) in
  let a1p_hat := QM.vscale (/ QM.norm a1p) a1p in
  let a2p := QM.vsub (QM.vsub a2 (QM.vscale (QM.dot a2 a1p_hat) a1p_hat))
                     (QM.vscale (QM.dot a2 a0_hat) a0_hat) in
  let max_norm := Qmax (Qmax (QM.norm a0) (QM.norm a1)) (QM.norm a2) in
  m0 ← int_ceil_quot max_norm (QM.norm a0) eps;
  m1 ← int_ceil_quot max_norm (QM.norm a1p) eps;
  m2 ← int_ceil_quot max_norm (QM.norm a2p) eps;
  let ijk :=
    i ← range (- m0) (m0 + 1);
    j ← range (- m1) (m1 + 1);
    k ← range (- m2) (m2 + 1);
    [(i, j, k)] in
  Ok (omap (fun n =>
              let pt := QM.mvmul lat_vecs (QM.of_Z n) in
              if QM.Qlt_bool (QM.dot pt pt - eps) (max_norm * max_norm)
              then Some pt else None) ijk).

(** [itertools.permutations(pts, 3)]: the ordered triples of entries at
    three different positions, in the order of the positions. *)
Definition permutations3 {A : Type} (pts : list A) : list (A * A * A) :=
  let ipts := combine (seq 0 (List.length pts)) pts in
  p1 ← ipts;
  p2 ← ipts;
  p3 ← ipts;
  if (negb (fst p1 =? fst p2) && negb (fst p1 =? fst p3) && negb (fst p2 =? fst p3))%nat
  then [(snd p1, snd p2, snd p3)] else [].

(** Modelled from the spec: [check_contained] of [BZI.utilities], which is
    not among the sources; the spec has the accepted operators
    deduplicated within the tolerances, so a list of arrays is contained
    in another when each of its arrays is close to one of the other's. *)
Definition check_contained (pts pt_list : list QM.mat) (rtol atol : Q) : bool :=
  forallb (fun p => existsb (fun q => QM.mallclose p q rtol atol) pt_list) pts.

(** The test one triple of sphere points goes through in [get_point_group];
    [Some op] when its operator is accepted (before deduplication). *)
Definition point_group_candidate (lat_vecs inv_lat_vecs : QM.mat) (rtol atol : Q)
    (p : QM.vec * QM.vec * QM.vec) : option QM.mat :=
  let '(p1, p2, p3) := p in
  let a1 := col lat_vecs 0 in
  let a2 := col lat_vecs 1 in
  let a3 := col lat_vecs 2 in
  if QM.isclose (QM.dot p1 p1) (QM.dot a1 a1) rtol atol
     && QM.isclose (QM.dot p2 p2) (QM.dot a2 a2) rtol atol
     && QM.isclose (QM.dot p3 p3) (QM.dot a3 a3) rtol atol then
    let new_lat_vecs := transpose (p1, p2, p3) in
    if QM.isclose (Qabs (QM.det new_lat_vecs)) (Qabs (QM.det lat_vecs)) rtol atol then
      let op := QM.mmul new_lat_vecs inv_lat_vecs in
      if QM.mallclose QM.eye (QM.mmul op (transpose op)) rtol atol then Some op
      else None
    else None
  else None.

Definition get_point_group (lat_vecs : QM.mat) (rtol atol eps : Q)
    : outcome (list QM.mat) :=
  pts ← search_sphere lat_vecs eps;
  inv_lat_vecs ← QM.inv lat_vecs;
  Ok (fold_left
        (fun point_group p =>
           match point_group_candidate lat_vecs inv_lat_vecs rtol atol p with
           | Some op =>
               if negb (check_contained [op] point_group rtol atol)
               then point_group ++ [op] else point_group
           | None => point_group
           end)
        (permutations3 pts) []).

(** ** Space-group search ([get_space_group]) *)

Section SpaceGroup.
Context {label : Type} `{EqDecision label}.

(** Modelled from the spec: [check_atom_equivalency] rests on
[find_point_indices] and [check_contained] of [BZI.utilities], which
are not among the sources; by the spec two atoms are equivalent when
they have the same label and their positions are equal within
tolerance (the defaults of numpy, since the call passes none). *)
Definition check_atom_equivalency (atom_label_i : label) (atom_position_i : QM.vec)
(atom_labels : list label) (atom_positions : list QM.vec) : bool :=
existsb (fun a =>
       bool_decide (fst a = atom_label_i)
       && QM.allclose atom_position_i (snd a) QM.rtol_default QM.atol_default)
    (combine atom_labels atom_positions).

(** The innermost loop of [get_space_group]: the value of [equivalent]
when the loop over the atoms ends, by exhaustion or by [break]. *)
Fixpoint maps_all_atoms (lpg : QM.mat) (frac_trans : QM.vec)
(lattice_vectors : QM.mat) (rtol atol : Q)
(atom_labels : list label) (atomic_basis : list QM.vec)
(atoms : list (label * QM.vec)) (equivalent : bool) : outcome bool :=
match atoms with
| [] => Ok equivalent
| (atom_type_j, atom_pos_j) :: atoms' =>
rot_atom_pos_j ←
  bring_into_cell (QM.vadd (QM.mvmul lpg atom_pos_j) frac_trans)
                  lattice_vectors rtol atol "Cart" false;
let equivalent :=
  check_atom_equivalency atom_type_j rot_atom_pos_j atom_labels atomic_basis in
if negb equivalent then Ok equivalent
else maps_all_atoms lpg frac_trans lattice_vectors rtol atol
                    atom_labels atomic_basis atoms' equivalent
end.

(** The loop over the atoms [i] for one operator [lpg]. The flag
[equivalent] is only read after the inner loop has set it. *)
Fixpoint space_group_atoms (lpg : QM.mat) (first_atom_type : label)
(rot_first_atom_pos : QM.vec) (lattice_vectors : QM.mat) (rtol atol : Q)
(atom_labels : list label) (atomic_basis : list QM.vec)
(atoms : list (label * QM.vec))
(st : list QM.mat * list QM.vec) : outcome (list QM.mat * list QM.vec) :=
match atoms with
| [] => Ok st
| (atom_type_i, atom_pos_i) :: atoms' =>
if negb (bool_decide (first_atom_type = atom_type_i)) then
  space_group_atoms lpg first_atom_type rot_first_atom_pos lattice_vectors
    rtol atol atom_labels atomic_basis atoms' st
else
  frac_trans ←
    bring_into_cell (QM.vsub atom_pos_i rot_first_atom_pos)
                    lattice_vectors rtol atol "Cart" false;
  equivalent ←
    maps_all_atoms lpg frac_trans lattice_vectors rtol atol
      atom_labels atomic_basis (combine atom_labels atomic_basis) false;
  let st :=
    if (equivalent : bool) then (fst st ++ [lpg], snd st ++ [frac_trans])
    else st in
  space_group_atoms lpg first_atom_type rot_first_atom_pos lattice_vectors
    rtol atol atom_labels atomic_basis atoms' st
end.

(** The outer loop over the operators of the lattice point group. *)
Fixpoint space_group_ops (lattice_pointgroup : list QM.mat)
(first_atom_type : label) (first_atom_pos : QM.vec)
(lattice_vectors : QM.mat) (rtol atol : Q)
(atom_labels : list label) (atomic_basis : list QM.vec)
(st : list QM.mat * list QM.vec) : outcome (list QM.mat * list QM.vec) :=
match lattice_pointgroup with
| [] => Ok st
| lpg :: rest =>
let rot_first_atom_pos := QM.mvmul lpg first_atom_pos in
st ← space_group_atoms lpg first_atom_type rot_first_atom_pos lattice_vectors
       rtol atol atom_labels atomic_basis (combine atom_labels atomic_basis) st;
space_group_ops rest first_atom_type first_atom_pos lattice_vectors
  rtol atol atom_labels atomic_basis st
end.

Definition get_space_group (lattice_vectors : QM.mat) (atom_labels : list label)
(atom_positions : list QM.vec) (coords : string) (rtol atol eps : Q)
: outcome (list QM.mat * list QM.vec) :=
let atomic_basis := atom_positions in
(* atomic positions in Cartesian coordinates *)
let atomic_basis :=
if String.eqb coords "lat" then List.map (QM.mvmul lattice_vectors) atomic_basis
else atomic_basis in
atomic_basis ←
mapM (fun ab => bring_into_cell ab lattice_vectors rtol atol "Cart" false)
   atomic_basis;
lattice_pointgroup ← get_point_group lattice_vectors rtol atol eps;
match atom_labels, atomic_basis with
| first_atom_type :: _, first_atom_pos :: _ =>
space_group_ops lattice_pointgroup first_atom_type first_atom_pos
  lattice_vectors rtol atol atom_labels atomic_basis ([], [])
| _, _ => Raise IndexError
end.
End SpaceGroup.

(** ** Commensurate lattices ([check_commensurate]) *)

(** [Some N] is the source's [(True, N)] with [N] rounded to integers;
    [None] is [(False, N)], whose float [N] no caller reads. *)
Definition check_commensurate (lattice sublattice : QM.mat) (rtol atol : Q)
    : outcome (option ZM.mat) :=
  inv_lattice ← QM.inv lattice;
  let N := QM.mmul inv_lattice sublattice in
  let roundN := vmap (vmap (fun x => inject_Z (QM.rint x))) N in
  if QM.mallclose N roundN rtol atol then Ok (Some (vmap (vmap QM.rint) N))
  else Ok None.

(** ** Python dictionaries that are read back in insertion order *)

Definition dict (V : Type) : Type := list (nat * V).

Fixpoint dict_set {V : Type} (d : dict V) (k : nat) (v : V) : dict V :=
  match d with
  | [] => [(k, v)]
  | (k', v') :: d' =>
      if (k =? k')%nat then (k, v) :: d' else (k', v') :: dict_set d' k v
  end.

Fixpoint dict_get {V : Type} (d : dict V) (k : nat) : outcome V :=
  match d with
  | [] => Raise KeyError
  | (k', v') :: d' => if (k =? k')%nat then Ok v' else dict_get d' k
  end.

Definition dict_values {V : Type} (d : dict V) : list V := List.map snd d.

(** [dict.fromkeys(range(nUR))] *)
Definition fromkeys (nUR : nat) : gmap Z (option nat) :=
  list_to_map (List.map (fun i => (Z.of_nat i, None)) (seq 0 nUR)).

(** [hashtable[idx]] *)
Definition hash_get (hashtable : gmap Z (option nat)) (idx : Z) : outcome (option nat) :=
  match hashtable !! idx with
  | Some v => Ok v
  | None => Raise KeyError
  end.

(** [kpoint_list[i]] *)
Definition list_get {A : Type} (l : list A) (i : nat) : outcome A :=
  match l !! i with
  | Some a => Ok a
  | None => Raise IndexError
  end.

Definition diag (S : ZM.mat) : ZM.vec := (mget S 0 0, mget S 1 1, mget S 2 2).

(** The state of the reduction loops *)
Record orbits : Type := Orbits {
  cOrbit : nat;
  hashtable : gmap Z (option nat);
  iFirst : dict nat;
  iWt : dict nat
}.

(** [for x in xs: st = body(x, st)] with exceptions *)
Fixpoint for_each {A St : Type} (xs : list A) (body : A -> St -> outcome St)
    (st : St) : outcome St :=
  match xs with
  | [] => Ok st
  | x :: xs' => st ← body x st; for_each xs' body st
  end.

(** [not np.allclose(np.dot(invK, p - shift), np.round(np.dot(invK, p - shift)))] *)
Definition off_grid (invK : QM.mat) (p shift : QM.vec) (rtol atol : Q) : bool :=
  let g := QM.mvmul invK (QM.vsub p shift) in
  negb (QM.allclose g (vmap (fun x => inject_Z (QM.rint x)) g) rtol atol).

(** [if hashtable[idx] == None: hashtable[idx] = cOrbit; iWt[cOrbit] += 1] *)
Definition mark_member (idx : Z) (st : orbits) : outcome orbits :=
  h ← hash_get (hashtable st) idx;
  match h with
  | None =>
      w ← dict_get (iWt st) (cOrbit st);
      Ok (Orbits (cOrbit st) (<[idx := Some (cOrbit st)]> (hashtable st))
                 (iFirst st) (dict_set (iWt st) (cOrbit st) (w + 1)%nat))
  | Some _ => Ok st
  end.

(** [cOrbit += 1; hashtable[idx] = cOrbit; iFirst[cOrbit] = i; iWt[cOrbit] = 1] *)
Definition open_orbit (idx : Z) (i : nat) (st : orbits) : orbits :=
  let c := Datatypes.S (cOrbit st) in
  Orbits c (<[idx := Some c]> (hashtable st)) (dict_set (iFirst st) c i)
         (dict_set (iWt st) c 1%nat).

(** [try: inv(M) except LinAlgError: raise ValueError(msg)] *)
Definition try_inv (M : QM.mat) (msg : string) : outcome unit :=
  match QM.inv M with
  | Raise LinAlgError => Raise (ValueError msg)
  | _ => Ok tt
  end.

Section GridReduction.
(** [SmithNormalForm] of phenum and [find_point_group], which wraps
phenum's [get_lattice_pointGroup], are libraries outside the
repository: they are parameters here. *)
Variable SmithNormalForm : ZM.mat -> ZM.mat * ZM.mat * ZM.mat.
Variable find_point_group : QM.mat -> list QM.mat.

(** *** [reduce_kpoint_list] *)

(** The body of the loop over the point-group operators. *)
Definition reduce_rotate (ur_kpt : QM.vec) (lattice_vectors invK : QM.mat)
(shift : QM.vec) (L : ZM.mat) (D : ZM.vec) (eps : Z)
(pg : QM.mat) (st : orbits) : outcome orbits :=
(* rotate the k-point and bring it back into the first unit cell *)
let rot_kpt := QM.mvmul pg ur_kpt in
rot_kpt ← bring_into_cell rot_kpt lattice_vectors
        QM.rtol_default QM.atol_default "Cart" false;
if off_grid invK rot_kpt shift QM.rtol_default QM.atol_default then Ok st
else
let idx := find_kpt_index (QM.vsub rot_kpt shift) invK L D eps in
mark_member idx st.

(** The body of the loop over the unreduced k-points. *)
Definition reduce_visit (kpoint_list : list QM.vec) (lattice_vectors invK : QM.mat)
(shift : QM.vec) (L : ZM.mat) (D : ZM.vec) (eps : Z)
(pointgroup : list QM.mat) (i : nat) (st : orbits) : outcome orbits :=
ur_kpt ← list_get kpoint_list i;
let idx := find_kpt_index (QM.vsub ur_kpt shift) invK L D eps in
h ← hash_get (hashtable st) idx;
match h with
| Some _ => Ok st
| None =>
for_each pointgroup
  (reduce_rotate ur_kpt lattice_vectors invK shift L D eps)
  (open_orbit idx i st)
end.

Definition reduce_kpoint_list (fuel : nat) (kpoint_list : list QM.vec)
(lattice_vectors grid_vectors : QM.mat) (shift : QM.vec)
(eps : Z) (rtol atol : Q) : outcome (list QM.vec * list nat) :=
_ ← try_inv lattice_vectors "The lattice generating vectors are linearly dependent.";
_ ← try_inv grid_vectors "The grid generating vectors are linearly dependent.";
if QM.Qlt_bool (Qabs (QM.det lattice_vectors)) (Qabs (QM.det grid_vectors)) then
Raise (ValueError "The k-point generating vectors define a grid with a unit cell larger than the reciprocal lattice unit cell.")
else
(* the shift in Cartesian coordinates *)
let shift := QM.mvmul grid_vectors shift in
check ← check_commensurate grid_vectors lattice_vectors rtol atol;
match check with
| None => Raise (ValueError "The lattice and grid vectors are incommensurate.")
| Some N =>
'(H, B) ← HermiteNormalForm fuel N;
let '(S', L, R) := SmithNormalForm H in
let D := diag S' in
let pointgroup := find_point_group lattice_vectors in
let nUR := List.length kpoint_list in
invK ← QM.inv grid_vectors;
st ← for_each (seq 0 nUR)
       (reduce_visit kpoint_list lattice_vectors invK shift L D eps pointgroup)
       (Orbits 0 (fromkeys nUR) [] []);
let kpoint_weights := dict_values (iWt st) in
'(sum, reduced_kpoints) ←
  for_each (seq 0 (cOrbit st))
    (fun i acc =>
       w ← list_get kpoint_weights i;
       first ← dict_get (iFirst st) (i + 1);
       k ← list_get kpoint_list first;
       Ok ((fst acc + w)%nat, snd acc ++ [k]))
    (0%nat, []);
if negb (sum =? nUR)%nat then
  Raise (ValueError "There are more or less k-points after the symmetry reduction.")
else Ok (reduced_kpoints, kpoint_weights)
end.
End GridReduction.

(** ** The orbit finder ([find_orbits]) *)

(** What [find_orbits] returns: the reduced k-points, or with
    [full_orbit] the k-points of every orbit. *)
Inductive reduction : Type :=
| ReducedKpoints (reduced_kpoints : list QM.vec)
| OrbitList (orbit_list : list (list QM.vec)).

(** [max(l)] *)
Definition list_max_outcome (l : list nat) : outcome nat :=
  match l with
  | [] => Raise (ValueError "max() arg is an empty sequence")
  | x :: l' => Ok (fold_left Nat.max l' x)
  end.

Section OrbitFinder.
Variable SmithNormalForm : ZM.mat -> ZM.mat * ZM.mat * ZM.mat.
Context {label : Type} `{EqDecision label}.

(** The body of the loop over the operators: [pg] runs over the first
list that [get_space_group] returns. *)
Definition orbit_rotate (ur_kpt : QM.vec) (rlattice_vectors invK : QM.mat)
(shift : QM.vec) (L : ZM.mat) (D : ZM.vec) (rounding_eps : Z) (rtol : Q)
(pg : QM.mat) (st : orbits) : outcome orbits :=
(* rotate the k-point and bring it back into the first unit cell *)
let rot_kpt := QM.mvmul pg ur_kpt in
rot_kpt ← bring_into_cell rot_kpt rlattice_vectors
        QM.rtol_default QM.atol_default "Cart" false;
(* verify that this point is part of the grid; if not, discard it *)
if off_grid invK rot_kpt shift rtol QM.atol_default then Ok st
else
let kpt_hash := find_kpt_index (QM.vsub rot_kpt shift) invK L D rounding_eps in
mark_member kpt_hash st.

(** The body of the loop over the unreduced k-points; the second
component of the state is [kpt_index_conv]. *)
Definition orbit_visit (kpoint_list : list QM.vec) (rlattice_vectors invK : QM.mat)
(shift : QM.vec) (L : ZM.mat) (D : ZM.vec) (rounding_eps : Z) (rtol : Q)
(pointgroup : list QM.mat) (i : nat) (st : orbits * gmap Z nat)
: outcome (orbits * gmap Z nat) :=
let '(st, kpt_index_conv) := st in
ur_kpt ← list_get kpoint_list i;
let kpt_hash := find_kpt_index (QM.vsub ur_kpt shift) invK L D rounding_eps in
let kpt_index_conv := <[kpt_hash := i]> kpt_index_conv in
h ← hash_get (hashtable st) kpt_hash;
match h with
| Some _ => Ok (st, kpt_index_conv)
| None =>
st ← for_each pointgroup
       (orbit_rotate ur_kpt rlattice_vectors invK shift L D rounding_eps rtol)
       (open_orbit kpt_hash i st);
Ok (st, kpt_index_conv)
end.

(** The [full_orbit] branch. *)
Definition full_orbits (kpoint_list : list QM.vec) (rlattice_vectors : QM.mat)
(kpt_coords : string) (nUR : nat) (st : orbits) (kpt_index_conv : gmap Z nat)
: outcome (list (list QM.vec)) :=
(* the entries of hashtable that are set, in the order of its keys *)
let items :=
omap (fun k => match hashtable st !! k with
             | Some (Some v) => if (v =? 0)%nat then None else Some (k, v)
             | _ => None
             end)
   (List.map Z.of_nat (seq 0 nUR)) in
n ← list_max_outcome (List.map snd items);
let orbit_list :=
List.map (fun c => List.map fst (List.filter (fun kv => (snd kv =? c)%nat) items))
       (seq 1 n) in
mapM (fun orbit =>
    mapM (fun kpt_index =>
            match kpt_index_conv !! kpt_index with
            | None => Raise KeyError
            | Some i =>
                kpt ← list_get kpoint_list i;
                if String.eqb kpt_coords "lat" then
                  inv_rlat ← QM.inv rlattice_vectors;
                  Ok (QM.mvmul inv_rlat kpt)
                else Ok kpt
            end) orbit)
 orbit_list.

Definition find_orbits (fuel : nat) (kpoint_list : list QM.vec)
(lattice_vectors rlattice_vectors grid_vectors : QM.mat) (shift : QM.vec)
(atom_labels : list label) (atom_positions : list QM.vec)
(full_orbit : bool) (kpt_coords atom_coords : string)
(eps : Q) (rounding_eps : Z) (rtol atol : Q) : outcome (reduction * list nat) :=
_ ← try_inv lattice_vectors "The lattice generating vectors are linearly dependent.";
_ ← try_inv rlattice_vectors
  "The reciprocal lattice generating vectors are linearly dependent.";
_ ← try_inv grid_vectors "The grid generating vectors are linearly dependent.";
if QM.Qlt_bool (Qabs (QM.det rlattice_vectors + atol)) (Qabs (QM.det grid_vectors)) then
Raise (ValueError "The k-point generating vectors define a grid with a unit cell larger than the reciprocal lattice unit cell.")
else
(* the shift in Cartesian coordinates *)
let shift := QM.mvmul grid_vectors shift in
check ← check_commensurate grid_vectors rlattice_vectors rtol atol;
match check with
| None => Raise (ValueError "The lattice and grid vectors are incommensurate.")
| Some N =>
'(H, B) ← HermiteNormalForm fuel N;
let '(S', L, R) := SmithNormalForm H in
let D := diag S' in
'(pointgroup, translations) ←
  get_space_group lattice_vectors atom_labels atom_positions atom_coords
                  rtol atol eps;
let nUR := List.length kpoint_list in
invK ← QM.inv grid_vectors;
'(st, kpt_index_conv) ←
  for_each (seq 0 nUR)
    (orbit_visit kpoint_list rlattice_vectors invK shift L D rounding_eps rtol
                 pointgroup)
    (Orbits 0 (fromkeys nUR) [] [], ∅);
reduced_kpoints ← mapM (list_get kpoint_list) (dict_values (iFirst st));
let orbit_weights := dict_values (iWt st) in
if full_orbit then
  orbit_list ← full_orbits kpoint_list rlattice_vectors kpt_coords nUR st
                 kpt_index_conv;
  Ok (OrbitList orbit_list, orbit_weights)
else if String.eqb kpt_coords "lat" then
  match reduced_kpoints with
  | [] => Raise (ValueError "shapes (3,3) and (0,) not aligned")
  | _ =>
      inv_rlat ← QM.inv rlattice_vectors;
      Ok (ReducedKpoints (List.map (QM.mvmul inv_rlat) reduced_kpoints),
          orbit_weights)
  end
else Ok (ReducedKpoints reduced_kpoints, orbit_weights)
end.
End OrbitFinder.

(** ** [get_space_group]: operators and translations are paired *)

Section SpaceGroupFacts.
Context {label : Type} `{EqDecision label}.

(** The pair [(op, t)] sends the atom [a] onto an atom of the same
label: rotate, translate, fold into the cell, compare. *)
Definition maps_atom (lattice_vectors : QM.mat) (rtol atol : Q)
(atom_labels : list label) (atomic_basis : list QM.vec)
(op : QM.mat) (t : QM.vec) (a : label * QM.vec) : Prop :=
exists pos',
bring_into_cell (QM.vadd (QM.mvmul op (snd a)) t) lattice_vectors rtol atol
              "Cart" false = Ok pos' /\
check_atom_equivalency (fst a) pos' atom_labels atomic_basis = true.

(** What holds of every pair collected so far. *)
Definition paired (lattice_pointgroup : list QM.mat) (lattice_vectors : QM.mat)
(rtol atol : Q) (atom_labels : list label) (atomic_basis : list QM.vec)
(st : list QM.mat * list QM.vec) : Prop :=
Forall2 (fun op t =>
       op ∈ lattice_pointgroup /\
       forall a, a ∈ combine atom_labels atomic_basis ->
                 maps_atom lattice_vectors rtol atol atom_labels atomic_basis op t a)
    (fst st) (snd st).

Lemma maps_all_atoms_true lpg frac_trans lattice_vectors rtol atol
atom_labels atomic_basis atoms equivalent :
maps_all_atoms lpg frac_trans lattice_vectors rtol atol atom_labels atomic_basis
           atoms equivalent = Ok true ->
(equivalent = true \/ atoms <> []) /\
forall a, a ∈ atoms ->
      maps_atom lattice_vectors rtol atol atom_labels atomic_basis lpg frac_trans a.
Proof.
revert equivalent. induction atoms as [| [ty pos] atoms IH]; intros equivalent E.
- cbn in E. injection E as ->. split; [left; reflexivity |].
intros a Ha. inversion Ha.
- cbn [maps_all_atoms] in E.
destruct (bring_into_cell _ _ _ _ _ _) as [pos' | |] eqn:Eb; try discriminate.
cbn [mbind outcome_bind] in E.
destruct (check_atom_equivalency ty pos' atom_labels atomic_basis) eqn:Ec;
cbn [negb] in E; [| discriminate].
apply IH in E. destruct E as [_ Hall].
split; [right; discriminate |].
intros a Ha. apply elem_of_cons in Ha. destruct Ha as [-> | Ha]; [| auto].
exists pos'. split; assumption.
Qed.

Lemma space_group_atoms_paired lpgs lpg first_atom_type rot_first_atom_pos
lattice_vectors rtol atol atom_labels atomic_basis atoms st st' :
lpg ∈ lpgs ->
paired lpgs lattice_vectors rtol atol atom_labels atomic_basis st ->
space_group_atoms lpg first_atom_type rot_first_atom_pos lattice_vectors rtol atol
              atom_labels atomic_basis atoms st = Ok st' ->
paired lpgs lattice_vectors rtol atol atom_labels atomic_basis st'.
Proof.
intros Hin. revert st. induction atoms as [| [ty pos] atoms IH]; intros st Hst E.
- cbn in E. injection E as <-. exact Hst.
- cbn [space_group_atoms] in E.
destruct (negb (bool_decide (first_atom_type = ty))); [eauto |].
destruct (bring_into_cell _ _ _ _ _ _) as [frac_trans | |]; try discriminate.
cbn [mbind outcome_bind] in E.
destruct (maps_all_atoms _ _ _ _ _ _ _ _ _) as [[|] | |] eqn:Em; try discriminate;
cbn [mbind outcome_bind] in E; [| eauto].
apply IH in E; [exact E |].
apply maps_all_atoms_true in Em. destruct Em as [_ Hall].
unfold paired in *. cbn [fst snd].
apply Forall2_app; [exact Hst |].
constructor; [| constructor]. split; assumption.
Qed.

Lemma space_group_ops_paired lpgs ops first_atom_type first_atom_pos
lattice_vectors rtol atol atom_labels atomic_basis st st' :
(forall lpg, lpg ∈ ops -> lpg ∈ lpgs) ->
paired lpgs lattice_vectors rtol atol atom_labels atomic_basis st ->
space_group_ops ops first_atom_type first_atom_pos lattice_vectors rtol atol
            atom_labels atomic_basis st = Ok st' ->
paired lpgs lattice_vectors rtol atol atom_labels atomic_basis st'.
Proof.
revert st. induction ops as [| lpg ops IH]; intros st Hsub Hst E.
- cbn in E. injection E as <-. exact Hst.
- cbn [space_group_ops] in E.
destruct (space_group_atoms _ _ _ _ _ _ _ _ _ _) as [st1 | |] eqn:Ea;
try discriminate.
cbn [mbind outcome_bind] in E.
apply IH in E; [exact E | |].
+ intros x Hx. apply Hsub. apply elem_of_cons. right. exact Hx.
+ eapply space_group_atoms_paired; [| exact Hst | exact Ea].
apply Hsub. apply elem_of_cons. left. reflexivity.
Qed.
End SpaceGroupFacts.

(** C10. [get_space_group] returns two lists of equal length; the i-th
    translation is the one appended with the i-th operator, which happens
    only when the pair sends every atom onto an atom of the same label;
    and every returned operator is one of [get_point_group] on the same
    lattice vectors. *)
Theorem get_space_group_paired {label : Type} `{EqDecision label}
    (lattice_vectors : QM.mat) (atom_labels : list label)
    (atom_positions : list QM.vec) (coords : string) (rtol atol eps : Q)
    (point_group : list QM.mat) (translations : list QM.vec) :
  get_space_group lattice_vectors atom_labels atom_positions coords rtol atol eps
  = Ok (point_group, translations) ->
  List.length point_group = List.length translations /\
  exists lattice_pointgroup atomic_basis,
    get_point_group lattice_vectors rtol atol eps = Ok lattice_pointgroup /\
    mapM (fun ab => bring_into_cell ab lattice_vectors rtol atol "Cart" false)
         (if String.eqb coords "lat"
          then List.map (QM.mvmul lattice_vectors) atom_positions
          else atom_positions) = Ok atomic_basis /\
    forall i op t,
      point_group !! i = Some op -> translations !! i = Some t ->
      op ∈ lattice_pointgroup /\
      forall a, a ∈ combine atom_labels atomic_basis ->
                maps_atom lattice_vectors rtol atol atom_labels atomic_basis op t a.
Proof.
  unfold get_space_group. intros E.
  destruct (mapM _ _) as [atomic_basis | |] eqn:Eab; try discriminate.
  cbn [mbind outcome_bind] in E.
  destruct (get_point_group lattice_vectors rtol atol eps) as [lpgs | |] eqn:Epg;
    try discriminate.
  cbn [mbind outcome_bind] in E.
  destruct atom_labels as [| first_atom_type labels]; [discriminate |].
  destruct atomic_basis as [| first_atom_pos basis]; [discriminate |].
  apply (space_group_ops_paired lpgs) in E; [| auto | constructor].
  unfold paired in E. cbn [fst snd] in E.
  split; [exact (Forall2_length _ _ _ E) |].
  exists lpgs, (first_atom_pos :: basis). split; [reflexivity |]. split; [reflexivity |].
  intros i op t Hop Ht.
  exact (Forall2_lookup_lr _ _ _ _ _ _ E Hop Ht).
Qed.

Lemma get_space_group_paired_witness :
  exists point_group translations,
    get_space_group QM.eye [0%Z] [(0, 0, 0)%Q] "lat"
                    (1 # 10000) (1 # 1000000) (1 # 10000000000)
    = Ok (point_group, translations) /\
    List.length point_group = List.length translations /\
    exists lattice_pointgroup atomic_basis,
      get_point_group QM.eye (1 # 10000) (1 # 1000000) (1 # 10000000000)
      = Ok lattice_pointgroup /\
      mapM (fun ab => bring_into_cell ab QM.eye (1 # 10000) (1 # 1000000) "Cart" false)
           (List.map (QM.mvmul QM.eye) [(0, 0, 0)%Q]) = Ok atomic_basis /\
      forall i op t,
        point_group !! i = Some op -> translations !! i = Some t ->
        op ∈ lattice_pointgroup /\
        forall a, a ∈ combine [0%Z] atomic_basis ->
                  maps_atom QM.eye (1 # 10000) (1 # 1000000) [0%Z] atomic_basis op t a.
Proof.
  eexists _, _. split.
  - vm_compute. reflexivity.
  - apply (get_space_group_paired QM.eye [0%Z] [(0, 0, 0)%Q] "lat").
    vm_compute. reflexivity.
Defined.

(** ** The reduction loops: bookkeeping of orbits and weights *)

Lemma for_each_inv {A St : Type} (P : St -> Prop) (body : A -> St -> outcome St)
    (xs : list A) (st st' : St) :
  (forall x s s', x ∈ xs -> P s -> body x s = Ok s' -> P s') ->
  P st -> for_each xs body st = Ok st' -> P st'.
Proof.
  revert st. induction xs as [| x xs IH]; intros st Hbody Hst E.
  - cbn in E. injection E as <-. exact Hst.
  - cbn [for_each] in E. destruct (body x st) as [s1 | |] eqn:E1; try discriminate.
    cbn [mbind outcome_bind] in E. apply IH in E; [exact E | |].
    + intros y s s' Hy. apply Hbody. apply elem_of_cons. right. exact Hy.
    + eapply Hbody; [| exact Hst | exact E1]. apply elem_of_cons. left. reflexivity.
Qed.

Definition dict_keys {V : Type} (d : dict V) : list nat := List.map fst d.

Definition sum_nat (l : list nat) : nat := fold_right Nat.add 0%nat l.

Lemma dict_set_present {V : Type} (d : dict V) (k : nat) (v : V) :
  k ∈ dict_keys d -> dict_keys (dict_set d k v) = dict_keys d.
Proof.
  induction d as [| [k' v'] d IH]; intros Hk; [inversion Hk |].
  cbn [dict_set]. destruct (Nat.eqb_spec k k') as [-> | Hne]; [reflexivity |].
  cbn. f_equal. apply IH. apply elem_of_cons in Hk. destruct Hk; [contradiction | assumption].
Qed.

Lemma dict_set_absent {V : Type} (d : dict V) (k : nat) (v : V) :
  k ∉ dict_keys d -> dict_set d k v = d ++ [(k, v)].
Proof.
  induction d as [| [k' v'] d IH]; intros Hk; [reflexivity |].
  cbn [dict_set]. destruct (Nat.eqb_spec k k') as [-> | Hne].
  - exfalso. apply Hk. apply elem_of_cons. left. reflexivity.
  - cbn. f_equal. apply IH. intros Hin. apply Hk. apply elem_of_cons. right. exact Hin.
Qed.

Lemma dict_get_present {V : Type} (d : dict V) (k : nat) (v : V) :
  dict_get d k = Ok v -> k ∈ dict_keys d.
Proof.
  induction d as [| [k' v'] d IH]; [discriminate |]. cbn [dict_get dict_keys List.map fst].
  destruct (Nat.eqb_spec k k') as [-> | Hne]; intros E; apply elem_of_cons; auto.
Qed.

(** The sum of the weights after updating the one at a present key. *)
Lemma sum_dict_set {d : dict nat} (k w : nat) :
  dict_get d k = Ok w ->
  sum_nat (dict_values (dict_set d k (w + 1)%nat)) = Datatypes.S (sum_nat (dict_values d)).
Proof.
  induction d as [| [k' v'] d IH]; [discriminate |]. cbn [dict_get dict_set].
  destruct (Nat.eqb_spec k k') as [-> | Hne]; intros E.
  - injection E as ->. cbn. lia.
  - specialize (IH E). unfold dict_values, sum_nat in *.
    cbn [List.map snd fold_right] in *. rewrite IH. lia.
Qed.

(** The orbit labels in use are [1..cOrbit], in this order, in both
    dictionaries. *)
Definition labelled (st : orbits) : Prop :=
  dict_keys (iWt st) = seq 1 (cOrbit st) /\ dict_keys (iFirst st) = seq 1 (cOrbit st).

Lemma labelled_init (h : gmap Z (option nat)) : labelled (Orbits 0 h [] []).
Proof. split; reflexivity. Qed.

Lemma seq_not_elem (c : nat) : Datatypes.S c ∉ seq 1 c.
Proof. rewrite list_elem_of_In, in_seq. lia. Qed.

Lemma labelled_open_orbit (idx : Z) (i : nat) (st : orbits) :
  labelled st -> labelled (open_orbit idx i st).
Proof.
  intros [Hw Hf]. unfold labelled, open_orbit. cbn [iWt iFirst cOrbit].
  rewrite !dict_set_absent by (rewrite ?Hw, ?Hf; apply seq_not_elem).
  unfold dict_keys in *. rewrite !List.map_app, Hw, Hf. cbn [List.map fst].
  rewrite seq_S. split; reflexivity.
Qed.

Lemma labelled_mark_member (idx : Z) (st st' : orbits) :
  labelled st -> mark_member idx st = Ok st' -> labelled st'.
Proof.
  intros [Hw Hf]. unfold mark_member.
  destruct (hash_get (hashtable st) idx) as [[c |] | |]; cbn [mbind outcome_bind];
    try discriminate.
  - intros E. injection E as <-. split; assumption.
  - destruct (dict_get (iWt st) (cOrbit st)) as [w | |] eqn:Ew; try discriminate.
    cbn [mbind outcome_bind]. intros E. injection E as <-.
    unfold labelled. cbn [iWt iFirst cOrbit].
    rewrite dict_set_present by (eapply dict_get_present; exact Ew).
    split; assumption.
Qed.

Lemma labelled_weights (st : orbits) :
  labelled st -> List.length (dict_values (iWt st)) = cOrbit st.
Proof.
  intros [Hw _]. unfold dict_values. rewrite length_map.
  rewrite <- (length_map fst). fold (dict_keys (iWt st)). rewrite Hw. apply length_seq.
Qed.

Lemma list_get_Ok {A : Type} (l : list A) (i : nat) (a : A) :
  list_get l i = Ok a <-> l !! i = Some a.
Proof.
  unfold list_get. destruct (l !! i); split; intros E;
    try discriminate; injection E as ->; reflexivity.
Qed.

(** The closing loop of [reduce_kpoint_list] adds up the weights. *)
Lemma weights_loop_sum (kpoint_list : list QM.vec) (first : dict nat) (ws : list nat)
    (n a : nat) (acc acc' : nat * list QM.vec) :
  for_each (seq a n)
    (fun i acc =>
       w ← list_get ws i;
       first ← dict_get first (i + 1);
       k ← list_get kpoint_list first;
       Ok ((fst acc + w)%nat, snd acc ++ [k])) acc = Ok acc' ->
  fst acc' = (fst acc + sum_nat (take n (drop a ws)))%nat.
Proof.
  revert a acc. induction n as [| n IH]; intros a acc E.
  - cbn in E. injection E as <-. rewrite take_0. cbn. lia.
  - cbn [seq for_each] in E.
    destruct (list_get ws a) as [w | |] eqn:Ew; try discriminate.
    apply list_get_Ok in Ew.
    cbn [mbind outcome_bind] in E.
    destruct (dict_get first (a + 1)) as [f | |]; try discriminate.
    cbn [mbind outcome_bind] in E.
    destruct (list_get kpoint_list f) as [k | |]; try discriminate.
    cbn [mbind outcome_bind] in E.
    apply IH in E. rewrite E. cbn [fst].
    rewrite (drop_S _ _ _ Ew). rewrite firstn_cons. unfold sum_nat. cbn [fold_right]. lia.
Qed.

Section GridReductionFacts.
Variable SmithNormalForm : ZM.mat -> ZM.mat * ZM.mat * ZM.mat.
Variable find_point_group : QM.mat -> list QM.mat.

Lemma reduce_rotate_labelled ur_kpt lattice_vectors invK shift L D eps pg st st' :
labelled st ->
reduce_rotate ur_kpt lattice_vectors invK shift L D eps pg st = Ok st' ->
labelled st'.
Proof.
intros Hst. unfold reduce_rotate.
destruct (bring_into_cell _ _ _ _ _ _) as [rot | |]; try discriminate.
cbn [mbind outcome_bind]. destruct (off_grid _ _ _ _ _).
- intros E. injection E as <-. exact Hst.
- apply labelled_mark_member. exact Hst.
Qed.

Lemma reduce_visit_labelled kpoint_list lattice_vectors invK shift L D eps
pointgroup i st st' :
labelled st ->
reduce_visit kpoint_list lattice_vectors invK shift L D eps pointgroup i st = Ok st' ->
labelled st'.
Proof.
intros Hst. unfold reduce_visit.
destruct (list_get kpoint_list i) as [ur_kpt | |]; try discriminate.
cbn [mbind outcome_bind].
destruct (hash_get _ _) as [[c |] | |]; try discriminate; cbn [mbind outcome_bind].
- intros E. injection E as <-. exact Hst.
- apply for_each_inv.
+ intros pg s s' _. apply reduce_rotate_labelled.
+ apply labelled_open_orbit. exact Hst.
Qed.

(** Whenever [reduce_kpoint_list] returns, the weights it returns add up
to the number of unreduced k-points. *)
Lemma reduce_kpoint_list_sum fuel kpoint_list lattice_vectors grid_vectors shift
eps rtol atol reduced_kpoints kpoint_weights :
reduce_kpoint_list SmithNormalForm find_point_group fuel kpoint_list
               lattice_vectors grid_vectors shift eps rtol atol
= Ok (reduced_kpoints, kpoint_weights) ->
sum_nat kpoint_weights = List.length kpoint_list.
Proof.
unfold reduce_kpoint_list. intros E.
destruct (try_inv lattice_vectors _) as [[] | |]; try discriminate.
cbn [mbind outcome_bind] in E.
destruct (try_inv grid_vectors _) as [[] | |]; try discriminate.
cbn [mbind outcome_bind] in E.
destruct (QM.Qlt_bool _ _); [discriminate |].
destruct (check_commensurate _ _ _ _) as [[N |] | |]; try discriminate.
cbn [mbind outcome_bind] in E.
destruct (HermiteNormalForm fuel N) as [[H B] | |]; try discriminate.
cbn [mbind outcome_bind] in E.
destruct (SmithNormalForm H) as [[S' L] R].
destruct (QM.inv grid_vectors) as [invK | |]; try discriminate.
cbn [mbind outcome_bind] in E.
destruct (for_each (seq 0 (List.length kpoint_list)) _ _) as [st | |] eqn:Eloop;
try discriminate.
cbn [mbind outcome_bind] in E.
destruct (for_each (seq 0 (cOrbit st)) _ _) as [[sum reduced] | |] eqn:Esum;
try discriminate.
cbn [mbind outcome_bind] in E.
destruct (Nat.eqb_spec sum (List.length kpoint_list)) as [Hsum | _];
cbn [negb] in E; [| discriminate].
injection E as <- <-.
apply weights_loop_sum in Esum. cbn [fst] in Esum.
assert (Hlab : labelled st).
{ eapply for_each_inv; [| apply labelled_init | exact Eloop].
intros i s s' _. apply reduce_visit_labelled. }
rewrite drop_0, firstn_all2 in Esum by (rewrite labelled_weights by exact Hlab; lia).
lia.
Qed.
End GridReductionFacts.

(** ** [find_orbits]: what is applied to a point that opens an orbit *)



Section OrbitLoopFacts.
Variables (rlattice_vectors invK : QM.mat) (shift : QM.vec).
Variables (L : ZM.mat) (D : ZM.vec) (rounding_eps : Z) (rtol : Q).




End OrbitLoopFacts.

(** phenum's [SmithNormalForm] on a matrix that is already diagonal with
    a divisor chain: the matrix itself, with identity transformations. *)
Definition SmithNormalForm_diagonal (H : ZM.mat) : ZM.mat * ZM.mat * ZM.mat :=
  (H, ZM.identity, ZM.identity).


(** *** A worked crystal: simple cubic, two like atoms, a 2x2x2 grid *)


Definition grid_half : QM.mat :=
  ((1 # 2, 0, 0), (0, 1 # 2, 0), (0, 0, 1 # 2))%Q.

Definition grid_half_inv : QM.mat := ((2, 0, 0), (0, 2, 0), (0, 0, 2))%Q.

Definition grid8 : list QM.vec :=
  [(0, 0, 0); (0, 0, 1 # 2); (0, 1 # 2, 0); (0, 1 # 2, 1 # 2);
   (1 # 2, 0, 0); (1 # 2, 0, 1 # 2); (1 # 2, 1 # 2, 0); (1 # 2, 1 # 2, 1 # 2)]%Q.

(** The rotation by a quarter turn about the x axis *)
Definition quarter_turn_x : QM.mat := ((1, 0, 0), (0, 0, -1), (0, 1, 0))%Q.



(** C3 (failing input). A list that names one grid point twice, the second
    time shifted by a reciprocal lattice vector: [find_orbits] returns
    normally with one orbit of weight 1 for 2 unreduced points, where
    [reduce_kpoint_list] raises its consistency error. *)
Theorem find_orbits_no_sum_check :
  find_orbits SmithNormalForm_diagonal 1 [(0, 0, 0); (1, 0, 0)]%Q
              QM.eye QM.eye QM.eye (0, 0, 0)%Q [0] [(0, 0, 0)%Q] false "cart" "lat"
              (1 # 10000000000) 4 (1 # 10000) (1 # 1000000)
  = Ok (ReducedKpoints [(0, 0, 0)%Q], [1%nat]) /\
  reduce_kpoint_list SmithNormalForm_diagonal
    (fun lat_vecs =>
       match get_point_group lat_vecs (1 # 10000) (1 # 1000000) (1 # 1000000000) with
       | Ok pg => pg
       | _ => []
       end)
    1 [(0, 0, 0); (1, 0, 0)]%Q QM.eye QM.eye (0, 0, 0)%Q 9
    QM.rtol_default QM.atol_default
  = Raise (ValueError "There are more or less k-points after the symmetry reduction.").
Proof. split; vm_compute; reflexivity. Qed.

(** ** [bring_into_cell] folds a folded point onto itself *)

Section FoldFacts.
Local Open Scope Q_scope.


Lemma mod1_range (x : Q) : 0 <= QM.mod1 x /\ QM.mod1 x < 1.
Proof.
unfold QM.mod1. pose proof (Qfloor_le x) as Hl. pose proof (Qlt_floor x) as Hu.
rewrite inject_Z_plus in Hu. change (inject_Z 1) with 1 in Hu.
unfold Qminus. split; lra.
Qed.






End FoldFacts.




Definition two_cell : QM.mat := ((2, 0, 0), (0, 2, 0), (0, 0, 2))%Q.



(** ** The k-point index: range and uniqueness on the grid *)

Definition adjugate (M : ZM.mat) : ZM.mat :=
  let '((a, b, c), (d, e, f), (g, h, i)) := M in
  ((e * i - f * h, c * h - b * i, b * f - c * e),
   (f * g - d * i, a * i - c * g, c * d - a * f),
   (d * h - e * g, b * g - a * h, a * e - b * d)).

(** The diagonal matrix of a vector *)
Definition diagm (D : ZM.vec) : ZM.mat :=
  let '(d0, d1, d2) := D in ((d0, 0, 0), (0, d1, 0), (0, 0, d2)).

(** The mixed-radix number of [find_kpt_index] *)
Definition radix_index (g D : ZM.vec) : Z :=
  get g 0 * get D 1 * get D 2 + get g 1 * get D 2 + get g 2.

Ltac split_vec v := destruct v as [[? ?] ?].

Lemma adjugate_mvmul (L : ZM.mat) (v : ZM.vec) :
  ZM.mvmul (adjugate L) (ZM.mvmul L v) = ZM.vscale (ZM.det L) v.
Proof. split_mat L; split_vec v; mat_ring. Qed.

Lemma mvmul_mmul (A B : ZM.mat) (v : ZM.vec) :
  ZM.mvmul (ZM.mmul A B) v = ZM.mvmul A (ZM.mvmul B v).
Proof. split_mat A; split_mat B; split_vec v; mat_ring. Qed.

Lemma mvmul_vsub (A : ZM.mat) (u v : ZM.vec) :
  ZM.mvmul A (ZM.vsub u v) = ZM.vsub (ZM.mvmul A u) (ZM.mvmul A v).
Proof. split_mat A; split_vec u; split_vec v; mat_ring. Qed.

Lemma mvmul_vscale (A : ZM.mat) (k : Z) (v : ZM.vec) :
  ZM.mvmul A (ZM.vscale k v) = ZM.vscale k (ZM.mvmul A v).
Proof. split_mat A; split_vec v; mat_ring. Qed.

Lemma vscale_unit_inj (k : Z) (u v : ZM.vec) :
  k = 1 \/ k = -1 -> ZM.vscale k u = ZM.vscale k v -> u = v.
Proof.
  split_vec u; split_vec v. cbn. intros Hk E. injection E as E1 E2 E3.
  repeat f_equal; lia.
Qed.

Lemma np_mod_pos (a d : Z) : 0 < d -> np_mod a d = a mod d /\ 0 <= np_mod a d < d.
Proof.
  intros Hd. unfold np_mod. destruct (Z.eqb_spec d 0); [lia |].
  split; [reflexivity | apply Z.mod_pos_bound; exact Hd].
Qed.

Lemma mod_eq_multiple (a b d : Z) : 0 < d -> a mod d = b mod d -> exists q, a - b = d * q.
Proof.
  intros Hd E. exists (a / d - b / d).
  pose proof (Z.div_mod a d ltac:(lia)). pose proof (Z.div_mod b d ltac:(lia)). lia.
Qed.

Lemma radix_digits (a b a' b' d : Z) :
  0 <= b < d -> 0 <= b' < d -> a * d + b = a' * d + b' -> a = a' /\ b = b'.
Proof.
  intros Hb Hb' E.
  apply (Z.div_mod_unique d a a' b b'); [left; exact Hb | left; exact Hb' | lia].
Qed.

Lemma radix_index_inj (g g' D : ZM.vec) :
  0 <= get g 1 < get D 1 -> 0 <= get g 2 < get D 2 ->
  0 <= get g' 1 < get D 1 -> 0 <= get g' 2 < get D 2 ->
  radix_index g D = radix_index g' D -> g = g'.
Proof.
  destruct g as [[g0 g1] g2], g' as [[g0' g1'] g2'], D as [[d0 d1] d2].
  unfold radix_index. cbn [get]. intros H1 H2 H1' H2' E.
  destruct (radix_digits (g0 * d1 + g1) g2 (g0' * d1 + g1') g2' d2) as [E1 ->];
    [lia | lia | lia |].
  destruct (radix_digits g0 g1 g0' g1' d1) as [-> ->]; [lia | lia | lia |].
  reflexivity.
Qed.

Lemma radix_index_range (g D : ZM.vec) :
  0 <= get g 0 < get D 0 -> 0 <= get g 1 < get D 1 -> 0 <= get g 2 < get D 2 ->
  0 <= radix_index g D < get D 0 * get D 1 * get D 2.
Proof.
  destruct g as [[g0 g1] g2], D as [[d0 d1] d2].
  unfold radix_index. cbn [get]. intros H0 H1 H2.
  assert (Hd : 0 <= d1 * d2) by (apply Z.mul_nonneg_nonneg; lia).
  assert (A1 : g1 * d2 <= (d1 - 1) * d2) by (apply Z.mul_le_mono_nonneg_r; lia).
  assert (A0 : g0 * (d1 * d2) <= (d0 - 1) * (d1 * d2))
    by (apply Z.mul_le_mono_nonneg_r; lia).
  assert (P1 : 0 <= g1 * d2) by (apply Z.mul_nonneg_nonneg; lia).
  assert (P0 : 0 <= g0 * (d1 * d2)) by (apply Z.mul_nonneg_nonneg; lia).
  replace (g0 * d1 * d2) with (g0 * (d1 * d2)) by ring.
  replace (d0 * d1 * d2) with (d0 * (d1 * d2)) by ring.
  lia.
Qed.

Section IndexOnGrid.
Local Open Scope Q_scope.

#[local] Instance inject_Z_proper : Proper (eq ==> Qeq) inject_Z.
Proof. intros a b ->. reflexivity. Qed.

Lemma rint_Z (x : Q) (z : Z) : x == inject_Z z -> QM.rint x = z.
Proof.
intros E. unfold QM.rint.
assert (Hf : Qfloor x = z) by (rewrite (Qfloor_comp _ _ E); apply Qfloor_Z).
rewrite Hf. unfold QM.Qlt_bool.
destruct (Qle_bool (1 # 2) (x - inject_Z z)) eqn:Hle; [| reflexivity].
apply Qle_bool_iff in Hle. lra.
Qed.

Lemma trunc_Z (x : Q) (z : Z) : x == inject_Z z -> QM.trunc x = z.
Proof.
intros E. unfold QM.trunc. destruct (Qle_bool 0 x).
- rewrite (Qfloor_comp _ _ E). apply Qfloor_Z.
- rewrite (Qceiling_comp _ _ E). apply Qceiling_Z.
Qed.

Lemma round_dec_Z (x : Q) (z eps : Z) :
(0 <= eps)%Z -> x == inject_Z z -> QM.round_dec x eps == inject_Z z.
Proof.
intros Heps E. unfold QM.round_dec.
assert (Hp : Qpower 10 eps == inject_Z (10 ^ eps)).
{ symmetry. apply (Zpower_Qpower 10 eps Heps). }
assert (Hpos : 0 < Qpower 10 eps) by (apply Qpower_0_lt; reflexivity).
assert (Hr : QM.rint (x * Qpower 10 eps) = (z * 10 ^ eps)%Z).
{ apply rint_Z. rewrite inject_Z_mult, E, Hp. reflexivity. }
rewrite Hr, inject_Z_mult, <- Hp. field. lra.
Qed.

Lemma mvmul_of_Z (L : ZM.mat) (g : QM.vec) (n : ZM.vec) :
QM.veq g (QM.of_Z n) ->
QM.veq (QM.mvmul (QM.of_Zmat L) g) (QM.of_Z (ZM.mvmul L n)).
Proof.
split_mat L. destruct g as [[x y] u], n as [[a b] c]. cbn.
intros (E1 & E2 & E3).
rewrite !inject_Z_plus, !inject_Z_mult, E1, E2, E3. repeat split; reflexivity.
Qed.

(** On a point whose grid coordinates are the integers [n], the index is
the mixed-radix number of [L.n mod D]. *)
Lemma find_kpt_index_on_grid (kpt : QM.vec) (invK : QM.mat) (L : ZM.mat)
(D : ZM.vec) (eps : Z) (n : ZM.vec) :
(0 <= eps)%Z ->
QM.veq (QM.mvmul invK kpt) (QM.of_Z n) ->
find_kpt_index kpt invK L D eps
= radix_index (let '(g0, g1, g2) := ZM.mvmul L n in
           (np_mod g0 (get D 0), np_mod g1 (get D 1), np_mod g2 (get D 2))) D.
Proof.
intros Heps E. unfold find_kpt_index.
assert (Hg : QM.veq (vmap (fun x => QM.round_dec x eps) (QM.mvmul invK kpt))
                (QM.of_Z n)).
{ destruct (QM.mvmul invK kpt) as [[x y] z], n as [[a b] c]. cbn in E |- *.
destruct E as (E1 & E2 & E3). repeat split; apply round_dec_Z; assumption. }
apply (mvmul_of_Z L) in Hg.
destruct (QM.mvmul (QM.of_Zmat L) _) as [[x y] z].
destruct (ZM.mvmul L n) as [[a b] c]. cbn in Hg. destruct Hg as (E1 & E2 & E3).
cbn [vmap]. rewrite (trunc_Z _ _ E1), (trunc_Z _ _ E2), (trunc_Z _ _ E3).
reflexivity.
Qed.
End IndexOnGrid.

(** The index in the spec's words, for comparison: the weights
    [(D1.D2, D2, 1)] on [(L . round(invK . (point - shift))) mod D]. *)
Definition spec_kpt_index (point shift : QM.vec) (gridVectorsInverse : QM.mat)
    (L : ZM.mat) (D : ZM.vec) : Z :=
  let n := vmap QM.rint (QM.mvmul gridVectorsInverse (QM.vsub point shift)) in
  let '(g1, g2, g3) := ZM.mvmul L n in
  let '(D1, D2, D3) := D in
  (g1 mod D1) * (D1 * D2) + (g2 mod D2) * D2 + (g3 mod D3) * 1.

(** C2 (amended). [find_kpt_index] computes
    [(L . round(invK . kpt)) mod D] (the caller passes [point - shift]) and
    takes its mixed-radix number with the weights [(D[1]*D[2], D[2], 1)],
    that is [(D2.D3, D3, 1)] for the diagonal [(D1, D2, D3)]. With [H = N.B]
    the Hermite form of the integer matrix [N] of a commensurate grid and
    [D = L.H.R] its Smith form with [L] unimodular and [D] positive, a point
    whose grid coordinates are the integers [n] gets an index in
    [[0, D1.D2.D3)], and two such points get the same index only if their grid
    coordinates differ by a vector of the lattice [N.Z^3]. *)
Theorem find_kpt_index_unique
    (invK : QM.mat) (N B H L R : ZM.mat) (D : ZM.vec) (eps : Z)
    (kpt kpt' : QM.vec) (n n' : ZM.vec) :
  0 <= eps ->
  ZM.mmul N B = H ->
  ZM.mmul (ZM.mmul L H) R = diagm D ->
  unimodular L ->
  0 < get D 0 -> 0 < get D 1 -> 0 < get D 2 ->
  QM.veq (QM.mvmul invK kpt) (QM.of_Z n) ->
  QM.veq (QM.mvmul invK kpt') (QM.of_Z n') ->
  find_kpt_index kpt invK L D eps
  = get (ZM.mvmul L n) 0 mod get D 0 * get D 1 * get D 2
    + get (ZM.mvmul L n) 1 mod get D 1 * get D 2
    + get (ZM.mvmul L n) 2 mod get D 2 /\
  0 <= find_kpt_index kpt invK L D eps < get D 0 * get D 1 * get D 2 /\
  (find_kpt_index kpt invK L D eps = find_kpt_index kpt' invK L D eps ->
   exists m, ZM.vsub n n' = ZM.mvmul N m).
Proof.
  intros Heps EH ED UL P0 P1 P2 En En'.
  rewrite (find_kpt_index_on_grid kpt invK L D eps n Heps En).
  rewrite (find_kpt_index_on_grid kpt' invK L D eps n' Heps En').
  destruct (ZM.mvmul L n) as [[a0 a1] a2] eqn:Ea.
  destruct (ZM.mvmul L n') as [[b0 b1] b2] eqn:Eb.
  destruct (np_mod_pos a0 _ P0) as [Ma0 Ra0]. destruct (np_mod_pos a1 _ P1) as [Ma1 Ra1].
  destruct (np_mod_pos a2 _ P2) as [Ma2 Ra2]. destruct (np_mod_pos b0 _ P0) as [Mb0 Rb0].
  destruct (np_mod_pos b1 _ P1) as [Mb1 Rb1]. destruct (np_mod_pos b2 _ P2) as [Mb2 Rb2].
  split; [| split].
  - unfold radix_index. cbn [get]. rewrite Ma0, Ma1, Ma2. reflexivity.
  - apply radix_index_range; cbn [get]; assumption.
  - intros E. apply radix_index_inj in E; cbn [get]; try assumption.
    injection E as E0 E1 E2. rewrite Ma0, Mb0 in E0. rewrite Ma1, Mb1 in E1.
    rewrite Ma2, Mb2 in E2.
    destruct (mod_eq_multiple _ _ _ P0 E0) as [q0 Q0].
    destruct (mod_eq_multiple _ _ _ P1 E1) as [q1 Q1].
    destruct (mod_eq_multiple _ _ _ P2 E2) as [q2 Q2].
    (* L.(n - n') = D.q *)
    assert (HL : ZM.mvmul L (ZM.vsub n n') = ZM.mvmul (diagm D) (q0, q1, q2)).
    { rewrite mvmul_vsub, Ea, Eb. destruct D as [[d0 d1] d2]. cbn in *.
      repeat f_equal; lia. }
    exists (ZM.mvmul B (ZM.mvmul R (q0, q1, q2))).
    apply (vscale_unit_inj (ZM.det L)); [exact UL |].
    transitivity (ZM.mvmul (adjugate L) (ZM.mvmul (diagm D) (q0, q1, q2))).
    + rewrite <- HL. symmetry. apply adjugate_mvmul.
    + rewrite <- (adjugate_mvmul L). f_equal.
      rewrite <- ED, <- EH. rewrite !mvmul_mmul. reflexivity.
Qed.

Lemma find_kpt_index_unique_witness :
  find_kpt_index (0, 1, 0)%Q QM.eye ZM.identity (1, 2, 4) 4
  = get (ZM.mvmul ZM.identity (0, 1, 0)) 0 mod 1 * 2 * 4
    + get (ZM.mvmul ZM.identity (0, 1, 0)) 1 mod 2 * 4
    + get (ZM.mvmul ZM.identity (0, 1, 0)) 2 mod 4 /\
  0 <= find_kpt_index (0, 1, 0)%Q QM.eye ZM.identity (1, 2, 4) 4 < 1 * 2 * 4 /\
  (find_kpt_index (0, 1, 0)%Q QM.eye ZM.identity (1, 2, 4) 4
   = find_kpt_index (0, 3, 4)%Q QM.eye ZM.identity (1, 2, 4) 4 ->
   exists m, ZM.vsub (0, 1, 0) (0, 3, 4) = ZM.mvmul (diagm (1, 2, 4)) m).
Proof.
  apply (find_kpt_index_unique QM.eye (diagm (1, 2, 4)) ZM.identity (diagm (1, 2, 4))
           ZM.identity ZM.identity (1, 2, 4) 4 (0, 1, 0)%Q (0, 3, 4)%Q
           (0, 1, 0) (0, 3, 4));
    try reflexivity; try (cbn; lia).
  - left. reflexivity.
  - vm_compute. repeat split.
  - vm_compute. repeat split.
Defined.

(** C2 (counterexample). For the grid with [N = H = diag(1, 2, 4)], so
    [L = R = identity] and [D = (1, 2, 4)], the grid point (0, 1, 0) has
    index 4 in [find_kpt_index] and 2 under the weights [(D1.D2, D2, 1)];
    under those weights the point (0, 0, 2), which is not equivalent to it
    modulo the lattice, gets 2 as well, where [find_kpt_index] gives 2 and 4. *)
Lemma find_kpt_index_weights_counterexample :
  find_kpt_index (QM.vsub (0, 1, 0) (0, 0, 0))%Q QM.eye ZM.identity (1, 2, 4) 4 = 4 /\
  spec_kpt_index (0, 1, 0)%Q (0, 0, 0)%Q QM.eye ZM.identity (1, 2, 4) = 2 /\
  spec_kpt_index (0, 0, 2)%Q (0, 0, 0)%Q QM.eye ZM.identity (1, 2, 4) = 2 /\
  find_kpt_index (QM.vsub (0, 0, 2) (0, 0, 0))%Q QM.eye ZM.identity (1, 2, 4) 4 = 2 /\
  ~ exists m, ZM.vsub (0, 1, 0) (0, 0, 2) = ZM.mvmul (diagm (1, 2, 4)) m.
Proof.
  split; [vm_compute; reflexivity |].
  split; [vm_compute; reflexivity |].
  split; [vm_compute; reflexivity |].
  split; [vm_compute; reflexivity |].
  intros [[[m0 m1] m2] E]. cbn in E. injection E as E0 E1 E2. lia.
Qed.

(** ** Lattice reduction ([gaussian_reduction], [reduce_lattice_vector],
    [check_minkowski_conditions], [minkowski_reduce_basis]) *)

(** [v1, v2 = vecs[np.argsort(norm(vecs, axis=1))]] on two vectors: the
    shorter one first, the given order on a tie. *)
Definition sort_pair (v1 v2 : QM.vec) : QM.vec * QM.vec :=
  if QM.Qlt_bool (QM.norm v2) (QM.norm v1) then (v2, v1) else (v1, v2).

Definition gaussian_msg : string :=
  "Failed to Gaussian reduce the vectors after 10 iterations".

(** The [while not reduced] loop; [limit] counts the iterations that are
    left before [it > 10]. The arrays hold floats. A zero [v1] makes the
    quotient [0/0]: [v2] becomes nan, no comparison with its norm holds,
    the sort leaves the nan last, and the loop runs into its limit. *)
Fixpoint gaussian_loop (limit : nat) (v1 v2 : QM.vec) (eps : Q)
    : outcome (QM.vec * QM.vec) :=
  match limit with
  | O => Raise (ValueError gaussian_msg)
  | Datatypes.S limit' =>
      if Qeq_bool (QM.dot v1 v1) 0 then Raise (ValueError gaussian_msg)
      else
        (* subtract an integer multiple of v1 from v2 *)
        let v2 :=
          QM.vsub v2 (QM.vscale (inject_Z (QM.rint (QM.dot v1 v2 / QM.dot v1 v1))) v1) in
        let reduced := QM.Qlt_bool (QM.norm v1 - eps) (QM.norm v2) in
        let '(v1, v2) := sort_pair v1 v2 in
        if reduced then Ok (v1, v2) else gaussian_loop limit' v1 v2 eps
  end.

Definition gaussian_reduction (v1 v2 : QM.vec) (eps : Q) : outcome (QM.vec * QM.vec) :=
  let '(v1, v2) := sort_pair v1 v2 in
  gaussian_loop 10 v1 v2 eps.

(** [reduce_lattice_vector] formats the message of its last error with
    [grid_vectors], a name bound neither in the function nor in the
    module: that error surfaces as a [NameError], which is returned here
    as a value of its own beside the function's result. *)
Inductive or_name_error (A : Type) : Type :=
| Value (a : A)
| NameError (name : string).
Arguments Value {A} a.
Arguments NameError {A} name%_string.

(** [np.argmin]: the first index of the least entry. *)
Fixpoint argmin_from (i best_i : nat) (best : Q) (l : list Q) : nat :=
  match l with
  | [] => best_i
  | x :: l' =>
      if QM.Qlt_bool x best then argmin_from (Datatypes.S i) i x l'
      else argmin_from (Datatypes.S i) best_i best l'
  end.
Definition argmin (l : list Q) : nat :=
  match l with
  | [] => 0%nat
  | x :: l' => argmin_from 1 0 x l'
  end.

(** [itertools.product([0,1], repeat=2)] with a 0 appended to each pair *)
Definition plane_corners : list ZM.vec := [(0, 0, 0); (0, 1, 0); (1, 0, 0); (1, 1, 0)].

Definition zvadd (u v : ZM.vec) : ZM.vec :=
  let '(a, b, c) := u in let '(x, y, z) := v in (a + x, b + y, c + z).

(** A vanishing cross product makes [v_on] nan in the source; the basis is
    then singular and [inv] raises before [v_on] is compared, as it does
    here. *)
Definition reduce_lattice_vector (lattice_vectors : QM.mat) (rtol atol eps : Q)
    : outcome (or_name_error QM.mat) :=
  let v1 := col lattice_vectors 0 in
  let v2 := col lattice_vectors 1 in
  let v3 := col lattice_vectors 2 in
  (* Gaussian reduce the first two lattice vectors *)
  '(v1r, v2r) ← gaussian_reduction v1 v2 eps;
  let temp_lattice_vectors := transpose (v1r, v2r, v3) in
  if QM.isclose (QM.det temp_lattice_vectors) 0 rtol atol then
    Raise (ValueError "After Gaussian reduction of the first two lattice vectors, the lattice generating vectors are linearly dependent.")
  else
    (* a unit vector normal to the v1-v2 plane *)
    let cr := QM.cross v1r v2r in
    let v_on := vmap (fun x => x / QM.norm cr)%Q cr in
    (* the point of the plane through v3 that is closest to the origin *)
    let closest_pt := QM.vsub v3 (vmap (fun x => x * QM.dot v_on v3)%Q v_on) in
    inv_temp ← QM.inv temp_lattice_vectors;
    let closest_lat_pt :=
      vmap (fun x => Qfloor (x + eps)) (QM.mvmul inv_temp closest_pt) in
    if negb (QM.isclose (QM.dot closest_pt v_on) 0 rtol atol) then
      Raise (ValueError "After Gaussian reduction, the latttice vectors are linearly dependent.")
    else
      (* the four lattice points that enclose this point *)
      let corners_lat := List.map (fun c => zvadd c closest_lat_pt) plane_corners in
      let corners_cart :=
        List.map (fun c => QM.mvmul temp_lattice_vectors (QM.of_Z c)) corners_lat in
      let corner_distances :=
        List.map (fun c => QM.norm (QM.vsub c closest_pt)) corners_cart in
      let corner_index := argmin corner_distances in
      corner ← list_get corners_cart corner_index;
      let v3r := QM.vsub v3 corner in
      let reduced_lattice_vectors := transpose (v1r, v2r, v3r) in
      check ← check_commensurate reduced_lattice_vectors lattice_vectors rtol atol;
      match check with
      | None => Ok (NameError "grid_vectors")
      | Some _ => Ok (Value reduced_lattice_vectors)
      end.

(** The twelve tests; the source prints a line for each one that fails. *)
Definition check_minkowski_conditions (lattice_basis : QM.mat) (eps : Q) : bool :=
  let b1 := col lattice_basis 0 in
  let b2 := col lattice_basis 1 in
  let b3 := col lattice_basis 2 in
  let shorter (u v : QM.vec) := QM.Qlt_bool (QM.norm u + eps) (QM.norm v) in
  negb (shorter b2 b1)
  && negb (shorter b3 b2)
  && negb (shorter (QM.vadd b1 b2) b2)
  && negb (shorter (QM.vsub b1 b2) b2)
  && negb (shorter (QM.vadd b1 b3) b3)
  && negb (shorter (QM.vsub b3 b1) b3)
  && negb (shorter (QM.vadd b2 b3) b3)
  && negb (shorter (QM.vsub b3 b2) b3)
  && negb (shorter (QM.vadd (QM.vadd b1 b2) b3) b3)
  && negb (shorter (QM.vadd (QM.vsub b1 b2) b3) b3)
  && negb (shorter (QM.vsub (QM.vadd b1 b2) b3) b3)
  && negb (shorter (QM.vsub (QM.vsub b1 b2) b3) b3).

(** [lat_vecs.T[np.argsort(norm(lat_vecs, axis=0))].T]: the columns in
    ascending order of their norms, ties in the given order. *)
Fixpoint norm_insert (v : QM.vec) (l : list QM.vec) : list QM.vec :=
  match l with
  | [] => [v]
  | u :: l' =>
      if QM.Qlt_bool (QM.norm v) (QM.norm u) then v :: l else u :: norm_insert v l'
  end.
Definition sort_columns (lat_vecs : QM.mat) : QM.mat :=
  match fold_left (fun sorted v => norm_insert v sorted)
                  [col lat_vecs 0; col lat_vecs 1; col lat_vecs 2] [] with
  | [a; b; c] => transpose (a, b, c)
  | _ => lat_vecs
  end.

(** Modelled from the spec: [swap_rows_columns] of [BZI.utilities], which
    is not among the sources; the spec has the sign of the determinant
    normalized by swapping two vectors, and the call names the columns 1
    and 2 ([rows=False]). *)
Definition swap_rows_columns (M : QM.mat) (i j : nat) (rows : bool) : QM.mat :=
  if rows then transpose (swap_cols (transpose M) i j) else swap_cols M i j.

(** The [for _ in range(limit)] loop with its [break]. *)
Fixpoint minkowski_loop (limit : nat) (lat_vecs : QM.mat) (rtol atol eps : Q)
    : outcome (or_name_error QM.mat) :=
  match limit with
  | O => Ok (Value lat_vecs)
  | Datatypes.S limit' =>
      (* sort the lattice vectors by their norms in ascending order *)
      let lat_vecs := sort_columns lat_vecs in
      (* reduce the lattice vector in the last column *)
      r ← reduce_lattice_vector lat_vecs rtol atol eps;
      match r with
      | NameError name => Ok (NameError name)
      | Value lat_vecs =>
          if Qle_bool (QM.norm (col lat_vecs 1) - eps) (QM.norm (col lat_vecs 2))
          then Ok (Value lat_vecs)
          else minkowski_loop limit' lat_vecs rtol atol eps
      end
  end.

Definition minkowski_reduce_basis (lattice_basis : QM.mat) (rtol atol eps : Q)
    : outcome (or_name_error QM.mat) :=
  if QM.isclose (QM.det lattice_basis) 0 rtol atol then
    Raise (ValueError "Lattice basis is linearly dependent.")
  else
    r ← minkowski_loop 10 lattice_basis rtol atol eps;
    match r with
    | NameError name => Ok (NameError name)
    | Value lat_vecs =>
        (* check that the Minkowski conditions are satisfied *)
        if negb (check_minkowski_conditions lat_vecs eps) then
          Raise (ValueError "Failed to meet Minkowski reduction conditions after 10 iterations")
        else
          let lat_vecs := sort_columns lat_vecs in
          (* the determinant is wanted positive *)
          if QM.Qlt_bool (QM.det lat_vecs + eps) 0
          then Ok (Value (swap_rows_columns lat_vecs 1 2 false))
          else Ok (Value lat_vecs)
    end.


(** *** Facts about [QM.sqrt], [QM.rint] and the vector operations *)

Lemma sqrt_nonneg (x : Q) : (0 <= QM.sqrt x)%Q.
Proof.
  unfold QM.sqrt. rewrite Qred_correct. unfold Qle. cbn.
  rewrite Z.mul_1_r. apply Z.sqrt_nonneg.
Qed.

Lemma sqrt_pos (x : Q) : (0 < x)%Q -> (0 < QM.sqrt x)%Q.
Proof.
  intros Hx. unfold QM.sqrt. rewrite Qred_correct. unfold Qlt. cbn.
  rewrite Z.mul_1_r. apply Z.sqrt_pos.
  assert (Hn : (0 < Qnum (Qred x))%Z).
  { rewrite <- (Qred_correct x) in Hx. unfold Qlt in Hx. cbn in Hx. lia. }
  assert (0 < 4 ^ 53)%Z by (vm_compute; reflexivity). nia.
Qed.

Lemma sqrt_comp (x y : Q) : (x == y)%Q -> QM.sqrt x = QM.sqrt y.
Proof. intros E. unfold QM.sqrt. rewrite (Qred_complete x y E). reflexivity. Qed.

Lemma dot_self_nonneg (v : QM.vec) : (0 <= QM.dot v v)%Q.
Proof. split_vec v. cbn. nra. Qed.

Lemma norm_zero_dot (v : QM.vec) : (QM.norm v <= 0)%Q -> (QM.dot v v == 0)%Q.
Proof.
  intros H. pose proof (dot_self_nonneg v) as Hn.
  destruct (Qlt_le_dec 0 (QM.dot v v)) as [Hp | Hle]; [| lra].
  apply sqrt_pos in Hp. unfold QM.norm in H. lra.
Qed.

Lemma Qlt_bool_true (x y : Q) : QM.Qlt_bool x y = true <-> (x < y)%Q.
Proof.
  unfold QM.Qlt_bool. rewrite negb_true_iff. split.
  - intros H. apply Qnot_le_lt. intros Hle. apply Qle_bool_iff in Hle. congruence.
  - intros H. destruct (Qle_bool y x) eqn:E; [| reflexivity].
    apply Qle_bool_iff in E. lra.
Qed.

Lemma Qlt_bool_false (x y : Q) : QM.Qlt_bool x y = false <-> (y <= x)%Q.
Proof.
  unfold QM.Qlt_bool. rewrite negb_false_iff. apply Qle_bool_iff.
Qed.

Lemma rint_near (x : Q) : (Qabs (x - inject_Z (QM.rint x)) <= 1 # 2)%Q.
Proof.
  pose proof (Qfloor_le x) as Hlo. pose proof (Qlt_floor x) as Hhi.
  rewrite inject_Z_plus in Hhi. change (inject_Z 1) with 1%Q in Hhi.
  apply Qabs_Qle_condition. unfold QM.rint.
  destruct (QM.Qlt_bool (x - inject_Z (Qfloor x)) (1 # 2)) eqn:E1.
  - apply Qlt_bool_true in E1. split; lra.
  - apply Qlt_bool_false in E1.
    assert (Hup : (x - inject_Z (Qfloor x + 1) <= 1 # 2)%Q /\
                  (- (1 # 2) <= x - inject_Z (Qfloor x + 1))%Q).
    { rewrite inject_Z_plus. change (inject_Z 1) with 1%Q. split; lra. }
    destruct (QM.Qlt_bool (1 # 2) (x - inject_Z (Qfloor x))) eqn:E2.
    + split; lra.
    + apply Qlt_bool_false in E2. destruct (Z.even (Qfloor x)); split; lra.
Qed.

(** *** [gaussian_reduction] *)

(** [p*u + q*v] with integer coefficients *)
Definition lincomb (p q : Z) (u v : QM.vec) : QM.vec :=
  QM.vadd (QM.vscale (inject_Z p) u) (QM.vscale (inject_Z q) v).

Lemma sort_pair_cases (u v : QM.vec) :
  (sort_pair u v = (u, v) /\ (QM.norm u <= QM.norm v)%Q) \/
  (sort_pair u v = (v, u) /\ (QM.norm v < QM.norm u)%Q).
Proof.
  unfold sort_pair. destruct (QM.Qlt_bool (QM.norm v) (QM.norm u)) eqn:E.
  - right. split; [reflexivity |]. now apply Qlt_bool_true.
  - left. split; [reflexivity |]. now apply Qlt_bool_false.
Qed.

Lemma lincomb_step (p q r s k : Z) (v1 v2 u1 u2 : QM.vec) :
  QM.veq u1 (lincomb p q v1 v2) -> QM.veq u2 (lincomb r s v1 v2) ->
  QM.veq (QM.vsub u2 (QM.vscale (inject_Z k) u1))
         (lincomb (r - k * p) (s - k * q) v1 v2).
Proof.
  split_vec v1. split_vec v2. split_vec u1. split_vec u2.
  unfold lincomb, QM.veq. cbn. intros (E1 & E2 & E3) (F1 & F2 & F3).
  unfold Zminus. rewrite !inject_Z_plus, !inject_Z_opp, !inject_Z_mult.
  rewrite E1, E2, E3, F1, F2, F3. repeat split; ring.
Qed.

Lemma gaussian_loop_lattice (limit : nat) :
  forall (v1 v2 u1 u2 : QM.vec) (eps : Q) (a b : QM.vec) (p q r s : Z),
    (p * s - q * r = 1 \/ p * s - q * r = -1) ->
    QM.veq u1 (lincomb p q v1 v2) -> QM.veq u2 (lincomb r s v1 v2) ->
    gaussian_loop limit u1 u2 eps = Ok (a, b) ->
    exists p' q' r' s' : Z,
      (p' * s' - q' * r' = 1 \/ p' * s' - q' * r' = -1) /\
      QM.veq a (lincomb p' q' v1 v2) /\ QM.veq b (lincomb r' s' v1 v2).
Proof.
  induction limit as [| limit IH]; intros v1 v2 u1 u2 eps a b p q r s Hdet H1 H2 Hrun;
    [discriminate |].
  cbn [gaussian_loop] in Hrun.
  destruct (Qeq_bool (QM.dot u1 u1) 0); [discriminate |].
  set (k := QM.rint (QM.dot u1 u2 / QM.dot u1 u1)) in *.
  pose proof (lincomb_step p q r s k v1 v2 u1 u2 H1 H2) as H2'.
  set (u2' := QM.vsub u2 (QM.vscale (inject_Z k) u1)) in *.
  assert (Hdet' : p * (s - k * q) - q * (r - k * p) = 1 \/
                  p * (s - k * q) - q * (r - k * p) = -1) by lia.
  assert (Hdet'' : (r - k * p) * q - (s - k * q) * p = 1 \/
                   (r - k * p) * q - (s - k * q) * p = -1) by lia.
  destruct (sort_pair_cases u1 u2') as [[Es _] | [Es _]]; rewrite Es in Hrun.
  - destruct (QM.Qlt_bool _ _).
    + inversion Hrun; subst. eauto 10.
    + eapply IH; [exact Hdet' | exact H1 | exact H2' | exact Hrun].
  - destruct (QM.Qlt_bool _ _).
    + inversion Hrun; subst. eauto 10.
    + eapply IH; [exact Hdet'' | exact H2' | exact H1 | exact Hrun].
Qed.

Lemma lincomb_fst (v1 v2 : QM.vec) : QM.veq v1 (lincomb 1 0 v1 v2).
Proof. split_vec v1. split_vec v2. unfold lincomb, QM.veq. cbn. repeat split; ring. Qed.

Lemma lincomb_snd (v1 v2 : QM.vec) : QM.veq v2 (lincomb 0 1 v1 v2).
Proof. split_vec v1. split_vec v2. unfold lincomb, QM.veq. cbn. repeat split; ring. Qed.

Lemma gaussian_reduction_combination (v1 v2 : QM.vec) (eps : Q) (a b : QM.vec) :
  gaussian_reduction v1 v2 eps = Ok (a, b) ->
  exists p q r s : Z,
    (p * s - q * r = 1 \/ p * s - q * r = -1) /\
    QM.veq a (lincomb p q v1 v2) /\ QM.veq b (lincomb r s v1 v2).
Proof.
  unfold gaussian_reduction. intros Hrun.
  destruct (sort_pair_cases v1 v2) as [[Es _] | [Es _]]; rewrite Es in Hrun.
  - eapply (gaussian_loop_lattice 10 v1 v2 v1 v2 eps a b 1 0 0 1);
      [lia | apply lincomb_fst | apply lincomb_snd | exact Hrun].
  - eapply (gaussian_loop_lattice 10 v1 v2 v2 v1 eps a b 0 1 1 0);
      [lia | apply lincomb_snd | apply lincomb_fst | exact Hrun].
Qed.

(** The vectors [gaussian_reduction] returns generate the same
    two-dimensional lattice as its arguments: they are integer combinations
    of them with a coefficient matrix of determinant 1 or -1. *)
Theorem gaussian_reduction_same_lattice (v1 v2 : QM.vec) (eps : Q) (a b : QM.vec) :
  gaussian_reduction v1 v2 eps = Ok (a, b) ->
  exists p q r s : Z,
    (p * s - q * r = 1 \/ p * s - q * r = -1) /\
    QM.veq a (lincomb p q v1 v2) /\ QM.veq b (lincomb r s v1 v2).
Proof. apply gaussian_reduction_combination. Qed.

Lemma gaussian_reduction_same_lattice_witness :
  exists p q r s : Z,
    (p * s - q * r = 1 \/ p * s - q * r = -1) /\
    QM.veq (1, 0, 0)%Q (lincomb p q (3, 1, 0)%Q (2, 1, 0)%Q) /\
    QM.veq (0, 1, 0)%Q (lincomb r s (3, 1, 0)%Q (2, 1, 0)%Q).
Proof.
  apply (gaussian_reduction_same_lattice (3, 1, 0)%Q (2, 1, 0)%Q (1 # 10000000000)).
  vm_compute. reflexivity.
Defined.

Lemma dot_sym (u v : QM.vec) : (QM.dot u v == QM.dot v u)%Q.
Proof. split_vec u. split_vec v. cbn. ring. Qed.

Lemma size_reduced_step (u1 u2 : QM.vec) :
  ~ (QM.dot u1 u1 == 0)%Q ->
  (2 * Qabs (QM.dot u1 (QM.vsub u2
       (QM.vscale (inject_Z (QM.rint (QM.dot u1 u2 / QM.dot u1 u1))) u1)))
   <= QM.dot u1 u1)%Q.
Proof.
  intros Hnz. pose proof (dot_self_nonneg u1) as Hn.
  pose proof (rint_near (QM.dot u1 u2 / QM.dot u1 u1)) as Hr.
  set (k := inject_Z (QM.rint (QM.dot u1 u2 / QM.dot u1 u1))) in *.
  assert (E : (QM.dot u1 (QM.vsub u2 (QM.vscale k u1))
               == (QM.dot u1 u2 / QM.dot u1 u1 - k) * QM.dot u1 u1)%Q).
  { transitivity (QM.dot u1 u2 - k * QM.dot u1 u1)%Q.
    - clearbody k. clear. split_vec u1. split_vec u2. cbn. ring.
    - field. exact Hnz. }
  rewrite E. rewrite Qabs_Qmult.
  rewrite (Qabs_pos (QM.dot u1 u1)) by exact Hn.
  set (d := QM.dot u1 u1) in *. set (t := Qabs _) in *.
  clearbody t d. nra.
Qed.

Lemma gaussian_loop_sorted (limit : nat) :
  forall (u1 u2 : QM.vec) (eps : Q) (a b : QM.vec),
    gaussian_loop limit u1 u2 eps = Ok (a, b) ->
    (QM.norm a <= QM.norm b)%Q /\
    ((2 * Qabs (QM.dot a b) <= QM.dot a a)%Q \/ (2 * Qabs (QM.dot a b) <= QM.dot b b)%Q).
Proof.
  induction limit as [| limit IH]; intros u1 u2 eps a b Hrun; [discriminate |].
  cbn [gaussian_loop] in Hrun.
  destruct (Qeq_bool (QM.dot u1 u1) 0) eqn:Ez; [discriminate |].
  assert (Hnz : ~ (QM.dot u1 u1 == 0)%Q).
  { intros E. apply Qeq_bool_iff in E. congruence. }
  pose proof (size_reduced_step u1 u2 Hnz) as Hsz.
  set (u2' := QM.vsub u2 _) in *.
  destruct (sort_pair_cases u1 u2') as [[Es Hle] | [Es Hlt]]; rewrite Es in Hrun.
  - destruct (QM.Qlt_bool _ _).
    + injection Hrun as <- <-. split; [exact Hle | left; exact Hsz].
    + eapply IH; exact Hrun.
  - destruct (QM.Qlt_bool _ _).
    + injection Hrun as <- <-. split; [lra |]. right.
      rewrite (Qabs_wd _ _ (dot_sym u2' u1)). exact Hsz.
    + eapply IH; exact Hrun.
Qed.

(** When [gaussian_reduction] returns, the first vector is no longer than
    the second, and the pair is size-reduced: twice their inner product
    does not exceed, in absolute value, the squared length of the vector
    whose multiple was subtracted last. *)
Theorem gaussian_reduction_sorted (v1 v2 : QM.vec) (eps : Q) (a b : QM.vec) :
  gaussian_reduction v1 v2 eps = Ok (a, b) ->
  (QM.norm a <= QM.norm b)%Q /\
  ((2 * Qabs (QM.dot a b) <= QM.dot a a)%Q \/ (2 * Qabs (QM.dot a b) <= QM.dot b b)%Q).
Proof.
  unfold gaussian_reduction. intros Hrun.
  destruct (sort_pair v1 v2) as [u1 u2]. eapply gaussian_loop_sorted; exact Hrun.
Qed.

Lemma gaussian_reduction_sorted_witness :
  (QM.norm (1, 0, 0)%Q <= QM.norm (0, 1, 0)%Q)%Q /\
  ((2 * Qabs (QM.dot (1, 0, 0)%Q (0, 1, 0)%Q) <= QM.dot (1, 0, 0)%Q (1, 0, 0)%Q)%Q \/
   (2 * Qabs (QM.dot (1, 0, 0)%Q (0, 1, 0)%Q) <= QM.dot (0, 1, 0)%Q (0, 1, 0)%Q)%Q).
Proof.
  apply (gaussian_reduction_sorted (3, 1, 0)%Q (2, 1, 0)%Q (1 # 10000000000)).
  vm_compute. reflexivity.
Defined.

Lemma veq_zero_dot (v : QM.vec) : QM.veq v (0, 0, 0)%Q -> (QM.dot v v == 0)%Q.
Proof. split_vec v. cbn. intros (E1 & E2 & E3). rewrite E1, E2, E3. ring. Qed.

Lemma gaussian_loop_zero (limit : nat) (u1 u2 : QM.vec) (eps : Q) :
  (QM.dot u1 u1 == 0)%Q -> gaussian_loop limit u1 u2 eps = Raise (ValueError gaussian_msg).
Proof.
  intros E. destruct limit; [reflexivity |]. cbn [gaussian_loop].
  apply Qeq_bool_iff in E. rewrite E. reflexivity.
Qed.

(** A zero vector among the arguments is never returned: the quotient is
    0/0, and the function ends with its non-convergence error. *)
Theorem gaussian_reduction_zero_vector (v1 v2 : QM.vec) (eps : Q) :
  QM.veq v1 (0, 0, 0)%Q \/ QM.veq v2 (0, 0, 0)%Q ->
  gaussian_reduction v1 v2 eps = Raise (ValueError gaussian_msg).
Proof.
  intros Hz. unfold gaussian_reduction.
  destruct (sort_pair_cases v1 v2) as [[Es Hle] | [Es Hlt]]; rewrite Es;
    apply gaussian_loop_zero.
  - destruct Hz as [Hz | Hz]; [now apply veq_zero_dot |].
    apply norm_zero_dot. apply veq_zero_dot in Hz.
    unfold QM.norm in Hle |- *. rewrite (sqrt_comp _ _ Hz) in Hle.
    exact Hle.
  - destruct Hz as [Hz | Hz]; [| now apply veq_zero_dot].
    apply veq_zero_dot in Hz. unfold QM.norm in Hlt.
    rewrite (sqrt_comp _ _ Hz) in Hlt. pose proof (sqrt_nonneg (QM.dot v2 v2)).
    exfalso. change (QM.sqrt 0) with 0%Q in Hlt. lra.
Qed.

Lemma gaussian_reduction_zero_vector_witness :
  gaussian_reduction (0, 0, 0)%Q (1, 2, 3)%Q (1 # 10000000000)
  = Raise (ValueError gaussian_msg).
Proof.
  apply gaussian_reduction_zero_vector. left. repeat split; reflexivity.
Defined.

(** *** [minkowski_reduce_basis] *)

Definition columns_of (M : QM.mat) : list QM.vec := [col M 0; col M 1; col M 2].

Lemma columns_of_transpose (a b c : QM.vec) : columns_of (transpose (a, b, c)) = [a; b; c].
Proof. split_vec a. split_vec b. split_vec c. reflexivity. Qed.

Lemma cols_transpose (a b c : QM.vec) :
  col (transpose (a, b, c)) 0 = a /\ col (transpose (a, b, c)) 1 = b
  /\ col (transpose (a, b, c)) 2 = c.
Proof. split_vec a. split_vec b. split_vec c. repeat split; reflexivity. Qed.

Lemma cols_swap (a b c : QM.vec) :
  col (swap_rows_columns (transpose (a, b, c)) 1 2 false) 0 = a
  /\ col (swap_rows_columns (transpose (a, b, c)) 1 2 false) 1 = c
  /\ col (swap_rows_columns (transpose (a, b, c)) 1 2 false) 2 = b.
Proof. split_vec a. split_vec b. split_vec c. repeat split; reflexivity. Qed.

Lemma sort_columns_spec (M : QM.mat) :
  exists a b c : QM.vec,
    sort_columns M = transpose (a, b, c) /\
    Permutation [a; b; c] (columns_of M) /\
    (QM.norm a <= QM.norm b)%Q /\ (QM.norm b <= QM.norm c)%Q.
Proof.
  unfold sort_columns, columns_of.
  set (x := col M 0). set (y := col M 1). set (z := col M 2). clearbody x y z.
  cbn [fold_left norm_insert].
  destruct (QM.Qlt_bool (QM.norm y) (QM.norm x)) eqn:Eyx; cbn [norm_insert];
    [apply Qlt_bool_true in Eyx | apply Qlt_bool_false in Eyx].
  - destruct (QM.Qlt_bool (QM.norm z) (QM.norm y)) eqn:Ezy; cbn [norm_insert];
      [apply Qlt_bool_true in Ezy | apply Qlt_bool_false in Ezy].
    + exists z, y, x. repeat split; try lra.
      apply Permutation_rev with (l := [x; y; z]) || apply (Permutation_sym (Permutation_rev [x; y; z])).
    + destruct (QM.Qlt_bool (QM.norm z) (QM.norm x)) eqn:Ezx;
        [apply Qlt_bool_true in Ezx | apply Qlt_bool_false in Ezx].
      * exists y, z, x. repeat split; try lra.
        etransitivity; [apply perm_skip, perm_swap | apply perm_swap].
      * exists y, x, z. repeat split; try lra. apply perm_swap.
  - destruct (QM.Qlt_bool (QM.norm z) (QM.norm x)) eqn:Ezx; cbn [norm_insert];
      [apply Qlt_bool_true in Ezx | apply Qlt_bool_false in Ezx].
    + exists z, x, y. repeat split; try lra.
      etransitivity; [apply perm_swap | apply perm_skip, perm_swap].
    + destruct (QM.Qlt_bool (QM.norm z) (QM.norm y)) eqn:Ezy;
        [apply Qlt_bool_true in Ezy | apply Qlt_bool_false in Ezy].
      * exists x, z, y. repeat split; try lra. apply perm_skip, perm_swap.
      * exists x, y, z. repeat split; try lra. reflexivity.
Qed.

Lemma det_swap_columns (a b c : QM.vec) :
  (QM.det (swap_rows_columns (transpose (a, b, c)) 1 2 false)
   == - QM.det (transpose (a, b, c)))%Q.
Proof. split_vec a. split_vec b. split_vec c. cbn. ring. Qed.

Lemma columns_of_swap (a b c : QM.vec) :
  columns_of (swap_rows_columns (transpose (a, b, c)) 1 2 false) = [a; c; b].
Proof. split_vec a. split_vec b. split_vec c. reflexivity. Qed.

(** What the lines after the loop of [minkowski_reduce_basis] do with the
    basis the loop ends with. *)
Lemma minkowski_reduce_basis_Ok (L : QM.mat) (rtol atol eps : Q) (B : QM.mat) :
  minkowski_reduce_basis L rtol atol eps = Ok (Value B) ->
  exists (M : QM.mat) (a b c : QM.vec),
    minkowski_loop 10 L rtol atol eps = Ok (Value M) /\
    check_minkowski_conditions M eps = true /\
    sort_columns M = transpose (a, b, c) /\
    Permutation [a; b; c] (columns_of M) /\
    (QM.norm a <= QM.norm b)%Q /\ (QM.norm b <= QM.norm c)%Q /\
    ((B = transpose (a, b, c) /\ (0 <= QM.det B + eps)%Q) \/
     (B = swap_rows_columns (transpose (a, b, c)) 1 2 false /\
      (QM.det (transpose (a, b, c)) + eps < 0)%Q)).
Proof.
  unfold minkowski_reduce_basis. intros Hrun.
  destruct (QM.isclose (QM.det L) 0 rtol atol); [discriminate |].
  destruct (minkowski_loop 10 L rtol atol eps) as [[M | name] | e |];
    cbn [mbind outcome_bind] in Hrun; try discriminate.
  destruct (check_minkowski_conditions M eps) eqn:Hcheck; cbn [negb] in Hrun;
    [| discriminate].
  destruct (sort_columns_spec M) as (a & b & c & Es & Hp & Hab & Hbc).
  rewrite Es in Hrun. exists M, a, b, c.
  repeat (split; [assumption || reflexivity |]).
  destruct (QM.Qlt_bool (QM.det (transpose (a, b, c)) + eps) 0) eqn:Ed;
    injection Hrun as <-.
  - right. split; [reflexivity |]. now apply Qlt_bool_true.
  - left. split; [reflexivity |]. now apply Qlt_bool_false.
Qed.

(** [minkowski_reduce_basis] never returns a basis whose determinant is
    below [-eps]. *)
Theorem minkowski_reduce_basis_orientation (L : QM.mat) (rtol atol eps : Q) (B : QM.mat) :
  (0 <= eps)%Q ->
  minkowski_reduce_basis L rtol atol eps = Ok (Value B) ->
  (- eps <= QM.det B)%Q.
Proof.
  intros Heps Hrun.
  destruct (minkowski_reduce_basis_Ok _ _ _ _ _ Hrun)
    as (M & a & b & c & _ & _ & _ & _ & _ & _ & [[-> Hd] | [-> Hd]]).
  - lra.
  - rewrite det_swap_columns. lra.
Qed.

Definition left_handed : QM.mat := ((1, 0, 0), (0, 2, 0), (0, 0, -3))%Q.

Lemma minkowski_reduce_basis_orientation_witness :
  (- (1 # 10000000000) <= QM.det ((1, 0, 0), (0, 0, 2), (0, -3, 0))%Q)%Q.
Proof.
  apply (minkowski_reduce_basis_orientation left_handed (1 # 10000) (1 # 1000000)).
  - vm_compute. discriminate.
  - vm_compute. reflexivity.
Defined.

(** A basis that [minkowski_reduce_basis] returns has the columns of a
    basis that passed the twelve tests of [check_minkowski_conditions], and
    its first column is a shortest one. *)
Theorem minkowski_reduce_basis_checked (L : QM.mat) (rtol atol eps : Q) (B : QM.mat) :
  minkowski_reduce_basis L rtol atol eps = Ok (Value B) ->
  exists M : QM.mat,
    check_minkowski_conditions M eps = true /\
    Permutation (columns_of B) (columns_of M) /\
    (QM.norm (col B 0) <= QM.norm (col B 1))%Q /\
    (QM.norm (col B 0) <= QM.norm (col B 2))%Q.
Proof.
  intros Hrun.
  destruct (minkowski_reduce_basis_Ok _ _ _ _ _ Hrun)
    as (M & a & b & c & _ & Hcheck & _ & Hp & Hab & Hbc & [[-> _] | [-> _]]);
    exists M; (split; [exact Hcheck |]).
  - rewrite columns_of_transpose. split; [exact Hp |].
    destruct (cols_transpose a b c) as (-> & -> & ->). split; lra.
  - rewrite columns_of_swap. split.
    + etransitivity; [apply perm_skip, perm_swap | exact Hp].
    + destruct (cols_swap a b c) as (-> & -> & ->). split; lra.
Qed.

Lemma minkowski_reduce_basis_checked_witness :
  exists M : QM.mat,
    check_minkowski_conditions M (1 # 10000000000) = true /\
    Permutation (columns_of ((1, 0, 0), (0, 0, 2), (0, -3, 0))%Q) (columns_of M) /\
    (QM.norm (col ((1, 0, 0), (0, 0, 2), (0, -3, 0))%Q 0)
     <= QM.norm (col ((1, 0, 0), (0, 0, 2), (0, -3, 0))%Q 1))%Q /\
    (QM.norm (col ((1, 0, 0), (0, 0, 2), (0, -3, 0))%Q 0)
     <= QM.norm (col ((1, 0, 0), (0, 0, 2), (0, -3, 0))%Q 2))%Q.
Proof.
  apply (minkowski_reduce_basis_checked left_handed (1 # 10000) (1 # 1000000)).
  vm_compute. reflexivity.
Defined.

(** The sign convention can undo the ascending order: for the left-handed
    basis with columns (1,0,0), (0,2,0), (0,0,-3) the returned basis has its
    two last columns swapped, the longest one second. *)
Lemma minkowski_reduce_basis_not_ascending :
  exists B : QM.mat,
    minkowski_reduce_basis left_handed (1 # 10000) (1 # 1000000) (1 # 10000000000)
    = Ok (Value B) /\
    (QM.norm (col B 2) + (1 # 10000000000) < QM.norm (col B 1))%Q /\
    check_minkowski_conditions B (1 # 10000000000) = false.
Proof.
  eexists. split; [vm_compute; reflexivity |]. split; vm_compute; reflexivity.
Qed.

(** [v] is a point of the lattice that the columns of [G] generate. *)
Definition in_lattice (G : QM.mat) (v : QM.vec) : Prop :=
  exists n : ZM.vec, QM.veq v (QM.mvmul G (QM.of_Z n)).

Lemma in_lattice_comb (G : QM.mat) (u v w x : QM.vec) (p q r : Z) :
  in_lattice G u -> in_lattice G v -> in_lattice G w ->
  QM.veq x (QM.vadd (lincomb p q u v) (QM.vscale (inject_Z r) w)) ->
  in_lattice G x.
Proof.
  intros [nu Hu] [nv Hv] [nw Hw] Hx.
  exists (zvadd (zvadd (ZM.vscale p nu) (ZM.vscale q nv)) (ZM.vscale r nw)).
  split_mat G. split_vec u. split_vec v. split_vec w. split_vec x.
  split_vec nu. split_vec nv. split_vec nw.
  unfold lincomb, QM.veq in *. cbn in *.
  destruct Hu as (U1 & U2 & U3). destruct Hv as (V1 & V2 & V3).
  destruct Hw as (W1 & W2 & W3). destruct Hx as (X1 & X2 & X3).
  rewrite X1, X2, X3, U1, U2, U3, V1, V2, V3, W1, W2, W3.
  rewrite !inject_Z_plus, !inject_Z_mult. repeat split; ring.
Qed.

Lemma in_lattice_col (G : QM.mat) : Forall (in_lattice G) (columns_of G).
Proof.
  split_mat G. unfold columns_of. repeat constructor.
  - exists (1, 0, 0). cbn. repeat split; ring.
  - exists (0, 1, 0). cbn. repeat split; ring.
  - exists (0, 0, 1). cbn. repeat split; ring.
Qed.

Lemma Forall3 {A : Type} (P : A -> Prop) (a b c : A) :
  Forall P [a; b; c] <-> P a /\ P b /\ P c.
Proof.
  split.
  - intros H. inversion H as [| ? ? Ha H']; subst.
    inversion H' as [| ? ? Hb H'']; subst. inversion H'' as [| ? ? Hc _]; subst.
    auto.
  - intros (Ha & Hb & Hc). repeat constructor; assumption.
Qed.

Lemma lincomb_pad (p q : Z) (u v w x : QM.vec) :
  QM.veq x (lincomb p q u v) ->
  QM.veq x (QM.vadd (lincomb p q u v) (QM.vscale (inject_Z 0) w)).
Proof.
  split_vec u. split_vec v. split_vec w. split_vec x.
  unfold lincomb, QM.veq. cbn. intros (E1 & E2 & E3).
  rewrite E1, E2, E3. repeat split; ring.
Qed.

Lemma corner_comb (a b c : QM.vec) (n : ZM.vec) :
  QM.veq (QM.vsub c (QM.mvmul (transpose (a, b, c)) (QM.of_Z n)))
         (QM.vadd (lincomb (- get n 0) (- get n 1) a b)
                  (QM.vscale (inject_Z (1 - get n 2)) c)).
Proof.
  split_vec a. split_vec b. split_vec c. split_vec n.
  unfold lincomb, QM.veq. cbn. unfold Zminus.
  rewrite !inject_Z_plus, !inject_Z_opp. change (inject_Z 1) with 1%Q.
  repeat split; ring.
Qed.

Lemma reduce_lattice_vector_sub (G M : QM.mat) (rtol atol eps : Q) (R : QM.mat) :
  Forall (in_lattice G) (columns_of M) ->
  reduce_lattice_vector M rtol atol eps = Ok (Value R) ->
  Forall (in_lattice G) (columns_of R).
Proof.
  unfold columns_of at 1. rewrite Forall3. intros (H1 & H2 & H3).
  unfold reduce_lattice_vector.
  destruct (gaussian_reduction (col M 0) (col M 1) eps) as [[v1r v2r] | e |] eqn:Eg;
    cbn [mbind outcome_bind]; try discriminate.
  destruct (gaussian_reduction_combination _ _ _ _ _ Eg)
    as (p & q & r & s & _ & Ha & Hb).
  assert (L1 : in_lattice G v1r)
    by (apply (in_lattice_comb G _ _ (col M 2) v1r p q 0 H1 H2 H3), lincomb_pad, Ha).
  assert (L2 : in_lattice G v2r)
    by (apply (in_lattice_comb G _ _ (col M 2) v2r r s 0 H1 H2 H3), lincomb_pad, Hb).
  destruct (QM.isclose _ _ rtol atol); [discriminate |].
  destruct (QM.inv _) as [inv_temp | e |]; cbn [mbind outcome_bind]; try discriminate.
  destruct (negb _); [discriminate |].
  destruct (list_get _ _) as [corner | e |] eqn:Ec; cbn [mbind outcome_bind];
    try discriminate.
  destruct (check_commensurate _ _ _ _) as [[N |] | e |]; cbn [mbind outcome_bind];
    try discriminate.
  intros E. injection E as <-.
  rewrite columns_of_transpose, Forall3. split; [exact L1 |]. split; [exact L2 |].
  apply list_get_Ok in Ec. apply list_elem_of_lookup_2 in Ec.
  apply list_elem_of_In, in_map_iff in Ec. destruct Ec as (n & <- & _).
  exact (in_lattice_comb G v1r v2r (col M 2) _ _ _ _ L1 L2 H3
           (corner_comb v1r v2r (col M 2) n)).
Qed.

Lemma sort_columns_sub (G M : QM.mat) :
  Forall (in_lattice G) (columns_of M) -> Forall (in_lattice G) (columns_of (sort_columns M)).
Proof.
  intros H. destruct (sort_columns_spec M) as (a & b & c & -> & Hp & _).
  rewrite columns_of_transpose. eapply Permutation_Forall; [symmetry; exact Hp | exact H].
Qed.

Lemma minkowski_loop_S (limit : nat) (M : QM.mat) (rtol atol eps : Q) :
  minkowski_loop (Datatypes.S limit) M rtol atol eps
  = (r ← reduce_lattice_vector (sort_columns M) rtol atol eps;
     match r with
     | NameError name => Ok (NameError name)
     | Value lat_vecs =>
         if Qle_bool (QM.norm (col lat_vecs 1) - eps) (QM.norm (col lat_vecs 2))
         then Ok (Value lat_vecs)
         else minkowski_loop limit lat_vecs rtol atol eps
     end).
Proof. reflexivity. Qed.

Lemma minkowski_loop_sub (G : QM.mat) (rtol atol eps : Q) (limit : nat) :
  forall M R : QM.mat,
    Forall (in_lattice G) (columns_of M) ->
    minkowski_loop limit M rtol atol eps = Ok (Value R) ->
    Forall (in_lattice G) (columns_of R).
Proof.
  induction limit as [| limit IH]; intros M R HM Hrun.
  - injection Hrun as <-. exact HM.
  - rewrite minkowski_loop_S in Hrun.
    destruct (reduce_lattice_vector (sort_columns M) rtol atol eps)
      as [[M' | name] | e |] eqn:Er; cbn [mbind outcome_bind] in Hrun;
      try discriminate.
    pose proof (reduce_lattice_vector_sub G _ _ _ _ _ (sort_columns_sub G M HM) Er) as HM'.
    destruct (Qle_bool _ _).
    + injection Hrun as <-. exact HM'.
    + exact (IH M' R HM' Hrun).
Qed.

(** Every vector of a basis that [minkowski_reduce_basis] returns is an
    integer combination of the vectors of the basis it was given. *)
Theorem minkowski_reduce_basis_sublattice (L : QM.mat) (rtol atol eps : Q) (B : QM.mat) :
  minkowski_reduce_basis L rtol atol eps = Ok (Value B) ->
  Forall (in_lattice L) (columns_of B).
Proof.
  intros Hrun.
  destruct (minkowski_reduce_basis_Ok _ _ _ _ _ Hrun)
    as (M & a & b & c & Hloop & _ & Es & _ & _ & _ & HB).
  pose proof (minkowski_loop_sub L rtol atol eps 10 L M (in_lattice_col L) Hloop) as HM.
  apply sort_columns_sub in HM. rewrite Es, columns_of_transpose in HM.
  destruct HB as [[-> _] | [-> _]].
  - rewrite columns_of_transpose. exact HM.
  - rewrite columns_of_swap. apply Forall3. apply Forall3 in HM. tauto.
Qed.

Definition skew_basis : QM.mat := ((1, 1, 2), (0, 1, 5), (0, 0, 1))%Q.

Lemma minkowski_reduce_basis_sublattice_witness :
  Forall (in_lattice skew_basis) (columns_of QM.eye).
Proof.
  apply (minkowski_reduce_basis_sublattice skew_basis (1 # 10000) (1 # 1000000)
           (1 # 10000000000)).
  vm_compute. reflexivity.
Defined.

(** ** Primitive translation vectors ([make_ptvecs]) *)

(** An argument that the source tests with [type(...)]: a list (or
    array) of numbers, or a bare number. *)
Inductive pyarg : Type :=
| PyList (l : list Q)
| PyNumber (x : Q).

(** [np.pi], [2*np.pi/3] and [np.pi/2] as the binary64 values they are *)
Definition np_pi : Q := 884279719003555 # 281474976710656.
Definition two_pi_thirds : Q := 4716158501352293 # 2251799813685248.
Definition half_pi : Q := 884279719003555 # 562949953421312.

(** [np.sort] *)
Fixpoint Qinsert (x : Q) (l : list Q) : list Q :=
  match l with
  | [] => [x]
  | y :: l' => if Qle_bool x y then x :: l else y :: Qinsert x l'
  end.
Definition Qsort (l : list Q) : list Q := fold_right Qinsert [] l.

(** [np.sum] and [max] *)
Definition Qsum (l : list Q) : Q := fold_right Qplus 0%Q l.
Definition Qmax_list (l : list Q) : outcome Q :=
  match l with
  | [] => Raise (ValueError "max() arg is an empty sequence")
  | x :: l' => Ok (fold_left Qmax l' x)
  end.

Definition lindep_angles_msg : string :=
  "The sum of the two smallest lattice angles must be greater than the largest lattice angle for the lattice vectors to be linearly independent.".
Definition lindep_equal_msg : string :=
  "The lattice vectors are linearly dependent with all angles equal to 2pi/3.".

Section MakePtvecs.
(** [np.cos] and [np.sin] are parameters. The quotient by [sin gamma]
and the square root are those of the exact rationals: a zero sine
and a negative radicand, which give inf and nan in the source, are
outside the model. *)
Variables cos sin : Q -> Q.
Local Open Scope Q_scope.

Definition close (a b : Q) : bool := QM.isclose a b QM.rtol_default QM.atol_default.

(** [np.transpose(np.array([av, bv, cv]))] *)
Definition columns (av bv cv : QM.vec) : QM.mat := transpose (av, bv, cv).

Definition make_ptvecs (center_type : string) (lat_consts lat_angles : pyarg)
: outcome QM.mat :=
match lat_consts with
| PyNumber _ =>
  Raise (ValueError "The lattice constants must be in a list or numpy array.")
| PyList lat_consts =>
match lat_angles with
| PyNumber _ =>
  Raise (ValueError "The lattice angles must be in a list or numpy array.")
| PyList lat_angles =>
  let two_smallest := Qsum (take 2 (Qsort lat_angles)) in
  largest ← Qmax_list lat_angles;
  if QM.Qlt_bool two_smallest largest || close two_smallest largest then
    Raise (ValueError lindep_angles_msg)
  else
  (* extract the angles *)
  alpha ← list_get lat_angles 0;
  beta ← list_get lat_angles 1;
  gamma ← list_get lat_angles 2;
  if close alpha beta && close beta gamma && close beta (2 * np_pi / 3) then
    Raise (ValueError lindep_equal_msg)
  else
  (* extract the lattice constants *)
  a ← list_get lat_consts 0;
  b ← list_get lat_consts 1;
  c ← list_get lat_consts 2;
  let avec : QM.vec := (a, 0, 0) in
  let bvec : QM.vec := (b * cos gamma, b * sin gamma, 0) in
  let cy := c / sin gamma * (cos alpha - cos beta * cos gamma) in
  let cvec : QM.vec :=
    (c * cos beta, cy,
     QM.sqrt (QM.round_dec (c * c - (c * cos beta) * (c * cos beta) - cy * cy) 15)) in
  let rotate : QM.mat :=
    ((cos (gamma / 2), sin (gamma / 2), 0),
     (- sin (gamma / 2), cos (gamma / 2), 0),
     (0, 0, 1)) in
  if String.eqb center_type "prim" then
    if (close a b && negb (close b c)) && close alpha beta
       && close beta (np_pi / 2) && close gamma (2 * np_pi / 3) then
      (* the hexagonal vectors are rotated *)
      Ok (columns (QM.mvmul rotate avec) (QM.mvmul rotate bvec) (QM.mvmul rotate cvec))
    else if close alpha beta && close beta gamma && negb (close beta (np_pi / 2))
            && close a b && close b c then
      (* so are the rhombohedral ones *)
      Ok (columns (QM.mvmul rotate avec) (QM.mvmul rotate bvec) (QM.mvmul rotate cvec))
    else Ok (columns avec bvec cvec)
  else if String.eqb center_type "base" then
    let av := QM.vscale (1 # 2) (QM.vsub avec bvec) in
    let bv := QM.vscale (1 # 2) (QM.vadd avec bvec) in
    let cv := cvec in
    if QM.Qlt_bool alpha (np_pi / 2) && close beta (np_pi / 2)
       && close gamma (np_pi / 2) && Qle_bool a c && Qle_bool b c
       && negb (close a b || close b c || close a c) then
      Ok (columns (QM.vscale (1 # 2) (QM.vadd avec bvec))
                  (QM.vscale (1 # 2) (QM.vadd (QM.vscale (-1) avec) bvec))
                  cvec)
    else Ok (columns av bv cv)
  else if negb (QM.Qlt_bool c a || QM.Qlt_bool c b) && close beta gamma
          && close beta (np_pi / 2) && QM.Qlt_bool alpha (np_pi / 2) then
    Ok (columns (QM.vscale (1 # 2) (QM.vadd avec bvec))
                (QM.vscale (1 # 2) (QM.vadd (QM.vscale (-1) avec) bvec))
                cvec)
  else if String.eqb center_type "body" then
    Ok (columns
          (QM.vscale (1 # 2) (QM.vadd (QM.vadd (QM.vscale (-1) avec) bvec) cvec))
          (QM.vscale (1 # 2) (QM.vadd (QM.vsub avec bvec) cvec))
          (QM.vscale (1 # 2) (QM.vsub (QM.vadd avec bvec) cvec)))
  else if String.eqb center_type "face" then
    Ok (columns (QM.vscale (1 # 2) (QM.vadd bvec cvec))
                (QM.vscale (1 # 2) (QM.vadd avec cvec))
                (QM.vscale (1 # 2) (QM.vadd avec bvec)))
  else Raise (ValueError "Please provide a valid centering type.")
end
end.
End MakePtvecs.

(** *** The errors of [make_ptvecs] *)

(** The two tests the source applies to the three angles. *)
Definition degenerate_angles (alpha beta gamma : Q) : bool :=
  let two_smallest := Qsum (take 2 (Qsort [alpha; beta; gamma])) in
  let largest := Qmax (Qmax alpha beta) gamma in
  QM.Qlt_bool two_smallest largest || close two_smallest largest
  || (close alpha beta && close beta gamma && close beta (2 * np_pi / 3)).

(** The test of the branch between the base-centered and the
    body-centered one. *)
Definition monoclinic_like (a b c alpha beta gamma : Q) : bool :=
  negb (QM.Qlt_bool c a || QM.Qlt_bool c b) && close beta gamma
  && close beta (np_pi / 2) && QM.Qlt_bool alpha (np_pi / 2).

Ltac case_if :=
  match goal with
  | |- context [if ?c then _ else _] => destruct c eqn:?
  end.

(** With three angles given, [make_ptvecs] raises its first
    linear-dependence error exactly when the sum of the two smallest
    angles does not exceed the largest by more than the tolerance of
    [np.isclose], [1e-8 + 1e-5*|largest|]; neither the centering type nor
    the lattice constants are looked at before. *)
Theorem make_ptvecs_angle_error (cos sin : Q -> Q) (center_type : string)
    (lat_consts : list Q) (alpha beta gamma : Q) :
  make_ptvecs cos sin center_type (PyList lat_consts) (PyList [alpha; beta; gamma])
  = Raise (ValueError lindep_angles_msg)
  <-> (Qsum (take 2 (Qsort [alpha; beta; gamma]))
       <= Qmax (Qmax alpha beta) gamma
          + (QM.atol_default + QM.rtol_default * Qabs (Qmax (Qmax alpha beta) gamma)))%Q.
Proof.
  unfold make_ptvecs.
  cbn [Qmax_list fold_left mbind outcome_bind list_get lookup list_lookup].
  set (s := Qsum _). set (m := Qmax _ _).
  pose proof (Qabs_nonneg m) as Hm.
  assert (Htest : QM.Qlt_bool s m || close s m = true
                  <-> (s <= m + (QM.atol_default + QM.rtol_default * Qabs m))%Q).
  { unfold QM.atol_default, QM.rtol_default in *.
    rewrite orb_true_iff, Qlt_bool_true. unfold close, QM.isclose.
    rewrite Qle_bool_iff. unfold QM.atol_default, QM.rtol_default. split.
    - intros [Hlt | Hc]; [nra |]. apply Qabs_Qle_condition in Hc. nra.
    - intros Hle. destruct (Qlt_le_dec s m) as [Hlt | Hge]; [left; exact Hlt |].
      right. apply Qabs_Qle_condition. split; nra. }
  destruct (QM.Qlt_bool s m || close s m) eqn:E1.
  - split; [intros _; apply Htest; reflexivity | reflexivity].
  - split; [| intros Hle; apply Htest in Hle; discriminate].
    clear Htest. clearbody s m. intros Hrun. exfalso. revert Hrun.
    unfold lindep_angles_msg, lindep_equal_msg.
    case_if; [discriminate |].
    destruct lat_consts as [| a [| b [| c rest]]]; try discriminate.
    cbn [mbind outcome_bind list_get lookup list_lookup].
    repeat case_if; discriminate.
Qed.

Lemma make_ptvecs_angle_error_witness :
  make_ptvecs (fun _ => 0%Q) (fun _ => 1%Q) "prim" (PyList [1; 1; 1]%Q)
              (PyList [1; 1; 262143 # 131072]%Q)
  = Raise (ValueError lindep_angles_msg).
Proof.
  apply (proj2 (make_ptvecs_angle_error (fun _ => 0%Q) (fun _ => 1%Q) "prim"
                  [1; 1; 1]%Q 1 1 (262143 # 131072))).
  vm_compute. discriminate.
Defined.

(** With angles that pass the two tests, lattice constants [a, b <= c]
    and [beta], [gamma] close to a right angle above [alpha], every
    centering type other than "prim" and "base" - "body", "face" or no
    centering type at all - gets the same vectors, and the error for an
    invalid centering type is not raised. *)
Theorem make_ptvecs_centering_ignored (cos sin : Q -> Q) (ct1 ct2 : string)
    (a b c alpha beta gamma : Q) :
  String.eqb ct1 "prim" = false -> String.eqb ct1 "base" = false ->
  String.eqb ct2 "prim" = false -> String.eqb ct2 "base" = false ->
  degenerate_angles alpha beta gamma = false ->
  monoclinic_like a b c alpha beta gamma = true ->
  exists pt_vecs : QM.mat,
    make_ptvecs cos sin ct1 (PyList [a; b; c]) (PyList [alpha; beta; gamma]) = Ok pt_vecs /\
    make_ptvecs cos sin ct2 (PyList [a; b; c]) (PyList [alpha; beta; gamma]) = Ok pt_vecs.
Proof.
  intros P1 B1 P2 B2 Hd Hm. unfold degenerate_angles in Hd.
  apply orb_false_iff in Hd. destruct Hd as [Hd1 Hd2].
  unfold monoclinic_like in Hm. unfold make_ptvecs.
  cbn [Qmax_list fold_left mbind outcome_bind list_get lookup list_lookup].
  rewrite Hd1, Hd2, P1, B1, P2, B2, Hm. eexists. split; reflexivity.
Qed.

Lemma make_ptvecs_centering_ignored_witness :
  exists pt_vecs : QM.mat,
    make_ptvecs (fun _ => 0%Q) (fun _ => 1%Q) "body" (PyList [1; 1; 2]%Q)
                (PyList [1%Q; half_pi; half_pi]) = Ok pt_vecs /\
    make_ptvecs (fun _ => 0%Q) (fun _ => 1%Q) "centred" (PyList [1; 1; 2]%Q)
                (PyList [1%Q; half_pi; half_pi]) = Ok pt_vecs.
Proof.
  apply (make_ptvecs_centering_ignored (fun _ => 0%Q) (fun _ => 1%Q) "body" "centred");
    vm_compute; reflexivity.
Defined.


(** ** What [get_point_group] returns *)

(** In a list given last element first, no operator is close to one that
    was found before it. *)
Fixpoint apart_from_earlier (found : list QM.mat) (rtol atol : Q) : bool :=
  match found with
  | [] => true
  | op :: earlier =>
      forallb (fun q => negb (QM.mallclose op q rtol atol)) earlier
      && apart_from_earlier earlier rtol atol
  end.

(** No operator of the list is close to an earlier one. *)
Definition no_duplicates (ops : list QM.mat) (rtol atol : Q) : bool :=
  apart_from_earlier (rev ops) rtol atol.

(** The operator is orthogonal within the tolerances and takes the
    lattice vectors to lattice points. *)
Definition lattice_symmetry (lat_vecs : QM.mat) (rtol atol : Q) (op : QM.mat) : Prop :=
  QM.mallclose QM.eye (QM.mmul op (transpose op)) rtol atol = true /\
  Forall (fun v => in_lattice lat_vecs (QM.mvmul op v)) (columns_of lat_vecs).

Lemma veq_refl (v : QM.vec) : QM.veq v v.
Proof. split_vec v. cbn. repeat split; reflexivity. Qed.

Lemma Ok_inj {A : Type} (a b : A) : Ok a = Ok b -> a = b.
Proof. intros E. injection E as E. exact E. Qed.

Ltac case_bind :=
  match goal with
  | |- (mbind _ ?m = _) -> _ =>
      destruct m as [? | ? |]; cbn [mbind outcome_bind]; try discriminate
  end.

Lemma search_sphere_in_lattice (lat_vecs : QM.mat) (eps : Q) (pts : list QM.vec) :
  search_sphere lat_vecs eps = Ok pts -> Forall (in_lattice lat_vecs) pts.
Proof.
  unfold search_sphere.
  do 3 case_bind.
  intros E. apply Ok_inj in E. subst pts. apply Forall_forall. intros pt Hin.
  apply list_elem_of_omap in Hin. destruct Hin as (n & _ & Hn).
  destruct (QM.Qlt_bool _ _); [| discriminate]. injection Hn as <-.
  exists n. apply veq_refl.
Qed.

Lemma permutations3_in {A : Type} (pts : list A) (a b c : A) :
  In (a, b, c) (permutations3 pts) -> In a pts /\ In b pts /\ In c pts.
Proof.
  unfold permutations3. intros Hin.
  apply (proj2 (list_elem_of_In _ _)), list_elem_of_bind in Hin. destruct Hin as (p1 & Hin & H1).
  apply list_elem_of_bind in Hin. destruct Hin as (p2 & Hin & H2).
  apply list_elem_of_bind in Hin. destruct Hin as (p3 & Hin & H3).
  destruct (_ && _); [| now apply elem_of_nil in Hin].
  apply list_elem_of_singleton in Hin. injection Hin as -> -> ->.
  apply (proj1 (list_elem_of_In _ _)) in H1, H2, H3.
  destruct p1 as [i1 x1], p2 as [i2 x2], p3 as [i3 x3].
  apply in_combine_r in H1, H2, H3. auto.
Qed.

(** [op . lat_vecs] has the columns of [new_lat_vecs]. *)
Lemma operator_columns (L Li : QM.mat) (p1 p2 p3 : QM.vec) :
  QM.inv L = Ok Li ->
  QM.veq (QM.mvmul (QM.mmul (transpose (p1, p2, p3)) Li) (col L 0)) p1 /\
  QM.veq (QM.mvmul (QM.mmul (transpose (p1, p2, p3)) Li) (col L 1)) p2 /\
  QM.veq (QM.mvmul (QM.mmul (transpose (p1, p2, p3)) Li) (col L 2)) p3.
Proof.
  destruct L as [[[[a b] c] [[d e] f]] [[g h] i]].
  split_vec p1. split_vec p2. split_vec p3.
  unfold QM.inv.
  destruct (Qeq_bool _ 0) eqn:Ed; [discriminate |].
  apply Qeq_bool_neq in Ed. intros E. injection E as <-.
  cbn in Ed |- *. repeat split; field; exact Ed.
Qed.

Lemma in_lattice_veq (G : QM.mat) (u v : QM.vec) :
  QM.veq u v -> in_lattice G v -> in_lattice G u.
Proof.
  intros E [n Hn]. exists n. split_vec u. split_vec v.
  destruct (QM.mvmul G (QM.of_Z n)) as [[x y] z]. cbn in *.
  destruct E as (E1 & E2 & E3). destruct Hn as (N1 & N2 & N3).
  rewrite E1, E2, E3. auto.
Qed.

Lemma point_group_candidate_symmetry (L Li : QM.mat) (rtol atol : Q)
    (pts : list QM.vec) (p : QM.vec * QM.vec * QM.vec) (op : QM.mat) :
  QM.inv L = Ok Li -> Forall (in_lattice L) pts -> In p (permutations3 pts) ->
  point_group_candidate L Li rtol atol p = Some op ->
  lattice_symmetry L rtol atol op.
Proof.
  intros Hinv Hpts Hin. destruct p as [[p1 p2] p3].
  apply permutations3_in in Hin. destruct Hin as (I1 & I2 & I3).
  rewrite Forall_forall in Hpts.
  unfold point_group_candidate.
  destruct (_ && _); [| discriminate].
  destruct (QM.isclose _ _ rtol atol); [| discriminate].
  destruct (QM.mallclose _ _ rtol atol) eqn:Eorth; [| discriminate].
  intros E. injection E as <-. split; [exact Eorth |].
  destruct (operator_columns L Li p1 p2 p3 Hinv) as (C1 & C2 & C3).
  unfold columns_of. apply Forall3.
  split; [| split]; (eapply in_lattice_veq; [eassumption |]);
    apply Hpts, list_elem_of_In; assumption.
Qed.

Lemma existsb_forallb_rev {A : Type} (f : A -> bool) (l : list A) :
  existsb f l = false -> forallb (fun q => negb (f q)) (rev l) = true.
Proof.
  intros H. apply forallb_forall. intros q Hq. apply in_rev in Hq.
  destruct (f q) eqn:E; [| reflexivity].
  assert (existsb f l = true) by (apply existsb_exists; eauto). congruence.
Qed.

Lemma point_group_fold (L Li : QM.mat) (rtol atol : Q) (P : QM.mat -> Prop)
    (triples : list (QM.vec * QM.vec * QM.vec)) :
  (forall p op, In p triples -> point_group_candidate L Li rtol atol p = Some op -> P op) ->
  forall point_group : list QM.mat,
    Forall P point_group -> no_duplicates point_group rtol atol = true ->
    let r :=
      fold_left
        (fun point_group p =>
           match point_group_candidate L Li rtol atol p with
           | Some op =>
               if negb (check_contained [op] point_group rtol atol)
               then point_group ++ [op] else point_group
           | None => point_group
           end)
        triples point_group in
    Forall P r /\ no_duplicates r rtol atol = true.
Proof.
  induction triples as [| p triples IH]; intros HP point_group Hall Hnd; cbn [fold_left].
  - auto.
  - apply IH; [intros; eapply HP; [right |]; eassumption | |];
      destruct (point_group_candidate L Li rtol atol p) as [op |] eqn:Ec; try assumption;
      destruct (check_contained [op] point_group rtol atol) eqn:Ed; cbn [negb];
      try assumption.
    + apply Forall_app. split; [exact Hall |]. constructor; [| constructor].
      eapply HP; [left; reflexivity | exact Ec].
    + unfold no_duplicates in *. rewrite rev_app_distr. cbn [rev app apart_from_earlier].
      rewrite Hnd, andb_true_r. apply existsb_forallb_rev.
      unfold check_contained in Ed. cbn [forallb] in Ed. rewrite andb_true_r in Ed.
      exact Ed.
Qed.

(** Every operator [get_point_group] returns is orthogonal within the
    tolerances and takes the lattice vectors to lattice points, and none is
    within the tolerances of one returned before it. *)
Theorem get_point_group_symmetries (lat_vecs : QM.mat) (rtol atol eps : Q)
    (point_group : list QM.mat) :
  get_point_group lat_vecs rtol atol eps = Ok point_group ->
  Forall (lattice_symmetry lat_vecs rtol atol) point_group /\
  no_duplicates point_group rtol atol = true.
Proof.
  unfold get_point_group.
  destruct (search_sphere lat_vecs eps) as [pts | e |] eqn:Es; cbn [mbind outcome_bind];
    try discriminate.
  destruct (QM.inv lat_vecs) as [inv_lat_vecs | e |] eqn:Ei; cbn [mbind outcome_bind];
    try discriminate.
  intros E. apply Ok_inj in E. subst point_group.
  apply (point_group_fold lat_vecs inv_lat_vecs rtol atol); [| constructor | reflexivity].
  intros p op Hin Hc.
  exact (point_group_candidate_symmetry _ _ _ _ pts p op Ei
           (search_sphere_in_lattice _ _ _ Es) Hin Hc).
Qed.

Lemma get_point_group_symmetries_witness :
  exists point_group : list QM.mat,
    get_point_group QM.eye (1 # 10000) (1 # 1000000) (1 # 1000000000) = Ok point_group /\
    Forall (lattice_symmetry QM.eye (1 # 10000) (1 # 1000000)) point_group /\
    no_duplicates point_group (1 # 10000) (1 # 1000000) = true.
Proof.
  eexists. split.
  - vm_compute. reflexivity.
  - apply (get_point_group_symmetries QM.eye (1 # 10000) (1 # 1000000) (1 # 1000000000)).
    vm_compute. reflexivity.
Defined.



(** ** Reciprocal vectors ([make_rptvecs]) *)







(** ** Bravais lattice type ([find_lattice_type], [number_of_point_operators]) *)

Definition almost_bravais_msg : string :=
  "The lattice constants provided do not appear to correspond to a Bravais lattice. They almost represent a cubic, tetragonal, or orthorhombic lattice.".
Definition no_bravais_msg : string :=
  "The lattice angles provided do not correspond to any Bravais lattice type.".

Definition find_lattice_type (centering_type : string)
    (lattice_constants lattice_angles : list Q) : outcome string :=
  (* extract parameters *)
  a ← list_get lattice_constants 0;
  b ← list_get lattice_constants 1;
  c ← list_get lattice_constants 2;
  alpha ← list_get lattice_angles 0;
  beta ← list_get lattice_angles 1;
  gamma ← list_get lattice_angles 2;
  (* lattices with all angles = pi/2 *)
  if close alpha beta && close beta gamma && close gamma (np_pi / 2) then
    if close a b && close b c then
      if String.eqb centering_type "body" then Ok "body-centered cubic"%string
      else if String.eqb centering_type "prim" then Ok "simple cubic"%string
      else if String.eqb centering_type "face" then Ok "face-centered cubic"%string
      else Raise (ValueError "Valid centering types for cubic lattices include 'prim', 'body', and 'face'.")
    else if close a b && negb (close b c) then
      if String.eqb centering_type "prim" then Ok "tetragonal"%string
      else if String.eqb centering_type "body" then Ok "body-centered tetragonal"%string
      else Raise (ValueError "Valid centering types for tetragonal lattices include 'prim' and 'body'.")
    else if negb (close a b && close b c && close a c) then
      if String.eqb centering_type "body" then Ok "body-centered orthorhombic"%string
      else if String.eqb centering_type "prim" then Ok "orthorhombic"%string
      else if String.eqb centering_type "face" then Ok "face-centered orthorhombic"%string
      else if String.eqb centering_type "base" then Ok "base-centered orthorhombic"%string
      else Raise (ValueError "Valid centering types for orthorhombic lattices include 'prim', 'base', 'body', and 'face'.")
    else Raise (ValueError almost_bravais_msg)
  (* rhombohedral *)
  else if close alpha beta && close beta gamma then
    if close a b && close b c then
      if String.eqb centering_type "prim" then Ok "rhombohedral"%string
      else Raise (ValueError "The only valid centering type for rhombohedral lattices is 'prim'.")
    else Raise (ValueError "All of the lattice constants should have the same value for a rhombohedral lattice")
  (* hexagonal *)
  else if close alpha beta && close beta (np_pi / 2) && close gamma (2 * np_pi / 3) then
    if close a b && negb (close b c) then
      if String.eqb centering_type "prim" then Ok "hexagonal"%string
      else Raise (ValueError "The only valid centering type for hexagonal lattices is 'prim'.")
    else Raise (ValueError "For a hexagonal lattice, a = b != c.")
  (* monoclinic: a, b <= c, alpha < pi/2, beta = gamma = pi/2 *)
  else if close beta gamma && close beta (np_pi / 2) && QM.Qlt_bool alpha (np_pi / 2) then
    if (QM.Qlt_bool a c || close a c) && (QM.Qlt_bool b c || close b c) then
      if String.eqb centering_type "prim" then Ok "monoclinic"%string
      else if String.eqb centering_type "base" then Ok "base-centered monoclinic"%string
      else Raise (ValueError "Valid centering types for monoclinic lattices include 'prim' and 'base'.")
    else Raise (ValueError "The lattice constants of a monoclinic lattice should be arranged such that a, b <= c.")
  (* triclinic *)
  else if negb (close alpha beta && close beta gamma && close alpha gamma) then
    if negb (close a b && close b c && close a c) then
      if String.eqb centering_type "prim" then Ok "triclinic"%string
      else Raise (ValueError "The onld valid centering type for triclinic lattices is 'prim'.")
    else Raise (ValueError "None of the lattice constants are equivalent for a triclinic lattice.")
  else Raise (ValueError no_bravais_msg).

(** The dictionary of [number_of_point_operators], read by key. *)
Definition number_of_point_operators (lattice_type : string) : outcome Z :=
  if String.eqb lattice_type "triclinic" then Ok 2
  else if String.eqb lattice_type "monoclinic" then Ok 4
  else if String.eqb lattice_type "orthorhombic" then Ok 8
  else if String.eqb lattice_type "rhombohedral" then Ok 12
  else if String.eqb lattice_type "tetragonal" then Ok 16
  else if String.eqb lattice_type "hexagonal" then Ok 24
  else if String.eqb lattice_type "cubic" then Ok 48
  else Raise (ValueError "Please provide a Bravais lattice, excluding atom centering, such as 'cubic' or 'hexagonal'.").

Ltac lattice_cases a b c alpha beta gamma :=
  destruct (close alpha beta), (close beta gamma), (close alpha gamma),
    (close a b), (close b c), (close a c);
  cbn [andb orb negb]; repeat case_if.

(** Two of the errors of [find_lattice_type] are never raised: the one for
    constants that almost represent a cubic, tetragonal or orthorhombic
    lattice, and the one for angles that correspond to no Bravais lattice. *)
Theorem find_lattice_type_unreachable_errors (centering_type : string)
    (lattice_constants lattice_angles : list Q) :
  find_lattice_type centering_type lattice_constants lattice_angles
  <> Raise (ValueError almost_bravais_msg) /\
  find_lattice_type centering_type lattice_constants lattice_angles
  <> Raise (ValueError no_bravais_msg).
Proof.
  unfold find_lattice_type, almost_bravais_msg, no_bravais_msg.
  destruct lattice_constants as [| a [| b [| c ?]]];
    try (split; discriminate).
  destruct lattice_angles as [| alpha [| beta [| gamma ?]]];
    try (split; discriminate).
  cbn [mbind outcome_bind list_get lookup list_lookup].
  lattice_cases a b c alpha beta gamma; split; discriminate.
Qed.

(** [find_lattice_type] names a lattice only for one of the four centering
    types. *)
Theorem find_lattice_type_centering (centering_type : string)
    (lattice_constants lattice_angles : list Q) (lattice_type : string) :
  find_lattice_type centering_type lattice_constants lattice_angles = Ok lattice_type ->
  In centering_type ["prim"; "base"; "body"; "face"]%string.
Proof.
  unfold find_lattice_type.
  destruct lattice_constants as [| a [| b [| c ?]]]; try discriminate.
  destruct lattice_angles as [| alpha [| beta [| gamma ?]]]; try discriminate.
  cbn [mbind outcome_bind list_get lookup list_lookup].
  lattice_cases a b c alpha beta gamma; intros E; try discriminate;
    repeat match goal with
           | H : String.eqb _ _ = true |- _ => apply String.eqb_eq in H; subst
           end; cbn; tauto.
Qed.

Lemma find_lattice_type_centering_witness :
  In "body"%string ["prim"; "base"; "body"; "face"]%string.
Proof.
  apply (find_lattice_type_centering "body" [1; 1; 2]%Q [half_pi; half_pi; half_pi]
           "body-centered tetragonal").
  vm_compute. reflexivity.
Defined.

(** The lattice types that [find_lattice_type] returns and
    [number_of_point_operators] accepts are those of the primitive
    centering other than the cubic one: the cubic names carry their
    centering ("simple cubic"), which [number_of_point_operators] refuses. *)
Theorem number_of_point_operators_of_lattice_type (centering_type : string)
    (lattice_constants lattice_angles : list Q) (lattice_type : string) (n : Z) :
  find_lattice_type centering_type lattice_constants lattice_angles = Ok lattice_type ->
  number_of_point_operators lattice_type = Ok n ->
  centering_type = "prim"%string /\ lattice_type <> "simple cubic"%string /\
  In (lattice_type, n)
     [("triclinic", 2); ("monoclinic", 4); ("orthorhombic", 8);
      ("rhombohedral", 12); ("tetragonal", 16); ("hexagonal", 24)]%string.
Proof.
  unfold find_lattice_type.
  destruct lattice_constants as [| a [| b [| c ?]]]; try discriminate.
  destruct lattice_angles as [| alpha [| beta [| gamma ?]]]; try discriminate.
  cbn [mbind outcome_bind list_get lookup list_lookup].
  lattice_cases a b c alpha beta gamma; intros E; try discriminate;
    apply Ok_inj in E; subst lattice_type; cbn; intros En; try discriminate;
    apply Ok_inj in En; subst n;
    repeat match goal with
           | H : String.eqb _ _ = true |- _ => apply String.eqb_eq in H; subst
           end;
    (split; [reflexivity | split; [discriminate | tauto]]).
Qed.

Lemma number_of_point_operators_of_lattice_type_witness :
  "prim"%string = "prim"%string /\ "tetragonal"%string <> "simple cubic"%string /\
  In ("tetragonal"%string, 16)
     [("triclinic", 2); ("monoclinic", 4); ("orthorhombic", 8);
      ("rhombohedral", 12); ("tetragonal", 16); ("hexagonal", 24)]%string.
Proof.
  apply (number_of_point_operators_of_lattice_type "prim" [1; 1; 2]%Q
           [half_pi; half_pi; half_pi]); vm_compute; reflexivity.
Defined.

(** ** More on [bring_into_cell] *)

Lemma fold_coord_range (rtol atol : Q) (centered : bool) (x : Q) :
  (0 <= rtol)%Q -> (0 <= atol)%Q ->
  if centered
  then (- (1 # 2) <= fold_coord rtol atol centered x < 1 # 2)%Q
  else (0 <= fold_coord rtol atol centered x < 1)%Q.
Proof.
  intros Hr Ha. unfold fold_coord. destruct (mod1_range x) as [H0 H1].
  set (y := if QM.isclose (QM.mod1 x) 1 rtol atol then 0%Q else QM.mod1 x).
  assert (Hy : (0 <= y < 1)%Q).
  { subst y. destruct (QM.isclose _ _ _ _); split; lra. }
  clearbody y. destruct centered; [| exact Hy].
  set (z := if QM.Qlt_bool (1 # 2) y then (y - 1)%Q else y).
  assert (Hz : (- (1 # 2) <= z <= 1 # 2)%Q).
  { subst z. destruct (QM.Qlt_bool (1 # 2) y) eqn:E.
    - apply Qlt_bool_true in E. split; lra.
    - apply Qlt_bool_false in E. split; lra. }
  clearbody z. destruct (QM.isclose z (1 # 2) rtol atol) eqn:Ec; [split; lra |].
  split; [lra |]. destruct (Qlt_le_dec z (1 # 2)) as [Hlt | Hge]; [exact Hlt |].
  exfalso. assert (Ez : (z == 1 # 2)%Q) by lra.
  unfold QM.isclose in Ec.
  assert (Hc : Qle_bool (Qabs (z - (1 # 2))) (atol + rtol * Qabs (1 # 2)) = true).
  { apply Qle_bool_iff.
    assert (E0 : (Qabs (z - (1 # 2)) == 0)%Q)
      by (rewrite <- (Qabs_wd 0 (z - (1 # 2))) by lra; reflexivity).
    rewrite E0. change (Qabs (1 # 2)) with (1 # 2)%Q. nra. }
  congruence.
Qed.

(** With tolerances that are not negative, every lattice coordinate that
    [bring_into_cell] returns in the mode [coords="lat"] lies in [0, 1),
    and in [-1/2, 1/2) when [centered] is set. *)
Theorem bring_into_cell_lat_range (points : QM.vec) (rlat_vecs : QM.mat)
    (rtol atol : Q) (centered : bool) (folded : QM.vec) :
  (0 <= rtol)%Q -> (0 <= atol)%Q ->
  bring_into_cell points rlat_vecs rtol atol "lat" centered = Ok folded ->
  Forall (fun x => if centered then (- (1 # 2) <= x < 1 # 2)%Q else (0 <= x < 1)%Q)
         (to_list folded).
Proof.
  intros Hr Ha. unfold bring_into_cell.
  destruct (QM.inv rlat_vecs) as [inv_rlat | e |]; cbn [mbind outcome_bind];
    try discriminate.
  cbn [String.eqb Ascii.eqb Bool.eqb]. intros E. apply Ok_inj in E. subst folded.
  destruct (QM.mvmul inv_rlat points) as [[x y] z]. cbn [vmap to_list].
  repeat constructor; apply fold_coord_range; assumption.
Qed.

Lemma bring_into_cell_lat_range_witness :
  Forall (fun x => if true then (- (1 # 2) <= x < 1 # 2)%Q else (0 <= x < 1)%Q)
         (to_list (- (1 # 2), 0 # 1024, 256 # 1024)%Q).
Proof.
  apply (bring_into_cell_lat_range (3, 2, 1 # 2)%Q two_cell (1 # 100000) (1 # 100000000)
           true).
  - vm_compute. discriminate.
  - vm_compute. discriminate.
  - vm_compute. reflexivity.
Defined.



(** ** More on [check_commensurate] *)




(** ** More on [reduce_kpoint_list] *)

Lemma reduce_kpoint_list_sum_witness :
  exists (reduced_kpoints : list QM.vec) (kpoint_weights : list nat),
    reduce_kpoint_list SmithNormalForm_diagonal (fun _ => [QM.eye; quarter_turn_x])
                       10 grid8 QM.eye grid_half (0, 0, 0)%Q 9
                       QM.rtol_default QM.atol_default
    = Ok (reduced_kpoints, kpoint_weights) /\
    sum_nat kpoint_weights = List.length grid8.
Proof.
  eexists _, _.
  assert (H : reduce_kpoint_list SmithNormalForm_diagonal
                (fun _ => [QM.eye; quarter_turn_x])
                10 grid8 QM.eye grid_half (0, 0, 0)%Q 9
                QM.rtol_default QM.atol_default = Ok (_, _))
    by (vm_compute; reflexivity).
  split; [exact H |].
  exact (reduce_kpoint_list_sum _ _ _ _ _ _ _ _ _ _ _ _ H).
Defined.

(** The closing loop of [reduce_kpoint_list] takes each reduced k-point
    from the list of unreduced ones. *)
Lemma weights_loop_members (kpoint_list : list QM.vec) (first : dict nat) (ws : list nat)
    (n a : nat) (acc acc' : nat * list QM.vec) :
  for_each (seq a n)
    (fun i acc =>
       w ← list_get ws i;
       first ← dict_get first (i + 1);
       k ← list_get kpoint_list first;
       Ok ((fst acc + w)%nat, snd acc ++ [k])) acc = Ok acc' ->
  exists ks : list QM.vec,
    snd acc' = snd acc ++ ks /\ List.length ks = n /\ Forall (fun k => In k kpoint_list) ks.
Proof.
  revert a acc. induction n as [| n IH]; intros a acc E.
  - cbn in E. injection E as <-. exists []. rewrite app_nil_r. auto.
  - cbn [seq for_each] in E.
    destruct (list_get ws a) as [w | |]; try discriminate.
    cbn [mbind outcome_bind] in E.
    destruct (dict_get first (a + 1)) as [f | |]; try discriminate.
    cbn [mbind outcome_bind] in E.
    destruct (list_get kpoint_list f) as [k | |] eqn:Ek; try discriminate.
    cbn [mbind outcome_bind] in E.
    apply IH in E. destruct E as (ks & E & Hlen & Hin). cbn [snd] in E.
    exists (k :: ks). rewrite E, <- app_assoc. split; [reflexivity |].
    split; [cbn; lia |]. constructor; [| exact Hin].
    apply list_get_Ok, list_elem_of_lookup_2, list_elem_of_In in Ek. exact Ek.
Qed.

Section GridReductionMembers.
Variable SmithNormalForm : ZM.mat -> ZM.mat * ZM.mat * ZM.mat.
Variable find_point_group : QM.mat -> list QM.mat.

(** [reduce_kpoint_list] returns one weight for each reduced k-point, and
every reduced k-point is one of the unreduced k-points it was given. *)
Theorem reduce_kpoint_list_members fuel kpoint_list lattice_vectors grid_vectors shift
eps rtol atol reduced_kpoints kpoint_weights :
reduce_kpoint_list SmithNormalForm find_point_group fuel kpoint_list
               lattice_vectors grid_vectors shift eps rtol atol
= Ok (reduced_kpoints, kpoint_weights) ->
List.length reduced_kpoints = List.length kpoint_weights /\
Forall (fun k => In k kpoint_list) reduced_kpoints.
Proof.
unfold reduce_kpoint_list. intros E.
destruct (try_inv lattice_vectors _) as [[] | |]; try discriminate.
cbn [mbind outcome_bind] in E.
destruct (try_inv grid_vectors _) as [[] | |]; try discriminate.
cbn [mbind outcome_bind] in E.
destruct (QM.Qlt_bool _ _); [discriminate |].
destruct (check_commensurate _ _ _ _) as [[N |] | |]; try discriminate.
cbn [mbind outcome_bind] in E.
destruct (HermiteNormalForm fuel N) as [[H B] | |]; try discriminate.
cbn [mbind outcome_bind] in E.
destruct (SmithNormalForm H) as [[S' L] R].
destruct (QM.inv grid_vectors) as [invK | |]; try discriminate.
cbn [mbind outcome_bind] in E.
destruct (for_each (seq 0 (List.length kpoint_list)) _ _) as [st | |] eqn:Eloop;
try discriminate.
cbn [mbind outcome_bind] in E.
destruct (for_each (seq 0 (cOrbit st)) _ _) as [[sum reduced] | |] eqn:Esum;
try discriminate.
cbn [mbind outcome_bind] in E.
destruct (negb _); [discriminate |].
injection E as <- <-.
apply weights_loop_members in Esum. destruct Esum as (ks & Eks & Hlen & Hin).
cbn [snd app] in Eks. subst reduced.
assert (Hlab : labelled st).
{ eapply for_each_inv; [| apply labelled_init | exact Eloop].
intros i s s' _. apply reduce_visit_labelled. }
rewrite (labelled_weights st Hlab). auto.
Qed.
End GridReductionMembers.

Lemma reduce_kpoint_list_members_witness :
  exists (reduced_kpoints : list QM.vec) (kpoint_weights : list nat),
    reduce_kpoint_list SmithNormalForm_diagonal (fun _ => [QM.eye; quarter_turn_x])
                       10 grid8 QM.eye grid_half (0, 0, 0)%Q 9
                       QM.rtol_default QM.atol_default
    = Ok (reduced_kpoints, kpoint_weights) /\
    List.length reduced_kpoints = List.length kpoint_weights /\
    Forall (fun k => In k grid8) reduced_kpoints.
Proof.
  eexists _, _.
  assert (H : reduce_kpoint_list SmithNormalForm_diagonal
                (fun _ => [QM.eye; quarter_turn_x])
                10 grid8 QM.eye grid_half (0, 0, 0)%Q 9
                QM.rtol_default QM.atol_default = Ok (_, _))
    by (vm_compute; reflexivity).
  split; [exact H |].
  exact (reduce_kpoint_list_members _ _ _ _ _ _ _ _ _ _ _ _ H).
Defined.

(** ** Upper Hermite normal form ([swap_row], [UpperHermiteNormalForm]) *)











(** *** [UpperHermiteNormalForm] works on the rows as [HermiteNormalForm]
        works on the columns *)

























(** ** More on [find_kpt_index] *)

Lemma mvmul_adjugate (X : ZM.mat) (v : ZM.vec) :
  ZM.mvmul X (ZM.mvmul (adjugate X) v) = ZM.vscale (ZM.det X) v.
Proof. split_mat X; split_vec v; mat_ring. Qed.

Lemma mvmul_zvadd (A : ZM.mat) (u v : ZM.vec) :
  ZM.mvmul A (zvadd u v) = zvadd (ZM.mvmul A u) (ZM.mvmul A v).
Proof. split_mat A; split_vec u; split_vec v; mat_ring. Qed.

Lemma mmul_assoc (A B C : ZM.mat) : ZM.mmul (ZM.mmul A B) C = ZM.mmul A (ZM.mmul B C).
Proof. split_mat A; split_mat B; split_mat C; mat_ring. Qed.

Lemma np_mod_add (a d t : Z) : np_mod (a + d * t) d = np_mod a d.
Proof.
  unfold np_mod. destruct (Z.eqb_spec d 0) as [-> | Hd]; [reflexivity |].
  rewrite (Z.mul_comm d t). apply Z.mod_add. exact Hd.
Qed.

(** The index is periodic in the lattice: with [H = N.B], [D = L.H.R] and
    [B], [R] unimodular, two points whose integer grid coordinates differ
    by a vector [N.m] of the lattice get the same index. *)
Theorem find_kpt_index_periodic
    (invK : QM.mat) (N B H L R : ZM.mat) (D : ZM.vec) (eps : Z)
    (kpt kpt' : QM.vec) (n m : ZM.vec) :
  0 <= eps ->
  ZM.mmul N B = H ->
  ZM.mmul (ZM.mmul L H) R = diagm D ->
  unimodular B -> unimodular R ->
  QM.veq (QM.mvmul invK kpt) (QM.of_Z n) ->
  QM.veq (QM.mvmul invK kpt') (QM.of_Z (zvadd n (ZM.mvmul N m))) ->
  find_kpt_index kpt' invK L D eps = find_kpt_index kpt invK L D eps.
Proof.
  intros Heps EH ED UB UR En En'.
  rewrite (find_kpt_index_on_grid kpt invK L D eps n Heps En).
  rewrite (find_kpt_index_on_grid kpt' invK L D eps _ Heps En').
  (* L.N.m = D.t *)
  set (X := ZM.mmul B R).
  assert (UX : ZM.det X * ZM.det X = 1).
  { unfold X. rewrite det_mmul. destruct UB as [-> | ->], UR as [-> | ->]; reflexivity. }
  set (t := ZM.vscale (ZM.det X) (ZM.mvmul (adjugate X) m)).
  assert (Ht : ZM.mvmul L (ZM.mvmul N m) = ZM.mvmul (diagm D) t).
  { rewrite <- ED, <- EH. rewrite !mvmul_mmul. do 2 f_equal.
    rewrite <- (mvmul_mmul B R). fold X. unfold t.
    rewrite mvmul_vscale, mvmul_adjugate.
    clear - UX. split_vec m. cbn [ZM.vscale vmap].
    rewrite !Z.mul_assoc, !UX, !Z.mul_1_l. reflexivity. }
  rewrite mvmul_zvadd, Ht.
  destruct (ZM.mvmul L n) as [[a0 a1] a2]. destruct t as [[t0 t1] t2].
  destruct D as [[d0 d1] d2]. cbn [diagm ZM.mvmul ZM.dot zvadd get].
  replace (d0 * t0 + 0 * t1 + 0 * t2) with (d0 * t0) by ring.
  replace (0 * t0 + d1 * t1 + 0 * t2) with (d1 * t1) by ring.
  replace (0 * t0 + 0 * t1 + d2 * t2) with (d2 * t2) by ring.
  rewrite !np_mod_add. reflexivity.
Qed.

Lemma find_kpt_index_periodic_witness :
  find_kpt_index (5 # 2, 1 # 2, 0)%Q grid_half_inv ZM.identity (2, 2, 2) 9
  = find_kpt_index (1 # 2, 1 # 2, 0)%Q grid_half_inv ZM.identity (2, 2, 2) 9.
Proof.
  apply (find_kpt_index_periodic grid_half_inv ((2, 0, 0), (0, 2, 0), (0, 0, 2))
           ZM.identity ((2, 0, 0), (0, 2, 0), (0, 0, 2)) ZM.identity ZM.identity
           (2, 2, 2) 9 (1 # 2, 1 # 2, 0)%Q (5 # 2, 1 # 2, 0)%Q (1, 1, 0) (2, 0, 0)).
  - lia.
  - reflexivity.
  - reflexivity.
  - left. reflexivity.
  - left. reflexivity.
  - vm_compute. repeat split; reflexivity.
  - vm_compute. repeat split; reflexivity.
Defined.

(** ** More on [find_orbits] *)

Lemma mapM_list_get {A : Type} (l : list A) (idxs : list nat) (r : list A) :
  mapM (list_get l) idxs = Ok r ->
  List.length r = List.length idxs /\ Forall (fun x => In x l) r.
Proof.
  revert r. induction idxs as [| i idxs IH]; intros r E.
  - cbn in E. injection E as <-. split; [reflexivity | constructor].
  - cbn [mapM] in E.
    destruct (list_get l i) as [x | |] eqn:Ex; try discriminate.
    cbn [mbind outcome_bind] in E.
    destruct (mapM _ idxs) as [xs | |] eqn:Exs; try discriminate.
    cbn [mbind outcome_bind mret outcome_ret] in E. injection E as <-.
    destruct (IH xs eq_refl) as [Hlen Hin]. split; [cbn; lia |].
    constructor; [| exact Hin].
    apply list_get_Ok, list_elem_of_lookup_2, list_elem_of_In in Ex. exact Ex.
Qed.

Lemma labelled_first (st : orbits) :
  labelled st -> List.length (dict_values (iFirst st)) = cOrbit st.
Proof.
  intros [_ Hf]. unfold dict_values. rewrite length_map.
  rewrite <- (length_map fst). fold (dict_keys (iFirst st)). rewrite Hf. apply length_seq.
Qed.

Section OrbitMembers.
Variable SmithNormalForm : ZM.mat -> ZM.mat * ZM.mat * ZM.mat.
Context {label : Type} `{EqDecision label}.

Lemma orbit_rotate_labelled ur_kpt rlattice_vectors invK shift L D rounding_eps rtol
pg st st' :
labelled st ->
orbit_rotate ur_kpt rlattice_vectors invK shift L D rounding_eps rtol pg st = Ok st' ->
labelled st'.
Proof.
intros Hst. unfold orbit_rotate.
destruct (bring_into_cell _ _ _ _ _ _) as [rot | |]; try discriminate.
cbn [mbind outcome_bind]. destruct (off_grid _ _ _ _ _).
- intros E. injection E as <-. exact Hst.
- apply labelled_mark_member. exact Hst.
Qed.

Lemma orbit_visit_labelled kpoint_list rlattice_vectors invK shift L D rounding_eps rtol
pointgroup i (st st' : orbits * gmap Z nat) :
labelled (fst st) ->
orbit_visit kpoint_list rlattice_vectors invK shift L D rounding_eps rtol
          pointgroup i st = Ok st' ->
labelled (fst st').
Proof.
destruct st as [st conv]. cbn [fst]. intros Hst. unfold orbit_visit.
destruct (list_get kpoint_list i) as [ur_kpt | |]; try discriminate.
cbn [mbind outcome_bind].
destruct (hash_get _ _) as [[c |] | |]; try discriminate; cbn [mbind outcome_bind].
- intros E. injection E as <-. exact Hst.
- destruct (for_each pointgroup _ _) as [s | |] eqn:Eloop; try discriminate.
cbn [mbind outcome_bind]. intros E. injection E as <-. cbn [fst].
eapply for_each_inv; [| | exact Eloop].
+ intros pg s0 s' _. apply orbit_rotate_labelled.
+ apply labelled_open_orbit. exact Hst.
Qed.

(** When [find_orbits] returns reduced k-points ([full_orbit=False]) it
returns one weight for each of them, and every reduced k-point is one
of the unreduced k-points it was given, in lattice coordinates when
[kpt_coords] is "lat". *)
Theorem find_orbits_members fuel kpoint_list lattice_vectors rlattice_vectors
grid_vectors shift (atom_labels : list label) atom_positions kpt_coords atom_coords
eps rounding_eps rtol atol reduced_kpoints orbit_weights :
find_orbits SmithNormalForm fuel kpoint_list lattice_vectors rlattice_vectors
          grid_vectors shift atom_labels atom_positions false kpt_coords atom_coords
          eps rounding_eps rtol atol
= Ok (ReducedKpoints reduced_kpoints, orbit_weights) ->
List.length reduced_kpoints = List.length orbit_weights /\
exists ks : list QM.vec,
Forall (fun k => In k kpoint_list) ks /\
(if String.eqb kpt_coords "lat"
 then exists inv_rlat, QM.inv rlattice_vectors = Ok inv_rlat /\
                       reduced_kpoints = List.map (QM.mvmul inv_rlat) ks
 else reduced_kpoints = ks).
Proof.
unfold find_orbits. intros E.
destruct (try_inv lattice_vectors _) as [[] | |]; try discriminate.
cbn [mbind outcome_bind] in E.
destruct (try_inv rlattice_vectors _) as [[] | |]; try discriminate.
cbn [mbind outcome_bind] in E.
destruct (try_inv grid_vectors _) as [[] | |]; try discriminate.
cbn [mbind outcome_bind] in E.
destruct (QM.Qlt_bool _ _); [discriminate |].
destruct (check_commensurate _ _ _ _) as [[N |] | |]; try discriminate.
cbn [mbind outcome_bind] in E.
destruct (HermiteNormalForm fuel N) as [[H0 B] | |]; try discriminate.
cbn [mbind outcome_bind] in E.
destruct (SmithNormalForm H0) as [[S' L] R].
destruct (get_space_group _ _ _ _ _ _ _) as [[pointgroup translations] | |];
try discriminate.
cbn [mbind outcome_bind] in E.
destruct (QM.inv grid_vectors) as [invK | |]; try discriminate.
cbn [mbind outcome_bind] in E.
destruct (for_each (seq 0 (List.length kpoint_list)) _ _) as [[st conv] | |] eqn:Eloop;
try discriminate.
cbn [mbind outcome_bind] in E.
destruct (mapM _ (dict_values (iFirst st))) as [ks | |] eqn:Eks; try discriminate.
cbn [mbind outcome_bind] in E.
apply mapM_list_get in Eks. destruct Eks as [Hlen Hin].
assert (Hlab : labelled st).
{ change st with (fst (st, conv)).
eapply (for_each_inv (fun s => labelled (fst s))); [| | exact Eloop].
- intros i s s' _. apply orbit_visit_labelled.
- apply labelled_init. }
rewrite (labelled_first st Hlab) in Hlen.
destruct (String.eqb kpt_coords "lat").
- destruct ks as [| k ks]; [discriminate |].
destruct (QM.inv rlattice_vectors) as [inv_rlat | |]; try discriminate.
cbn [mbind outcome_bind] in E.
assert (Hm : List.length (List.map (QM.mvmul inv_rlat) (k :: ks)) = cOrbit st)
  by (rewrite length_map; exact Hlen).
injection E as <- <-.
rewrite (labelled_weights st Hlab). split; [exact Hm |].
exists (k :: ks). split; [exact Hin |]. exists inv_rlat. split; reflexivity.
- injection E as <- <-. rewrite (labelled_weights st Hlab). split; [exact Hlen |].
exists ks. split; [exact Hin | reflexivity].
Qed.
End OrbitMembers.

Lemma find_orbits_members_witness :
  List.length [(0, 0, 0)%Q] = List.length [1%nat] /\
  exists ks : list QM.vec,
    Forall (fun k => In k [(0, 0, 0); (1, 0, 0)]%Q) ks /\
    (if String.eqb "cart" "lat"
     then exists inv_rlat, QM.inv QM.eye = Ok inv_rlat /\
                           [(0, 0, 0)%Q] = List.map (QM.mvmul inv_rlat) ks
     else [(0, 0, 0)%Q] = ks).
Proof.
  apply (find_orbits_members SmithNormalForm_diagonal 1 [(0, 0, 0); (1, 0, 0)]%Q
           QM.eye QM.eye QM.eye (0, 0, 0)%Q [0] [(0, 0, 0)%Q] "cart" "lat"
           (1 # 10000000000) 4 (1 # 10000) (1 # 1000000)).
  vm_compute. reflexivity.
Defined.

(** ** [HermiteNormalForm] on a matrix in Hermite normal form *)

Lemma hnf_row0_done (fuel : nat) (S H B : ZM.mat) :
  (1 <? ZM.count_nonzero (to_list (row H 0)))%nat = false ->
  hnf_row0 fuel S H B = Ok (H, B).
Proof. intros E. destruct fuel; cbn [hnf_row0]; rewrite E; reflexivity. Qed.

Lemma hnf_h12_done (fuel : nat) (S H B : ZM.mat) :
  mget H 1 2 = 0 -> hnf_h12 fuel S H B = Ok (H, B).
Proof. intros E. destruct fuel; cbn [hnf_h12]; rewrite E; reflexivity. Qed.

Lemma hnf_below_done (fuel : nat) (i j : nat) (H B : ZM.mat) :
  0 <= mget H i j < mget H i i -> hnf_below fuel i j H B = Ok (H, B).
Proof.
  intros [H0 H1].
  assert (E : ((mget H i i <=? mget H i j) || (mget H i j <? 0)) = false).
  { apply orb_false_iff. split; [apply Z.leb_gt | apply Z.ltb_ge]; lia. }
  destruct fuel; cbn [hnf_below]; rewrite E; reflexivity.
Qed.

Lemma HermiteNormalForm_fixed (fuel : nat) (S : ZM.mat) :
  is_hnf S -> HermiteNormalForm fuel S = Ok (S, ZM.identity).
Proof.
  intros (Z01 & Z02 & Z12 & P0 & P1 & P2 & [L10 U10] & [L20 U20] & [L21 U21]).
  unfold HermiteNormalForm.
  rewrite (det_lower S Z01 Z02 Z12).
  destruct (Z.eqb_spec (mget S 0 0 * mget S 1 1 * mget S 2 2) 0) as [E | _]; [nia |].
  rewrite hnf_row0_done by (apply count_nonzero_row0; assumption).
  cbn [mbind outcome_bind].
  assert (F00 : (mget S 0 0 =? 0) = false) by (apply Z.eqb_neq; lia).
  assert (F11 : (mget S 1 1 =? 0) = false) by (apply Z.eqb_neq; lia).
  assert (N00 : (mget S 0 0 <? 0) = false) by (apply Z.ltb_ge; lia).
  assert (N11 : (mget S 1 1 <? 0) = false) by (apply Z.ltb_ge; lia).
  assert (N22 : (mget S 2 2 <? 0) = false) by (apply Z.ltb_ge; lia).
  assert (N10 : (mget S 1 0 <? 0) = false) by (apply Z.ltb_ge; lia).
  assert (N20 : (mget S 2 0 <? 0) = false) by (apply Z.ltb_ge; lia).
  assert (N21 : (mget S 2 1 <? 0) = false) by (apply Z.ltb_ge; lia).
  assert (G10 : (mget S 1 1 <? mget S 1 0) = false) by (apply Z.ltb_ge; lia).
  assert (G20 : (mget S 2 2 <? mget S 2 0) = false) by (apply Z.ltb_ge; lia).
  assert (G21 : (mget S 2 2 <? mget S 2 1) = false) by (apply Z.ltb_ge; lia).
  rewrite F00, N00. cbv beta iota.
  rewrite (count_nonzero_row0 S Z01 Z02), mmul_identity_r, allclose_refl. cbn [negb].
  rewrite hnf_h12_done by assumption. cbn [mbind outcome_bind].
  rewrite F11, N11. cbv beta iota.
  rewrite Z12, ?mmul_identity_r, ?allclose_refl. cbn [Z.eqb negb].
  rewrite N22. cbv beta iota.
  rewrite ?(count_nonzero_check1 S Z01 Z02 Z12), ?mmul_identity_r, ?allclose_refl.
  cbn [Nat.eqb negb].
  rewrite (hnf_below_done fuel 1 0) by (split; assumption). cbn [mbind outcome_bind].
  rewrite (hnf_below_done fuel 2 0) by (split; assumption). cbn [mbind outcome_bind].
  rewrite (hnf_below_done fuel 2 1) by (split; assumption). cbn [mbind outcome_bind].
  rewrite ?mmul_identity_r, ?allclose_refl, ?(count_nonzero_check1 S Z01 Z02 Z12).
  cbn [Nat.eqb negb]. unfold check2. cbn [existsb].
  rewrite ?N00, ?N10, ?N11, ?N20, ?N21, ?N22, ?G10, ?G20, ?G21. reflexivity.
Qed.

(** [HermiteNormalForm] is idempotent: applied to the Hermite normal form
    it has returned, it returns that matrix again, with the identity as
    the transformation, whatever the fuel (its loops do not iterate). *)
Theorem HermiteNormalForm_idempotent (fuel fuel' : nat) (S H B : ZM.mat) :
  HermiteNormalForm fuel S = Ok (H, B) ->
  HermiteNormalForm fuel' H = Ok (H, ZM.identity).
Proof.
  intros E.
  assert (Hdet : ZM.det S <> 0).
  { unfold HermiteNormalForm in E.
    destruct (Z.eqb_spec (ZM.det S) 0); [discriminate | assumption]. }
  destruct (HermiteNormalForm_nonsingular S Hdet) as (n & H' & B' & E' & _ & F).
  pose proof (HermiteNormalForm_mono S fuel (Nat.max fuel n) _ (Nat.le_max_l _ _) E) as E1.
  pose proof (HermiteNormalForm_mono S n (Nat.max fuel n) _ (Nat.le_max_r _ _) E') as E2.
  rewrite E1 in E2. injection E2 as -> ->. apply HermiteNormalForm_fixed. exact F.
Qed.

Lemma HermiteNormalForm_idempotent_witness :
  exists H B : ZM.mat,
    HermiteNormalForm 50 ((0, 3, -5), (4, 1, 7), (2, -6, 1)) = Ok (H, B) /\
    HermiteNormalForm 0 H = Ok (H, ZM.identity).
Proof.
  eexists _, _.
  assert (E : HermiteNormalForm 50 ((0, 3, -5), (4, 1, 7), (2, -6, 1)) = Ok (_, _))
    by (vm_compute; reflexivity).
  split; [exact E |].
  exact (HermiteNormalForm_idempotent 50 0 _ _ _ E).
Defined.

(** ** [get_minmax_indices] *)

(** On the zero array [get_minmax_indices] runs off its end; on any other
    array it returns the index of an entry of largest absolute value and
    the index of a non-zero entry of smallest absolute value. *)
Theorem get_minmax_indices_extremes (a : ZM.vec) :
  (a = (0, 0, 0) -> get_minmax_indices a = Raise IndexError) /\
  (a <> (0, 0, 0) ->
   exists mini maxi : nat,
     get_minmax_indices a = Ok (mini, maxi) /\
     (mini < 3)%nat /\ (maxi < 3)%nat /\ get a mini <> 0 /\
     forall i : nat,
       Z.abs (get a i) <= Z.abs (get a maxi) /\
       (get a i <> 0 -> Z.abs (get a mini) <= Z.abs (get a i))).
Proof.
  split; [intros ->; reflexivity |].
  destruct a as [[x y] z]. intros Hnz.
  unfold get_minmax_indices.
  cbn [to_list vmap rev app ZM.argmax ZM.argmax_from first_nonzero min_scan].
  assert (Hx : Z.abs x = 0 <-> x = 0) by lia.
  assert (Hy : Z.abs y = 0 <-> y = 0) by lia.
  assert (Hz : Z.abs z = 0 <-> z = 0) by lia.
  destruct (Z.eqb_spec (Z.abs x) 0), (Z.eqb_spec (Z.abs y) 0), (Z.eqb_spec (Z.abs z) 0);
    try (exfalso; apply Hnz; repeat f_equal; lia);
    cbn [mbind outcome_bind first_nonzero min_scan Nat.sub Nat.add];
    repeat (case_cmp; try lia;
            cbn [andb mbind outcome_bind first_nonzero min_scan Nat.sub Nat.add]);
    (eexists _, _; split; [reflexivity |]; cbn [get];
     split; [lia |]; split; [lia |]; split; [lia |];
     intros i; split_idx i; cbn [get]; split; lia).
Qed.

Lemma get_minmax_indices_extremes_witness :
  exists mini maxi : nat,
    get_minmax_indices (4, 0, -6) = Ok (mini, maxi) /\
    (mini < 3)%nat /\ (maxi < 3)%nat /\ get (4, 0, -6) mini <> 0 /\
    forall i : nat,
      Z.abs (get (4, 0, -6) i) <= Z.abs (get (4, 0, -6) maxi) /\
      (get (4, 0, -6) i <> 0 -> Z.abs (get (4, 0, -6) mini) <= Z.abs (get (4, 0, -6) i)).
Proof.
  apply (proj2 (get_minmax_indices_extremes (4, 0, -6))). discriminate.
Defined.

(** ** Mapping into the first Brillouin zone ([map_to_bz]) *)

(** [itertools.product([-1,0], repeat=3)] *)
Definition cell_shifts : list ZM.vec :=
  i ← [-1; 0]; j ← [-1; 0]; k ← [-1; 0]; [(i, j, k)].

(** [pt1 + np.dot(mink_basis, n)] *)
Definition shifted (pt1 : QM.vec) (mink_basis : QM.mat) (n : ZM.vec) : QM.vec :=
  QM.vadd pt1 (QM.mvmul mink_basis (QM.of_Z n)).

(** The body of the loop over the shifts; the state is
    [(norm_pt1, reduced_grid[i])]. *)
Definition nearest_step (pt1 : QM.vec) (mink_basis : QM.mat) (eps : Q)
    (st : Q * QM.vec) (n : ZM.vec) : Q * QM.vec :=
  let pt2 := shifted pt1 mink_basis n in
  let norm_pt2 := QM.dot pt2 pt2 in
  if QM.Qlt_bool (norm_pt2 + eps) (fst st) then (norm_pt2, pt2) else st.

(** The body of the loop over the reduced grid. *)
Definition nearest_image (mink_basis : QM.mat) (eps : Q) (pt1 : QM.vec)
    : outcome QM.vec :=
  pt1 ← bring_into_cell pt1 mink_basis QM.rtol_default QM.atol_default "Cart" false;
  Ok (snd (fold_left (nearest_step pt1 mink_basis eps) cell_shifts
                     (QM.dot pt1 pt1, pt1))).

Section MapToBz.
Variable SmithNormalForm : ZM.mat -> ZM.mat * ZM.mat * ZM.mat.
Context {label : Type} `{EqDecision label}.

(** [find_orbits] is called with its defaults, so it returns reduced
  k-points; the other case is not reached. *)
Definition map_to_bz (fuel : nat) (grid : list QM.vec)
  (lattice_vectors rlattice_vectors grid_vectors : QM.mat) (shift : QM.vec)
  (atom_labels : list label) (atom_positions : list QM.vec) (rtol atol eps : Q)
  : outcome (or_name_error (list QM.vec * list nat)) :=
'(reduced, weights) ←
  find_orbits SmithNormalForm fuel grid lattice_vectors rlattice_vectors grid_vectors
              shift atom_labels atom_positions false "cart" "lat"
              (1 # 10000000000) 4 (1 # 10000) (1 # 1000000);
let reduced_grid :=
  match reduced with
  | ReducedKpoints reduced_kpoints => reduced_kpoints
  | OrbitList _ => []
  end in
(* find the Minkowski basis *)
mink ← minkowski_reduce_basis rlattice_vectors rtol atol eps;
match mink with
| NameError name => Ok (NameError name)
| Value mink_basis =>
    reduced_grid ← mapM (nearest_image mink_basis eps) reduced_grid;
    Ok (Value (reduced_grid, weights))
end.

Lemma find_orbits_reduced fuel kpoint_list lattice_vectors rlattice_vectors
  grid_vectors shift (atom_labels : list label) atom_positions kpt_coords atom_coords
  eps rounding_eps rtol atol reduced orbit_weights :
find_orbits SmithNormalForm fuel kpoint_list lattice_vectors rlattice_vectors
            grid_vectors shift atom_labels atom_positions false kpt_coords atom_coords
            eps rounding_eps rtol atol
= Ok (reduced, orbit_weights) ->
exists reduced_kpoints, reduced = ReducedKpoints reduced_kpoints.
Proof.
unfold find_orbits. intros E.
destruct (try_inv lattice_vectors _) as [[] | |]; try discriminate.
cbn [mbind outcome_bind] in E.
destruct (try_inv rlattice_vectors _) as [[] | |]; try discriminate.
cbn [mbind outcome_bind] in E.
destruct (try_inv grid_vectors _) as [[] | |]; try discriminate.
cbn [mbind outcome_bind] in E.
destruct (QM.Qlt_bool _ _); [discriminate |].
destruct (check_commensurate _ _ _ _) as [[N |] | |]; try discriminate.
cbn [mbind outcome_bind] in E.
destruct (HermiteNormalForm fuel N) as [[H0 B] | |]; try discriminate.
cbn [mbind outcome_bind] in E.
destruct (SmithNormalForm H0) as [[S' L] R].
destruct (get_space_group _ _ _ _ _ _ _) as [[pointgroup translations] | |];
  try discriminate.
cbn [mbind outcome_bind] in E.
destruct (QM.inv grid_vectors) as [invK | |]; try discriminate.
cbn [mbind outcome_bind] in E.
destruct (for_each (seq 0 (List.length kpoint_list)) _ _) as [[st conv] | |];
  try discriminate.
cbn [mbind outcome_bind] in E.
destruct (mapM _ (dict_values (iFirst st))) as [ks | |]; try discriminate.
cbn [mbind outcome_bind] in E.
destruct (String.eqb kpt_coords "lat").
- destruct ks as [| k ks]; [discriminate |].
  destruct (QM.inv rlattice_vectors) as [inv_rlat | |]; try discriminate.
  cbn [mbind outcome_bind] in E. injection E as <- <-. eauto.
- injection E as <- <-. eauto.
Qed.
End MapToBz.

(** What the loop over the shifts keeps: the state is an image and its
    squared norm, which is at most that of the folded point and, up to
    [eps], that of every image seen. *)
Definition nearest_inv (pt1 : QM.vec) (mink_basis : QM.mat) (eps : Q)
    (seen : list ZM.vec) (st : Q * QM.vec) : Prop :=
  fst st = QM.dot (snd st) (snd st) /\
  (snd st = pt1 \/ exists n, In n seen /\ snd st = shifted pt1 mink_basis n) /\
  (fst st <= QM.dot pt1 pt1)%Q /\
  forall n, In n seen ->
    (fst st <= QM.dot (shifted pt1 mink_basis n) (shifted pt1 mink_basis n) + eps)%Q.

Lemma nearest_fold (pt1 : QM.vec) (mink_basis : QM.mat) (eps : Q) (todo : list ZM.vec) :
  (0 <= eps)%Q ->
  forall (seen : list ZM.vec) (st : Q * QM.vec),
    nearest_inv pt1 mink_basis eps seen st ->
    nearest_inv pt1 mink_basis eps (seen ++ todo)
                (fold_left (nearest_step pt1 mink_basis eps) todo st).
Proof.
  intros Heps. induction todo as [| n todo IH]; intros seen st Hst.
  - rewrite app_nil_r. exact Hst.
  - cbn [fold_left].
    replace (seen ++ n :: todo) with ((seen ++ [n]) ++ todo)
      by (rewrite <- app_assoc; reflexivity).
    apply IH. destruct Hst as (Hn & Him & Hle & Hall). unfold nearest_step, nearest_inv.
    cbv zeta.
    destruct (QM.Qlt_bool _ (fst st)) eqn:Ec.
    + apply Qlt_bool_true in Ec. cbn [fst snd]. split; [reflexivity |].
      split; [right; exists n; split; [apply in_or_app; right; left |]; reflexivity |].
      split; [lra |]. intros n' Hin. apply in_app_or in Hin.
      destruct Hin as [Hin | [<- | []]]; [specialize (Hall n' Hin) |]; lra.
    + apply Qlt_bool_false in Ec. split; [exact Hn |].
      split.
      { destruct Him as [Him | (n' & Hin & Him)]; [left; exact Him |].
        right. exists n'. split; [apply in_or_app; left; exact Hin | exact Him]. }
      split; [exact Hle |]. intros n' Hin. apply in_app_or in Hin.
      destruct Hin as [Hin | [<- | []]]; [exact (Hall n' Hin) | exact Ec].
Qed.

Lemma nearest_image_spec (mink_basis : QM.mat) (eps : Q) (pt new : QM.vec) :
  (0 <= eps)%Q ->
  nearest_image mink_basis eps pt = Ok new ->
  exists pt1 : QM.vec,
    bring_into_cell pt mink_basis QM.rtol_default QM.atol_default "Cart" false = Ok pt1 /\
    (new = pt1 \/ exists n, In n cell_shifts /\ new = shifted pt1 mink_basis n) /\
    (QM.dot new new <= QM.dot pt1 pt1)%Q /\
    forall n, In n cell_shifts ->
      (QM.dot new new
       <= QM.dot (shifted pt1 mink_basis n) (shifted pt1 mink_basis n) + eps)%Q.
Proof.
  intros Heps. unfold nearest_image.
  destruct (bring_into_cell pt mink_basis _ _ _ _) as [pt1 | |]; try discriminate.
  cbn [mbind outcome_bind]. intros E. apply Ok_inj in E. exists pt1.
  split; [reflexivity |].
  pose proof (nearest_fold pt1 mink_basis eps cell_shifts Heps []
                (QM.dot pt1 pt1, pt1)) as Hf.
  cbn [app] in Hf. rewrite <- E.
  destruct Hf as (Hn & Him & Hle & Hall).
  - split; [reflexivity |]. split; [left; reflexivity |]. split; [cbn; lra |].
    intros n [].
  - rewrite <- Hn. auto.
Qed.

Section MapToBzFacts.
Variable SmithNormalForm : ZM.mat -> ZM.mat * ZM.mat * ZM.mat.
Context {label : Type} `{EqDecision label}.

(** With [eps >= 0], each point [map_to_bz] returns comes from the reduced
  k-point of [find_orbits] at the same position: that point is folded
  into the cell of the Minkowski basis, and the point returned is the
  folded point or one of its images under the shifts by [-1] or [0]
  basis vectors; its squared norm is at most that of the folded point
  and, up to [eps], that of each of the eight images. The weights are
  those of [find_orbits]. *)
Theorem map_to_bz_nearest fuel grid lattice_vectors rlattice_vectors grid_vectors shift
  (atom_labels : list label) atom_positions rtol atol eps new_grid weights :
(0 <= eps)%Q ->
map_to_bz SmithNormalForm fuel grid lattice_vectors rlattice_vectors grid_vectors
          shift atom_labels atom_positions rtol atol eps
= Ok (Value (new_grid, weights)) ->
exists (reduced_grid : list QM.vec) (mink_basis : QM.mat),
  find_orbits SmithNormalForm fuel grid lattice_vectors rlattice_vectors grid_vectors
              shift atom_labels atom_positions false "cart" "lat"
              (1 # 10000000000) 4 (1 # 10000) (1 # 1000000)
  = Ok (ReducedKpoints reduced_grid, weights) /\
  minkowski_reduce_basis rlattice_vectors rtol atol eps = Ok (Value mink_basis) /\
  Forall2
    (fun pt new =>
       exists pt1 : QM.vec,
         bring_into_cell pt mink_basis QM.rtol_default QM.atol_default "Cart" false
         = Ok pt1 /\
         (new = pt1 \/ exists n, In n cell_shifts /\ new = shifted pt1 mink_basis n) /\
         (QM.dot new new <= QM.dot pt1 pt1)%Q /\
         forall n, In n cell_shifts ->
           (QM.dot new new
            <= QM.dot (shifted pt1 mink_basis n) (shifted pt1 mink_basis n) + eps)%Q)
    reduced_grid new_grid.
Proof.
intros Heps. unfold map_to_bz.
destruct (find_orbits _ _ _ _ _ _ _ _ _ _ _ _ _ _ _ _) as [[reduced w] | |] eqn:Ef;
  try discriminate.
cbn [mbind outcome_bind].
destruct (find_orbits_reduced _ _ _ _ _ _ _ _ _ _ _ _ _ _ _ _ _ Ef) as [rk ->].
destruct (minkowski_reduce_basis rlattice_vectors rtol atol eps)
  as [[mink_basis | name] | |]; try discriminate.
cbn [mbind outcome_bind].
destruct (mapM _ rk) as [new | |] eqn:Em; try discriminate.
cbn [mbind outcome_bind]. intros E. apply Ok_inj in E. injection E as <- <-.
exists rk, mink_basis. split; [reflexivity |]. split; [reflexivity |].
clear Ef. revert new Em. induction rk as [| pt rk IH]; intros new Em.
- cbn in Em. injection Em as <-. constructor.
- cbn [mapM] in Em.
  destruct (nearest_image mink_basis eps pt) as [p | |] eqn:Ep; try discriminate.
  cbn [mbind outcome_bind] in Em.
  destruct (mapM _ rk) as [ps | |] eqn:Eps; try discriminate.
  cbn [mbind outcome_bind mret outcome_ret] in Em. injection Em as <-.
  constructor; [| apply IH; reflexivity].
  apply nearest_image_spec; assumption.
Qed.
End MapToBzFacts.

Lemma map_to_bz_nearest_witness :
  exists (new_grid : list QM.vec) (weights : list nat)
         (reduced_grid : list QM.vec) (mink_basis : QM.mat),
    map_to_bz SmithNormalForm_diagonal 10 grid8 QM.eye QM.eye grid_half (0, 0, 0)%Q
              [0] [(0, 0, 0)%Q] QM.rtol_default QM.atol_default (1 # 10000000000)
    = Ok (Value (new_grid, weights)) /\
    find_orbits SmithNormalForm_diagonal 10 grid8 QM.eye QM.eye grid_half (0, 0, 0)%Q
                [0] [(0, 0, 0)%Q] false "cart" "lat"
                (1 # 10000000000) 4 (1 # 10000) (1 # 1000000)
    = Ok (ReducedKpoints reduced_grid, weights) /\
    minkowski_reduce_basis QM.eye QM.rtol_default QM.atol_default (1 # 10000000000)
    = Ok (Value mink_basis) /\
    Forall2
      (fun pt new =>
         exists pt1 : QM.vec,
           bring_into_cell pt mink_basis QM.rtol_default QM.atol_default "Cart" false
           = Ok pt1 /\
           (new = pt1 \/ exists n, In n cell_shifts /\ new = shifted pt1 mink_basis n) /\
           (QM.dot new new <= QM.dot pt1 pt1)%Q /\
           forall n, In n cell_shifts ->
             (QM.dot new new
              <= QM.dot (shifted pt1 mink_basis n) (shifted pt1 mink_basis n)
                 + (1 # 10000000000))%Q)
      reduced_grid new_grid.
Proof.
  eexists _, _.
  assert (E : map_to_bz SmithNormalForm_diagonal 10 grid8 QM.eye QM.eye grid_half
                (0, 0, 0)%Q [0] [(0, 0, 0)%Q] QM.rtol_default QM.atol_default
                (1 # 10000000000) = Ok (Value (_, _)))
    by (vm_compute; reflexivity).
  assert (Heps : (0 <= 1 # 10000000000)%Q) by (vm_compute; discriminate).
  destruct (map_to_bz_nearest _ _ _ _ _ _ _ _ _ _ _ _ _ _ Heps E)
    as (reduced_grid & mink_basis & H1 & H2 & H3).
  exists reduced_grid, mink_basis.
  split; [exact E | split; [exact H1 | split; [exact H2 | exact H3]]].
Defined.

(** ** Mapping a grid into the first Brillouin zone ([just_map_to_bz]) *)

(** The eight translationally equivalent points of a folded point, in
    Cartesian coordinates. *)
Definition equivalent_points (rlattice_vectors inv_rlat : QM.mat) (pt : QM.vec)
    : list QM.vec :=
  let pt_lat := QM.mvmul inv_rlat pt in
  let pts_lat := List.map (fun shift => QM.vadd pt_lat (QM.of_Z shift)) cell_shifts in
  List.map (QM.mvmul rlattice_vectors) pts_lat.

(** The body of the loop over the grid. *)
Definition closest_equivalent (rlattice_vectors mink_basis : QM.mat) (rtol atol : Q)
    (pt : QM.vec) : outcome QM.vec :=
  (* move the point into the first unit cell *)
  pt ← bring_into_cell pt mink_basis rtol atol "Cart" false;
  inv_rlat ← QM.inv rlattice_vectors;
  let pts := equivalent_points rlattice_vectors inv_rlat pt in
  (* keep the point that is the closest to the origin *)
  list_get pts (argmin (List.map QM.norm pts)).

Definition just_map_to_bz (grid : list QM.vec) (rlattice_vectors : QM.mat)
    (coords : string) (rtol atol eps : Q) : outcome (or_name_error (list QM.vec)) :=
  mink ← minkowski_reduce_basis rlattice_vectors rtol atol eps;
  match mink with
  | NameError name => Ok (NameError name)
  | Value mink_basis =>
      new_grid ← mapM (closest_equivalent rlattice_vectors mink_basis rtol atol) grid;
      if String.eqb coords "lat" then
        match new_grid with
        | [] => Raise (ValueError "shapes (3,3) and (0,) not aligned")
        | _ =>
            inv_rlat ← QM.inv rlattice_vectors;
            Ok (Value (List.map (QM.mvmul inv_rlat) new_grid))
        end
      else if String.eqb coords "Cart" then Ok (Value new_grid)
      else Raise (ValueError "Coordinate options include 'Cart' and 'lat'.")
  end.

Lemma argmin_from_spec (l : list Q) :
  forall (pre : list Q) (best_i : nat) (best : Q),
    (pre ++ l) !! best_i = Some best ->
    (forall x, In x pre -> (best <= x)%Q) ->
    exists m : Q,
      (pre ++ l) !! argmin_from (List.length pre) best_i best l = Some m /\
      forall x, In x (pre ++ l) -> (m <= x)%Q.
Proof.
  induction l as [| y l IH]; intros pre best_i best Hb Hpre.
  - cbn [argmin_from]. exists best. split; [exact Hb |].
    rewrite app_nil_r. exact Hpre.
  - cbn [argmin_from].
    assert (Hy : (pre ++ y :: l) !! List.length pre = Some y)
      by (rewrite lookup_app_r by lia; rewrite Nat.sub_diag; reflexivity).
    replace (pre ++ y :: l) with ((pre ++ [y]) ++ l) in *
      by (rewrite <- app_assoc; reflexivity).
    replace (Datatypes.S (List.length pre)) with (List.length (pre ++ [y]))
      by (rewrite length_app; cbn; lia).
    destruct (QM.Qlt_bool y best) eqn:Ec.
    + apply Qlt_bool_true in Ec. apply IH; [exact Hy |].
      intros x Hin. apply in_app_or in Hin.
      destruct Hin as [Hin | [<- | []]]; [specialize (Hpre x Hin); lra | lra].
    + apply Qlt_bool_false in Ec. apply IH; [exact Hb |].
      intros x Hin. apply in_app_or in Hin.
      destruct Hin as [Hin | [<- | []]]; [exact (Hpre x Hin) | exact Ec].
Qed.

Lemma argmin_spec (l : list Q) (x0 : Q) :
  exists m : Q, (x0 :: l) !! argmin (x0 :: l) = Some m /\
                forall x, In x (x0 :: l) -> (m <= x)%Q.
Proof.
  cbn [argmin].
  apply (argmin_from_spec l [x0] 0 x0); [reflexivity |].
  intros x [<- | []]. lra.
Qed.

Lemma closest_equivalent_spec (rlattice_vectors mink_basis : QM.mat) (rtol atol : Q)
    (pt new : QM.vec) :
  closest_equivalent rlattice_vectors mink_basis rtol atol pt = Ok new ->
  exists (pt1 : QM.vec) (inv_rlat : QM.mat),
    bring_into_cell pt mink_basis rtol atol "Cart" false = Ok pt1 /\
    QM.inv rlattice_vectors = Ok inv_rlat /\
    In new (equivalent_points rlattice_vectors inv_rlat pt1) /\
    forall p, In p (equivalent_points rlattice_vectors inv_rlat pt1) ->
      (QM.norm new <= QM.norm p)%Q.
Proof.
  unfold closest_equivalent.
  destruct (bring_into_cell pt mink_basis rtol atol "Cart" false) as [pt1 | |];
    try discriminate.
  cbn [mbind outcome_bind].
  destruct (QM.inv rlattice_vectors) as [inv_rlat | |]; try discriminate.
  cbn [mbind outcome_bind]. intros E. exists pt1, inv_rlat.
  split; [reflexivity |]. split; [reflexivity |].
  set (pts := equivalent_points rlattice_vectors inv_rlat pt1) in *.
  assert (Hne : exists p0 ps, pts = p0 :: ps) by (eexists _, _; reflexivity).
  destruct Hne as (p0 & ps & Epts). clearbody pts. subst pts.
  apply list_get_Ok in E.
  destruct (argmin_spec (List.map QM.norm ps) (QM.norm p0)) as (m & Hm & Hmin).
  change (QM.norm p0 :: List.map QM.norm ps) with (List.map QM.norm (p0 :: ps)) in Hm, Hmin.
  assert (Em : m = QM.norm new).
  { pose proof (list_lookup_fmap QM.norm (p0 :: ps)
                  (argmin (List.map QM.norm (p0 :: ps)))) as Hf.
    change (QM.norm <$> p0 :: ps) with (List.map QM.norm (p0 :: ps)) in Hf.
    rewrite Hf, E in Hm. cbn in Hm. congruence. }
  subst m. split.
  - apply list_elem_of_In. eapply list_elem_of_lookup_2. exact E.
  - intros p Hp. apply Hmin. apply in_map. exact Hp.
Qed.

(** In the mode [coords="Cart"], each point [just_map_to_bz] returns comes
    from the grid point at the same position: that point is folded into
    the cell of the Minkowski basis, and the point returned is the one of
    the eight images of the folded point, shifted by [-1] or [0] reciprocal
    lattice vectors, that has the least norm. *)
Theorem just_map_to_bz_closest (grid : list QM.vec) (rlattice_vectors : QM.mat)
    (rtol atol eps : Q) (new_grid : list QM.vec) :
  just_map_to_bz grid rlattice_vectors "Cart" rtol atol eps = Ok (Value new_grid) ->
  exists mink_basis : QM.mat,
    minkowski_reduce_basis rlattice_vectors rtol atol eps = Ok (Value mink_basis) /\
    Forall2
      (fun pt new =>
         exists (pt1 : QM.vec) (inv_rlat : QM.mat),
           bring_into_cell pt mink_basis rtol atol "Cart" false = Ok pt1 /\
           QM.inv rlattice_vectors = Ok inv_rlat /\
           In new (equivalent_points rlattice_vectors inv_rlat pt1) /\
           forall p, In p (equivalent_points rlattice_vectors inv_rlat pt1) ->
             (QM.norm new <= QM.norm p)%Q)
      grid new_grid.
Proof.
  unfold just_map_to_bz.
  destruct (minkowski_reduce_basis rlattice_vectors rtol atol eps)
    as [[mink_basis | name] | |]; try discriminate.
  cbn [mbind outcome_bind].
  destruct (mapM _ grid) as [new | |] eqn:Em; try discriminate.
  cbn [mbind outcome_bind String.eqb Ascii.eqb Bool.eqb].
  intros E. apply Ok_inj in E. injection E as <-.
  exists mink_basis. split; [reflexivity |].
  revert new Em. induction grid as [| pt grid IH]; intros new Em.
  - cbn in Em. injection Em as <-. constructor.
  - cbn [mapM] in Em.
    destruct (closest_equivalent rlattice_vectors mink_basis rtol atol pt)
      as [p | |] eqn:Ep; try discriminate.
    cbn [mbind outcome_bind] in Em.
    destruct (mapM _ grid) as [ps | |] eqn:Eps; try discriminate.
    cbn [mbind outcome_bind mret outcome_ret] in Em. injection Em as <-.
    constructor; [| apply IH; reflexivity].
    apply closest_equivalent_spec. exact Ep.
Qed.

Lemma just_map_to_bz_closest_witness :
  exists (new_grid : list QM.vec) (mink_basis : QM.mat),
    just_map_to_bz grid8 two_cell "Cart" (1 # 10000) (1 # 1000000) (1 # 10000000000)
    = Ok (Value new_grid) /\
    minkowski_reduce_basis two_cell (1 # 10000) (1 # 1000000) (1 # 10000000000)
    = Ok (Value mink_basis) /\
    Forall2
      (fun pt new =>
         exists (pt1 : QM.vec) (inv_rlat : QM.mat),
           bring_into_cell pt mink_basis (1 # 10000) (1 # 1000000) "Cart" false = Ok pt1 /\
           QM.inv two_cell = Ok inv_rlat /\
           In new (equivalent_points two_cell inv_rlat pt1) /\
           forall p, In p (equivalent_points two_cell inv_rlat pt1) ->
             (QM.norm new <= QM.norm p)%Q)
      grid8 new_grid.
Proof.
  eexists.
  assert (E : just_map_to_bz grid8 two_cell "Cart" (1 # 10000) (1 # 1000000)
                (1 # 10000000000) = Ok (Value _))
    by (vm_compute; reflexivity).
  destruct (just_map_to_bz_closest _ _ _ _ _ _ E) as (mink_basis & H1 & H2).
  exists mink_basis. split; [exact E | split; [exact H1 | exact H2]].
Defined.
